(** * 2048 with the "two 8192 tiles" rule: board engine and TD(lambda) agent

    A shallow embedding of [board.h] (class [board]) and of the learning
    agent of [agent.h] (class [strategic_slider]), with the properties the
    specification states about them. *)

From Stdlib Require Import String ZArith NArith List Bool Lia.
From Stdlib Require Import Floats.SpecFloat.
Import ListNotations.
Local Open Scope Z_scope.

(** ** Machine integers

    [cell] is [uint32_t], [reward] and the local counters are [int],
    [size_t] is 64 bits wide.  Values are carried as [Z]; every conversion
    and every arithmetic step of the source is followed by its wrap-around. *)
Module MachineInt.

Definition wrap_u32 (z : Z) : Z := z mod 2 ^ 32.
Definition wrap_i32 (z : Z) : Z := (z + 2 ^ 31) mod 2 ^ 32 - 2 ^ 31.
Definition wrap_u64 (z : Z) : Z := z mod 2 ^ 64.

(** [1 << n] on [int].  The source only shifts by a tile rank; outside
    [0 <= n < 31] the C++ expression has no defined value and the model
    merely wraps the mathematical shift. *)
Definition shl1 (n : Z) : Z := wrap_i32 (Z.shiftl 1 n).

Definition in_i32 (z : Z) : Prop := - 2 ^ 31 <= z < 2 ^ 31.

End MachineInt.
Import MachineInt.

(** ** The board ([board.h])

    [grid] is [std::array<std::array<cell, 4>, 4>]; a [board] carries the
    grid and the 64-bit attribute word.  Indices outside [0..3] are never
    produced by the source; the accessors read 0 and write nothing there. *)
Definition cell := Z.

Record row := Row { c0 : cell; c1 : cell; c2 : cell; c3 : cell }.
Record grid := Grid { r0 : row; r1 : row; r2 : row; r3 : row }.
Record board := Board { tile : grid; attr : Z }.

Definition row_get (rw : row) (c : nat) : cell :=
  match c with
  | 0%nat => c0 rw | 1%nat => c1 rw | 2%nat => c2 rw | 3%nat => c3 rw
  | _ => 0
  end.

Definition row_set (rw : row) (c : nat) (v : cell) : row :=
  match c with
  | 0%nat => Row v (c1 rw) (c2 rw) (c3 rw)
  | 1%nat => Row (c0 rw) v (c2 rw) (c3 rw)
  | 2%nat => Row (c0 rw) (c1 rw) v (c3 rw)
  | 3%nat => Row (c0 rw) (c1 rw) (c2 rw) v
  | _ => rw
  end.

Definition grid_row (g : grid) (r : nat) : row :=
  match r with
  | 0%nat => r0 g | 1%nat => r1 g | 2%nat => r2 g | 3%nat => r3 g
  | _ => Row 0 0 0 0
  end.

Definition grid_set_row (g : grid) (r : nat) (rw : row) : grid :=
  match r with
  | 0%nat => Grid rw (r1 g) (r2 g) (r3 g)
  | 1%nat => Grid (r0 g) rw (r2 g) (r3 g)
  | 2%nat => Grid (r0 g) (r1 g) rw (r3 g)
  | 3%nat => Grid (r0 g) (r1 g) (r2 g) rw
  | _ => g
  end.

(** [tile[r][c]], read and written. *)
Definition at_rc (b : board) (r c : nat) : cell := row_get (grid_row (tile b) r) c.

Definition set_rc (b : board) (r c : nat) (v : cell) : board :=
  Board (grid_set_row (tile b) r (row_set (grid_row (tile b) r) c v)) (attr b).

(** [operator()(unsigned i)]: the cell at 1-d index [i], [tile[i / 4][i % 4]]. *)
Definition at_pos (b : board) (i : nat) : cell := at_rc b (i / 4) (i mod 4).

Definition set_pos (b : board) (i : nat) (v : cell) : board :=
  set_rc b (i / 4) (i mod 4) v.

(** [std::swap(tile[ra][ca], tile[rb][cb])]. *)
Definition swap_rc (b : board) (ra ca rb cb : nat) : board :=
  let x := at_rc b ra ca in
  let y := at_rc b rb cb in
  set_rc (set_rc b ra ca y) rb cb x.

(** [operator ==] compares the grids only. *)
Definition row_eqb (x y : row) : bool :=
  (c0 x =? c0 y) && (c1 x =? c1 y) && (c2 x =? c2 y) && (c3 x =? c3 y).

Definition grid_eqb (x y : grid) : bool :=
  row_eqb (r0 x) (r0 y) && row_eqb (r1 x) (r1 y)
  && row_eqb (r2 x) (r2 y) && row_eqb (r3 x) (r3 y).

Definition board_eqb (x y : board) : bool := grid_eqb (tile x) (tile y).
Definition board_neqb (x y : board) : bool := negb (board_eqb x y).

(** *** Symmetry operations *)

Definition reflect_horizontal (b : board) : board :=
  fold_left (fun b r => swap_rc (swap_rc b r 0 r 3) r 1 r 2) (seq 0 4) b.

Definition reflect_vertical (b : board) : board :=
  fold_left (fun b c => swap_rc (swap_rc b 0 c 3 c) 1 c 2 c) (seq 0 4) b.

Definition transpose (b : board) : board :=
  fold_left
    (fun b r => fold_left (fun b c => swap_rc b r c c r) (seq (r + 1) (4 - (r + 1))) b)
    (seq 0 4) b.

Definition rotate_clockwise (b : board) : board := reflect_horizontal (transpose b).
Definition rotate_counterclockwise (b : board) : board := reflect_vertical (transpose b).
Definition reverse (b : board) : board := reflect_vertical (reflect_horizontal b).

(** *** Placing a tile

    [reward place(unsigned pos, cell tile)]: the new board and the return
    value (0 for a valid placement, -1 otherwise). *)
Definition place (b : board) (pos : N) (t : cell) : board * Z :=
  if ((16 <=? pos)%N || negb (at_pos b (N.to_nat pos) =? 0))%bool then (b, -1)
  else if (negb (t =? 1) && negb (t =? 2))%bool then (b, -1)
  else (set_pos b (N.to_nat pos) t, 0).

(** *** Sliding

    One iteration of the inner loop of [slide_left] at column [c]: the loop
    state is the row being rewritten, [top], [hold] and the running
    [score]. *)
Definition slide_cell (st : row * nat * Z * Z) (c : nat) : row * nat * Z * Z :=
  let '(rw, top, hold, score) := st in
  let t := wrap_i32 (row_get rw c) in
  if t =? 0 then st
  else
    let rw := row_set rw c 0 in
    if negb (hold =? 0) then
      if t =? hold then
        let t := wrap_i32 (t + 1) in
        (row_set rw top (wrap_u32 t), S top, 0, wrap_i32 (score + shl1 t))
      else (row_set rw top (wrap_u32 hold), S top, t, score)
    else (rw, top, t, score).

(** The body of the outer loop for one row: the four columns, then the
    flush of a tile still held. *)
Definition slide_row (rw : row) (score : Z) : row * Z :=
  let '(rw, top, hold, score) := fold_left slide_cell (seq 0 4) (rw, 0%nat, 0, score) in
  (if negb (hold =? 0) then row_set rw top (wrap_u32 hold) else rw, score).

(** The two nested loops: the board after them and the accumulated [score]. *)
Definition slide_left_pass (b : board) : board * Z :=
  fold_left
    (fun (acc : board * Z) r =>
       let '(b, score) := acc in
       let '(rw, score) := slide_row (grid_row (tile b) r) score in
       (Board (grid_set_row (tile b) r rw) (attr b), score))
    (seq 0 4) (b, 0).

Definition slide_left (b : board) : board * Z :=
  let prev := b in
  let '(b, score) := slide_left_pass b in
  (b, if board_neqb b prev then score else -1).

Definition slide_right (b : board) : board * Z :=
  let b := reflect_horizontal b in
  let '(b, score) := slide_left b in
  (reflect_horizontal b, score).

Definition slide_up (b : board) : board * Z :=
  let b := rotate_clockwise b in
  let '(b, score) := slide_right b in
  (rotate_counterclockwise b, score).

Definition slide_down (b : board) : board * Z :=
  let b := rotate_clockwise b in
  let '(b, score) := slide_left b in
  (rotate_counterclockwise b, score).

(** [reward slide(unsigned opcode)]. *)
Definition slide (b : board) (opcode : N) : board * Z :=
  match N.land opcode 3 with
  | 0%N => slide_up b
  | 1%N => slide_right b
  | 2%N => slide_down b
  | 3%N => slide_left b
  | _ => (b, -1)
  end.

(** *** Queries *)

Definition has_two_8192 (b : board) : bool :=
  2 <=? fold_left (fun n i => if at_pos b i =? 13 then n + 1 else n) (seq 0 16) 0.

Definition count_tile_value (b : board) (value : cell) : Z :=
  fold_left (fun n i => if at_pos b i =? value then n + 1 else n) (seq 0 16) 0.

Definition max_tile_value (b : board) : Z :=
  fold_left (fun m i => Z.max m (wrap_i32 (at_pos b i))) (seq 0 16) 0.

(** ** Floating point

    [float] is IEEE binary32 and [double] binary64, both with
    round-to-nearest-even, given by the Standard Library's executable
    specification [SpecFloat]. *)
Module Float32.

Definition t : Type := spec_float.
Definition prec : Z := 24.
Definition emax : Z := 128.

Definition add : t -> t -> t := SFadd prec emax.
Definition sub : t -> t -> t := SFsub prec emax.
Definition mul : t -> t -> t := SFmul prec emax.
Definition div : t -> t -> t := SFdiv prec emax.

(** Conversion of an [int] to [float]. *)
Definition of_int (z : Z) : t := binary_normalize prec emax z 0 false.

(** The decimal literals of the source, each the binary32 value nearest to
    the written fraction. *)
Definition zero : t := S754_zero false.
Definition one : t := Eval vm_compute in of_int 1.
Definition lit_0_125 : t := Eval vm_compute in div (of_int 1) (of_int 8).
Definition lit_0_4 : t := Eval vm_compute in div (of_int 4) (of_int 10).
Definition lit_0_7 : t := Eval vm_compute in div (of_int 7) (of_int 10).

End Float32.

Module Float64.

Definition t : Type := spec_float.
Definition prec : Z := 53.
Definition emax : Z := 1024.

Definition mul : t -> t -> t := SFmul prec emax.

Definition one : t := Eval vm_compute in binary_normalize prec emax 1 0 false.

(** [float] to [double]: exact. *)
Definition of_float (x : Float32.t) : t :=
  match x with
  | S754_finite s m e => binary_round prec emax s m e
  | _ => x
  end.

(** [double] to [float]: rounded to nearest. *)
Definition to_float (x : t) : Float32.t :=
  match x with
  | S754_finite s m e => binary_round Float32.prec Float32.emax s m e
  | _ => x
  end.

(** A reference [pow] for natural exponents, by repeated multiplication:
    [pow_iter x 0] is 1 and [pow_iter x 1] is [x], as for [std::pow]. *)
Fixpoint pow_iter (x : t) (n : nat) : t :=
  match n with
  | O => one
  | S O => x
  | S n => mul x (pow_iter x n)
  end.

End Float64.

(** [float calculate_danger_level() const] *)
Definition calculate_danger_level (b : board) : Float32.t :=
  let count_8192 := count_tile_value b 13 in
  let count_4096 := count_tile_value b 12 in
  if (1 <=? count_8192) && (2 <=? count_4096) then Float32.one
  else if (1 <=? count_8192) && (1 <=? count_4096) then Float32.lit_0_7
  else if 3 <=? count_4096 then Float32.lit_0_4
  else Float32.zero.

(** ** The learning agent ([agent.h], class [strategic_slider]) *)

(** Modelled from the spec: [weight.h] is not among the sources; a weight
    table is "an ordered, fixed-length sequence of floating-point weights"
    with [size()] and [operator[]], here a list of [float]. *)
Definition weight : Type := list Float32.t.

(** Modelled from the spec: [action.h] is not among the sources; an action
    is "Slide(direction) or Place(position, rank)", or the default-built
    action that does nothing. *)
Inductive action : Type :=
| NoAction
| SlideAction (opcode : N)
| PlaceAction (pos : N) (t : cell).

Record GameStep := {
  state : board;
  action_taken : action;
  reward : Z;
  next_state : board;
  evaluation : Float32.t
}.

(** The members of [weight_agent] and [strategic_slider] that evaluation
    and learning read or write. *)
Record strategic_slider := {
  net : list weight;
  alpha : Float32.t;
  lambda : Float32.t;
  eligibility_traces : list (list Float32.t);
  enable_learning : bool;
  current_episode : list GameStep
}.

(** The four 2x2 patterns, shared by evaluation and update. *)
Definition patterns : list (list Z) :=
  [ [0; 1; 4; 5]; [2; 3; 6; 7]; [8; 9; 12; 13]; [10; 11; 14; 15] ].

(** [v[i] = x] on a vector; the source only writes below [size()]. *)
Fixpoint set_nth {A : Type} (i : nat) (l : list A) (x : A) : list A :=
  match l, i with
  | [], _ => []
  | _ :: rest, O => x :: rest
  | y :: rest, S i => y :: set_nth i rest x
  end.

(** The index loop common to [evaluate_pattern] and
    [update_pattern_weights]: [index] and [multiplier] are [size_t]; the
    loop is left as soon as [index >= size]. *)
Fixpoint pattern_index_loop (b : board) (pattern : list Z) (size index multiplier : Z) : Z :=
  match pattern with
  | [] => index
  | pos :: rest =>
      let '(index, multiplier) :=
        if (0 <=? pos) && (pos <? 16) then
          let tile_value := Z.min (wrap_i32 (at_pos b (Z.to_nat pos))) 15 in
          (wrap_u64 (index + wrap_u64 (wrap_u64 tile_value * multiplier)),
           wrap_u64 (multiplier * 16))
        else (index, multiplier) in
      if size <=? index then index
      else pattern_index_loop b rest size index multiplier
  end.

Definition pattern_index (b : board) (pattern : list Z) (size : nat) : Z :=
  pattern_index_loop b pattern (Z.of_nat size) 0 1.

(** [float evaluate_pattern(const board&, const std::vector<int>&, const weight&)] *)
Definition evaluate_pattern (b : board) (pattern : list Z) (weights : weight) : Float32.t :=
  let index := pattern_index b pattern (length weights) in
  if index <? Z.of_nat (length weights) then nth (Z.to_nat index) weights Float32.zero
  else Float32.zero.

(** The agent's own board transforms, written on 1-d indices. *)
Definition swap_pos (b : board) (i j : nat) : board :=
  let x := at_pos b i in
  let y := at_pos b j in
  set_pos (set_pos b i y) j x.

Definition mirror_horizontal (b : board) : board :=
  fold_left
    (fun b r => swap_pos (swap_pos b (r * 4 + 0) (r * 4 + 3)) (r * 4 + 1) (r * 4 + 2))
    (seq 0 4) b.

Definition mirror_vertical (b : board) : board :=
  fold_left
    (fun b c => swap_pos (swap_pos b (0 * 4 + c) (3 * 4 + c)) (1 * 4 + c) (2 * 4 + c))
    (seq 0 4) b.

Definition transpose_board (b : board) : board :=
  fold_left
    (fun b r =>
       fold_left (fun b c => swap_pos b (r * 4 + c) (c * 4 + r))
                 (seq (r + 1) (4 - (r + 1))) b)
    (seq 0 4) b.

(** [float evaluate_isomorphic_patterns(...)]: seven further evaluations;
    from the fourth on they all rewrite the one local board [transposed]. *)
Definition evaluate_isomorphic_patterns (b : board) (pattern : list Z) (weights : weight)
  : Float32.t :=
  let total_value := Float32.zero in
  let mirrored_h := mirror_horizontal b in
  let total_value := Float32.add total_value (evaluate_pattern mirrored_h pattern weights) in
  let mirrored_v := mirror_vertical b in
  let total_value := Float32.add total_value (evaluate_pattern mirrored_v pattern weights) in
  let transposed := transpose_board b in
  let total_value := Float32.add total_value (evaluate_pattern transposed pattern weights) in
  let transposed := mirror_horizontal transposed in
  let total_value := Float32.add total_value (evaluate_pattern transposed pattern weights) in
  let transposed := mirror_vertical transposed in
  let total_value := Float32.add total_value (evaluate_pattern transposed pattern weights) in
  let transposed := transpose_board transposed in
  let total_value := Float32.add total_value (evaluate_pattern transposed pattern weights) in
  let transposed := mirror_horizontal transposed in
  let total_value := Float32.add total_value (evaluate_pattern transposed pattern weights) in
  total_value.

(** [float evaluate_board(const board&)] *)
Definition evaluate_board (ag : strategic_slider) (b : board) : Float32.t :=
  match net ag with
  | [] => Float32.zero
  | _ =>
      fold_left
        (fun value i =>
           let weights := nth i (net ag) [] in
           let pattern := nth i patterns [] in
           match weights with
           | [] => value
           | _ =>
               let value := Float32.add value (evaluate_pattern b pattern weights) in
               Float32.add value (evaluate_isomorphic_patterns b pattern weights)
           end)
        (seq 0 (Nat.min (length patterns) (length (net ag))))
        Float32.zero
  end.

(** [void update_pattern_weights(state, pattern, net_index, td_error)].
    A trace row missing at [net_index] counts as empty. *)
Definition update_pattern_weights (ag : strategic_slider) (st : board) (pattern : list Z)
    (net_index : nat) (td_error : Float32.t) : strategic_slider :=
  let weights := nth net_index (net ag) [] in
  let traces := nth net_index (eligibility_traces ag) [] in
  let index := pattern_index st pattern (length weights) in
  if (index <? Z.of_nat (length weights)) && (index <? Z.of_nat (length traces)) then
    let i := Z.to_nat index in
    let traces := set_nth i traces Float32.one in
    let w :=
      Float32.add (nth i weights Float32.zero)
        (Float32.mul (Float32.mul (alpha ag) td_error) (nth i traces Float32.zero)) in
    {| net := set_nth net_index (net ag) (set_nth i weights w);
       alpha := alpha ag;
       lambda := lambda ag;
       eligibility_traces := set_nth net_index (eligibility_traces ag) traces;
       enable_learning := enable_learning ag;
       current_episode := current_episode ag |}
  else ag.

(** [void update_isomorphic_pattern_weights(state, pattern, net_index, td_error)] *)
Definition update_isomorphic_pattern_weights (ag : strategic_slider) (st : board)
    (pattern : list Z) (net_index : nat) (td_error : Float32.t) : strategic_slider :=
  let mirrored := mirror_horizontal st in
  let ag :=
    update_pattern_weights ag mirrored pattern net_index
      (Float32.mul td_error Float32.lit_0_125) in
  let transposed := transpose_board st in
  update_pattern_weights ag transposed pattern net_index
    (Float32.mul td_error Float32.lit_0_125).

(** [void update_weights_with_td_error(const board& state, float td_error)] *)
Definition update_weights_with_td_error (ag : strategic_slider) (st : board)
    (td_error : Float32.t) : strategic_slider :=
  match net ag, eligibility_traces ag with
  | [], _ | _, [] => ag
  | _, _ =>
      fold_left
        (fun ag i =>
           match nth i (net ag) [] with
           | [] => ag
           | _ =>
               let pattern := nth i patterns [] in
               let ag := update_pattern_weights ag st pattern i td_error in
               update_isomorphic_pattern_weights ag st pattern i td_error
           end)
        (seq 0 (Nat.min (length patterns) (length (net ag))))
        ag
  end.

(** [current_episode.back()] *)
Definition back (episode : list GameStep) : option GameStep :=
  match rev episode with
  | [] => None
  | step :: _ => Some step
  end.

(** [float calculate_final_reward(const std::string& flag)] *)
Definition calculate_final_reward (ag : strategic_slider) (flag : string) : Float32.t :=
  if String.eqb flag "win" then Float32.of_int (-50000)
  else if String.eqb flag "lose" then
    match back (current_episode ag) with
    | Some last_step =>
        let final_state := next_state last_step in
        let count_8192 := count_tile_value final_state 13 in
        if count_8192 =? 1 then Float32.of_int 10000
        else if (count_8192 =? 0) && (12 <=? max_tile_value final_state)
        then Float32.of_int 5000
        else Float32.of_int 1000
    | None => Float32.zero
    end
  else Float32.zero.

Section FinalUpdate.

(** [std::pow] on [double], from the C library: [pow x n] stands for
    [std::pow((double) x, (double) n)]. *)
Variable pow : Float64.t -> nat -> Float64.t.

(** [td_error * std::pow(lambda, n)], computed in [double] and stored in a
    [float]. *)
Definition discount (lam td_error : Float32.t) (n : nat) : Float32.t :=
  Float64.to_float (Float64.mul (Float64.of_float td_error) (pow (Float64.of_float lam) n)).

(** The backward loop of [perform_final_td_update]: [later_first] holds the
    steps still to visit, the last step of the episode first, and [dist] is
    [current_episode.size() - 1 - i]. *)
Fixpoint final_td_loop (later_first : list GameStep) (dist : nat) (td_error : Float32.t)
    (ag : strategic_slider) : strategic_slider :=
  match later_first with
  | [] => ag
  | step :: earlier =>
      let discounted_error := discount (lambda ag) td_error dist in
      let ag := update_weights_with_td_error ag (state step) discounted_error in
      let td_error :=
        match earlier with
        | [] => td_error
        | _ => Float32.add (Float32.of_int (reward step)) (Float32.mul (lambda ag) td_error)
        end in
      final_td_loop earlier (S dist) td_error ag
  end.

(** [void perform_final_td_update(const std::string& flag)], without the
    line it appends to the game record. *)
Definition perform_final_td_update (ag : strategic_slider) (flag : string)
  : strategic_slider :=
  match back (current_episode ag) with
  | None => ag
  | Some last_step =>
      let final_reward := calculate_final_reward ag flag in
      let td_error := Float32.sub final_reward (evaluation last_step) in
      final_td_loop (rev (current_episode ag)) 0 td_error ag
  end.

(** The learning part of [close_episode]; the rest of it writes logs. *)
Definition close_episode (ag : strategic_slider) (flag : string) : strategic_slider :=
  if enable_learning ag && negb (length (current_episode ag) =? 0)%nat
  then perform_final_td_update ag flag
  else ag.

End FinalUpdate.

(** ** Further operations of [board.h] *)

(** [void rotate(int clockwise_count = 1)]; [%] on [int] truncates towards
    zero. *)
Definition rotate (b : board) (clockwise_count : Z) : board :=
  match Z.rem (Z.rem clockwise_count 4 + 4) 4 with
  | 0 => b
  | 1 => rotate_clockwise b
  | 2 => reverse b
  | 3 => rotate_counterclockwise b
  | _ => b
  end.

(** The number [operator <<] prints for a cell: [(1 << t) & -2u]. *)
Definition printed_value (t : cell) : Z :=
  Z.land (wrap_u32 (shl1 t)) (wrap_u32 (- 2)).

(** [operator <] on boards compares the grids with [std::array]'s
    [operator <], that is [std::lexicographical_compare], rows first and
    cells within a row; the other comparisons are written from it. *)
Fixpoint lexicographical_compare {A : Type} (lt : A -> A -> bool) (x y : list A) : bool :=
  match x, y with
  | _, [] => false
  | [], _ :: _ => true
  | a :: x, b :: y =>
      if lt a b then true
      else if lt b a then false
      else lexicographical_compare lt x y
  end.

Definition row_ltb (x y : row) : bool :=
  lexicographical_compare Z.ltb [c0 x; c1 x; c2 x; c3 x] [c0 y; c1 y; c2 y; c3 y].

Definition grid_ltb (x y : grid) : bool :=
  lexicographical_compare row_ltb [r0 x; r1 x; r2 x; r3 x] [r0 y; r1 y; r2 y; r3 y].

Definition board_ltb (x y : board) : bool := grid_ltb (tile x) (tile y).
Definition board_gtb (x y : board) : bool := board_ltb y x.
Definition board_leb (x y : board) : bool := negb (board_ltb y x).
Definition board_geb (x y : board) : bool := negb (board_ltb x y).

(** [data info() const] and [data info(data dat)], which returns the old
    attribute word. *)
Definition info (b : board) : Z := attr b.
Definition info_set (b : board) (dat : Z) : board * Z := (Board (tile b) dat, attr b).

(** ** The decision loop of [strategic_slider] ([agent.h])

    The game record [last_game_record] and what is printed or written to
    files are left out: nothing of the decisions or of the learning reads
    them. *)

(** [std::numeric_limits<float>::max()], and the comparisons [<] and [==]
    on [float]. *)
Definition float_max : Float32.t := Eval vm_compute in SFmax_float Float32.prec Float32.emax.
Definition float_ltb (x y : Float32.t) : bool := SFltb x y.
Definition float_eqb (x y : Float32.t) : bool := SFeqb x y.

(** The literals [0.9f], [0.8f] and [1000.0f] of the member initialisers. *)
Definition lit_0_9 : Float32.t :=
  Eval vm_compute in Float32.div (Float32.of_int 9) (Float32.of_int 10).
Definition lit_0_8 : Float32.t :=
  Eval vm_compute in Float32.div (Float32.of_int 8) (Float32.of_int 10).
Definition lit_1000 : Float32.t := Eval vm_compute in Float32.of_int 1000.

(** Modelled from the spec: [action.h] is not among the sources; "applying
    an action to a board yields a reward (merge score gained) or a sentinel
    illegal result".  A slide is [board::slide], a placement [board::place],
    and the default-built action is never legal. *)
Definition action_apply (a : action) (b : board) : board * Z :=
  match a with
  | NoAction => (b, -1)
  | SlideAction op => slide b op
  | PlaceAction pos t => place b pos t
  end.

(** [strategic_slider] with the members the decision loop uses besides
    those of the learner; [opcode] is never written after the constructor
    and is the constant below. *)
Record slider_state := {
  learner : strategic_slider;
  game_count : Z;
  move_count : Z;
  danger_penalty_factor : Float32.t;
  survival_bonus : Float32.t;
  eligibility_decay : Float32.t
}.

Definition slider_opcode : list N := [0; 1; 2; 3]%N.

Definition with_episode (ag : strategic_slider) (episode : list GameStep) : strategic_slider :=
  {| net := net ag; alpha := alpha ag; lambda := lambda ag;
     eligibility_traces := eligibility_traces ag;
     enable_learning := enable_learning ag;
     current_episode := episode |}.

Definition with_traces (ag : strategic_slider) (traces : list (list Float32.t))
  : strategic_slider :=
  {| net := net ag; alpha := alpha ag; lambda := lambda ag;
     eligibility_traces := traces;
     enable_learning := enable_learning ag;
     current_episode := current_episode ag |}.

Definition with_learner (p : slider_state) (ag : strategic_slider) : slider_state :=
  {| learner := ag; game_count := game_count p; move_count := move_count p;
     danger_penalty_factor := danger_penalty_factor p;
     survival_bonus := survival_bonus p;
     eligibility_decay := eligibility_decay p |}.

(** [v.resize(n, x)] on a vector. *)
Definition resize {A : Type} (n : nat) (x : A) (l : list A) : list A :=
  firstn n l ++ repeat x (n - length l).

(** [void initialize_eligibility_traces()] *)
Definition initialize_eligibility_traces (ag : strategic_slider) : strategic_slider :=
  match net ag with
  | [] => ag
  | _ =>
      let traces := resize (length (net ag)) [] (eligibility_traces ag) in
      with_traces ag
        (fold_left
           (fun traces i =>
              set_nth i traces
                (resize (length (nth i (net ag) [])) Float32.zero (nth i traces [])))
           (seq 0 (length (net ag))) traces)
  end.

(** [void reset_eligibility_traces()] *)
Definition reset_eligibility_traces (ag : strategic_slider) : strategic_slider :=
  with_traces ag (map (map (fun _ => Float32.zero)) (eligibility_traces ag)).

(** [void decay_eligibility_traces()] *)
Definition decay_eligibility_traces (decay : Float32.t) (ag : strategic_slider)
  : strategic_slider :=
  with_traces ag (map (map (fun trace => Float32.mul trace decay)) (eligibility_traces ag)).

(** [void open_episode(const std::string& flag)] *)
Definition open_episode (p : slider_state) : slider_state :=
  {| learner := reset_eligibility_traces (with_episode (learner p) []);
     game_count := wrap_i32 (game_count p + 1);
     move_count := 0;
     danger_penalty_factor := danger_penalty_factor p;
     survival_bonus := survival_bonus p;
     eligibility_decay := eligibility_decay p |}.

(** [float evaluate_action(const board& before, const board& after, board::reward reward)] *)
Definition evaluate_action (p : slider_state) (before after : board) (reward : Z)
  : Float32.t :=
  let base_value := Float32.of_int reward in
  let base_value :=
    match net (learner p) with
    | [] => base_value
    | _ => Float32.add base_value (evaluate_board (learner p) after)
    end in
  let danger_after := calculate_danger_level after in
  let strategy_penalty :=
    Float32.mul (Float32.mul danger_after (danger_penalty_factor p)) (Float32.of_int 10000) in
  let empty_cells :=
    fold_left (fun n i => if at_pos after i =? 0 then n + 1 else n) (seq 0 16) 0 in
  let survival_reward := Float32.mul (Float32.of_int empty_cells) (survival_bonus p) in
  Float32.add (Float32.sub base_value strategy_penalty) survival_reward.

(** The first loop of [select_best_action]: one iteration, on the best
    action so far and its value, and the whole loop. *)
Definition best_step (p : slider_state) (before : board) (acc : action * Float32.t) (op : N)
  : action * Float32.t :=
  let '(best_action, best_value) := acc in
  let '(after, reward) := slide before op in
  if reward =? -1 then acc
  else
    let value := evaluate_action p before after reward in
    if float_ltb best_value value then (SlideAction op, value) else acc.

Definition best_of (p : slider_state) (before : board) : action * Float32.t :=
  fold_left (best_step p before) slider_opcode (NoAction, SFopp float_max).

(** Its second loop: the first opcode whose slide is legal. *)
Fixpoint first_legal (before : board) (ops : list N) : option N :=
  match ops with
  | [] => None
  | op :: rest =>
      if negb (snd (slide before op) =? -1) then Some op else first_legal before rest
  end.

Section Decision.

(** [action::type()], from [action.h], which is not among the sources: the
    code only tests it against 0. *)
Variable action_type : action -> Z.

(** [action select_best_action(const board& before)] *)
Definition select_best_action (p : slider_state) (before : board) : action * slider_state :=
  let '(best_action, best_value) := best_of p before in
  match (if float_eqb best_value (SFopp float_max)
         then first_legal before slider_opcode else None) with
  | Some op => (SlideAction op, p)
  | None =>
      if enable_learning (learner p) && negb (action_type best_action =? 0) then
        let '(next_state, actual_reward) := action_apply best_action before in
        let step :=
          {| state := before;
             action_taken := best_action;
             reward := actual_reward;
             next_state := next_state;
             evaluation := evaluate_board (learner p) before |} in
        (best_action,
         with_learner p
           (with_episode (learner p) (current_episode (learner p) ++ [step])))
      else (best_action, p)
  end.

(** [void perform_td_update(const board& current_state)] *)
Definition perform_td_update (p : slider_state) (current_state : board) : slider_state :=
  let episode := current_episode (learner p) in
  if (length episode <? 2)%nat then p
  else
    match nth_error episode (length episode - 2) with
    | None => p
    | Some prev_step =>
        let current_value := evaluate_board (learner p) current_state in
        let td_target :=
          Float32.add (Float32.of_int (reward prev_step))
            (Float32.mul (lambda (learner p)) current_value) in
        let td_error := Float32.sub td_target (evaluation prev_step) in
        let ag := update_weights_with_td_error (learner p) (state prev_step) td_error in
        with_learner p (decay_eligibility_traces (eligibility_decay p) ag)
    end.

(** [action take_action(const board& before)] *)
Definition take_action (p : slider_state) (before : board) : action * slider_state :=
  let p :=
    {| learner := learner p; game_count := game_count p;
       move_count := wrap_i32 (move_count p + 1);
       danger_penalty_factor := danger_penalty_factor p;
       survival_bonus := survival_bonus p;
       eligibility_decay := eligibility_decay p |} in
  let '(selected_action, p) := select_best_action p before in
  let p :=
    if enable_learning (learner p) && negb (length (current_episode (learner p)) =? 0)%nat
    then perform_td_update p before
    else p in
  (selected_action, p).

End Decision.

(** [bool check_for_win(const board& b)] *)
Definition check_for_win (b : board) : bool := has_two_8192 b.

(** The index loop of [extract_all_features], which is never left early. *)
Fixpoint feature_loop (st : board) (pattern : list Z) (index multiplier : Z) : Z :=
  match pattern with
  | [] => index
  | pos :: rest =>
      if (0 <=? pos) && (pos <? 16) then
        let tile_value := Z.min (wrap_i32 (at_pos st (Z.to_nat pos))) 15 in
        feature_loop st rest
          (wrap_u64 (index + wrap_u64 (wrap_u64 tile_value * multiplier)))
          (wrap_u64 (multiplier * 16))
      else feature_loop st rest index multiplier
  end.

(** [std::vector<std::vector<size_t>> extract_all_features(const board& state)] *)
Definition extract_all_features (st : board) : list (list Z) :=
  map (fun pattern => [feature_loop st pattern 0 1]) patterns.

(** ** The random agents ([agent.h])

    [std::shuffle] leaves the array in an order that depends on the random
    engine; the functions take the shuffled array, and the number drawn from
    [popup], as arguments. *)

(** [random_slider::take_action], after the shuffle. *)
Fixpoint random_slider_take_action (opcode : list N) (before : board) : action :=
  match opcode with
  | [] => NoAction
  | op :: rest =>
      let reward := snd (slide before op) in
      if negb (reward =? -1) then SlideAction op
      else random_slider_take_action rest before
  end.

(** [random_placer::take_action], after the shuffle. *)
Fixpoint random_placer_take_action (space : list N) (popup : Z) (after : board) : action :=
  match space with
  | [] => NoAction
  | pos :: rest =>
      if negb (at_pos after (N.to_nat pos) =? 0)
      then random_placer_take_action rest popup after
      else
        let tile := if negb (popup =? 0) then 1 else 2 in
        PlaceAction pos tile
  end.

(** ** The option map of [agent] ([agent.h])

    [meta] is a [std::map] from option names to strings. *)
Module Meta.

Definition t : Type := list (string * string).

(** [meta[key] = { value }] *)
Definition set (key value : string) (meta : t) : t :=
  (key, value) :: filter (fun kv => negb (String.eqb (fst kv) key)) meta.

(** [meta.at(key)], which throws when the key is absent. *)
Fixpoint at_key (meta : t) (key : string) : option string :=
  match meta with
  | [] => None
  | (k, v) :: rest => if String.eqb k key then Some v else at_key rest key
  end.

(** [s.find('=')]: the position of the first ['='] (character 61), if there
    is one. *)
Fixpoint find_eq (s : string) : option nat :=
  match s with
  | EmptyString => None
  | String c rest =>
      if Ascii.eqb c (Ascii.ascii_of_nat 61) then Some 0%nat
      else match find_eq rest with
           | Some n => Some (S n)
           | None => None
           end
  end.

(** [pair.substr(0, pair.find('='))] and [pair.substr(pair.find('=') + 1)];
    without an ['='] the position is [npos], the first is the whole string,
    and so is the second since [npos + 1] is 0. *)
Definition key_of (pair : string) : string :=
  match find_eq pair with
  | Some n => substring 0 n pair
  | None => pair
  end.

Definition value_of (pair : string) : string :=
  match find_eq pair with
  | Some n => substring (n + 1) (String.length pair - (n + 1)) pair
  | None => pair
  end.

(** [std::isspace] in the C locale, and the words [ss >> pair] reads. *)
Definition isspace (c : Ascii.ascii) : bool :=
  let n := Ascii.nat_of_ascii c in
  (n =? 32)%nat || ((9 <=? n)%nat && (n <=? 13)%nat).

Fixpoint words_from (current : string) (s : string) : list string :=
  match s with
  | EmptyString =>
      match current with
      | EmptyString => []
      | _ => [current]
      end
  | String c rest =>
      if isspace c then
        match current with
        | EmptyString => words_from EmptyString rest
        | _ => current :: words_from EmptyString rest
        end
      else words_from (current ++ String c EmptyString) rest
  end.

Definition words (s : string) : list string := words_from EmptyString s.

(** [agent(const std::string& args)] *)
Definition agent (args : string) : t :=
  fold_left (fun meta pair => set (key_of pair) (value_of pair) meta)
    (words ("name=unknown role=unknown " ++ args)) [].

(** [property], [notify], [name] and [role]. *)
Definition property (meta : t) (key : string) : option string := at_key meta key.

Definition notify (meta : t) (msg : string) : t := set (key_of msg) (value_of msg) meta.

Definition name (meta : t) : option string := property meta "name".
Definition role (meta : t) : option string := property meta "role".

End Meta.

(** ** The statistics ([statistics.h])

    [episode.h] is not among the sources: the type of episodes, the
    default-built episode and its [open_episode] are left open. *)
Module Statistics.

Section Episodes.

Variable episode : Type.
Variable new_episode : episode.
Variable episode_open : episode -> string -> episode.

Record t := {
  total : Z;
  block : Z;
  limit : Z;
  count : Z;
  data : list episode
}.

(** [statistics(size_t total, size_t block = 0, size_t limit = 0)] *)
Definition make (total block limit : Z) : t :=
  {| total := total;
     block := if negb (block =? 0) then block else total;
     limit := if negb (limit =? 0) then limit else total;
     count := 0;
     data := [] |}.

Definition is_finished (s : t) : bool := total s <=? count s.

Definition step (s : t) : Z := count s.

(** [void open_episode(const std::string& flag)]; [pop_front] on an empty
    deque has no defined behaviour, and there is no result then. *)
Definition open_episode (s : t) (flag : string) : option t :=
  let opened (kept : list episode) :=
    {| total := total s; block := block s; limit := limit s;
       count := wrap_u64 (count s + 1);
       data := kept ++ [episode_open new_episode flag] |} in
  if limit s <=? count s then
    match data s with
    | [] => None
    | _ :: kept => Some (opened kept)
    end
  else Some (opened (data s)).

(** [back()], when there is a record. *)
Definition back (s : t) : option episode := hd_error (rev (data s)).

End Episodes.

Arguments total {episode} _.
Arguments block {episode} _.
Arguments limit {episode} _.
Arguments count {episode} _.
Arguments data {episode} _.
Arguments make {episode} _ _ _.
Arguments is_finished {episode} _.
Arguments step {episode} _.
Arguments open_episode {episode} _ _ _ _.
Arguments back {episode} _.

End Statistics.

(** * Notions used to state the properties *)

(** A rank as the data model has it, [0..15]. *)
Definition rank_ok (c : cell) : Prop := 0 <= c <= 15.

Definition row_ok (rw : row) : Prop :=
  rank_ok (c0 rw) /\ rank_ok (c1 rw) /\ rank_ok (c2 rw) /\ rank_ok (c3 rw).

Definition board_ok (b : board) : Prop :=
  row_ok (r0 (tile b)) /\ row_ok (r1 (tile b)) /\ row_ok (r2 (tile b)) /\ row_ok (r3 (tile b)).

(** The counting loop of the board queries, over the sixteen positions. *)
Definition count_pos (q : nat -> bool) : Z :=
  fold_left (fun n i => if q i then n + 1 else n) (seq 0 16) 0.

Definition nonzero (c : cell) : bool := negb (c =? 0).

(** Number of non-empty cells, and number of cells in which two boards differ. *)
Definition nonzero_cells (b : board) : Z := count_pos (fun i => nonzero (at_pos b i)).

Definition changed_cells (b b' : board) : Z :=
  count_pos (fun i => negb (at_pos b i =? at_pos b' i)).

(** Rows and columns read off a board. *)
Definition row_rev (rw : row) : row := Row (c3 rw) (c2 rw) (c1 rw) (c0 rw).

Definition column (b : board) (c : nat) : row :=
  Row (at_rc b 0 c) (at_rc b 1 c) (at_rc b 2 c) (at_rc b 3 c).

(** *** Left compaction with merging, as the specification words it

    Scan the tiles left to right with a pending tile [hold]: an empty cell is
    skipped; a tile equal to the pending one merges with it (rank plus one,
    [2 ^ new rank] added to the score, nothing pending afterwards); a
    different tile flushes the pending one and becomes pending; a tile still
    pending at the end of the row is flushed. *)
Fixpoint compact_merge (hold : Z) (tiles : list Z) : list Z * Z :=
  match tiles with
  | [] => (if hold =? 0 then [] else [hold], 0)
  | t :: rest =>
      if t =? 0 then compact_merge hold rest
      else if hold =? 0 then compact_merge t rest
      else if t =? hold then
        let '(out, score) := compact_merge 0 rest in
        ((t + 1) :: out, 2 ^ (t + 1) + score)
      else
        let '(out, score) := compact_merge t rest in
        (hold :: out, score)
  end.

(** The compacted tiles, padded with empty cells on the right. *)
Definition merge_row_left (rw : row) : row * Z :=
  let '(out, score) := compact_merge 0 [c0 rw; c1 rw; c2 rw; c3 rw] in
  (Row (nth 0 out 0) (nth 1 out 0) (nth 2 out 0) (nth 3 out 0), score).

(** Every row compacted on its own, and the sum of the row scores. *)
Definition merge_rows_left (b : board) : board * Z :=
  let g := tile b in
  (Board (Grid (fst (merge_row_left (r0 g))) (fst (merge_row_left (r1 g)))
               (fst (merge_row_left (r2 g))) (fst (merge_row_left (r3 g)))) (attr b),
   snd (merge_row_left (r0 g)) + snd (merge_row_left (r1 g))
   + snd (merge_row_left (r2 g)) + snd (merge_row_left (r3 g))).

(** The board as [slide_left] sees it for each opcode, and the way back. *)
Definition orient (opcode : N) (b : board) : board :=
  match N.land opcode 3 with
  | 0%N => reflect_horizontal (rotate_clockwise b)
  | 1%N => reflect_horizontal b
  | 2%N => rotate_clockwise b
  | _ => b
  end.

Definition unorient (opcode : N) (b : board) : board :=
  match N.land opcode 3 with
  | 0%N => rotate_counterclockwise (reflect_horizontal b)
  | 1%N => reflect_horizontal b
  | 2%N => rotate_counterclockwise b
  | _ => b
  end.

(** The total merge score of a slide: the sum of [2 ^ new rank] over the
    merges made in the direction of the opcode. *)
Definition total_merge_score (b : board) (opcode : N) : Z :=
  snd (merge_rows_left (orient opcode b)).

(** Number of non-empty cells of a row. *)
Definition nonzero_row (rw : row) : Z :=
  Z.b2z (nonzero (c0 rw)) + Z.b2z (nonzero (c1 rw))
  + Z.b2z (nonzero (c2 rw)) + Z.b2z (nonzero (c3 rw)).

(** Boards used in the examples. *)
Definition board_of_rows (ra rb rc rd : row) : board := Board (Grid ra rb rc rd) 0.

Definition empty_row : row := Row 0 0 0 0.

Definition two_ones : board := board_of_rows (Row 1 1 0 0) empty_row empty_row empty_row.

Definition one_8192 : board :=
  board_of_rows (Row 13 3 0 0) (Row 2 0 0 0) empty_row empty_row.

(** The last step of a lost game: two 2-tiles merge next to the one
    8192-tile. *)
Definition lost_step : GameStep :=
  {| state := board_of_rows (Row 13 3 0 0) (Row 1 1 0 0) empty_row empty_row;
     action_taken := SlideAction 3; reward := 4;
     next_state := one_8192; evaluation := Float32.zero |}.

Definition lost_agent : strategic_slider :=
  {| net := []; alpha := Float32.zero; lambda := Float32.zero;
     eligibility_traces := []; enable_learning := true;
     current_episode := [lost_step] |}.

(** *** The boards a pattern is looked up on

    [evaluated_boards b] lists the boards on which [evaluate_board] reads a
    pattern, in the order of the source: [b] itself, then the seven boards
    built in [evaluate_isomorphic_patterns]. *)
Definition evaluated_boards (b : board) : list board :=
  let mirrored_h := mirror_horizontal b in
  let mirrored_v := mirror_vertical b in
  let t1 := transpose_board b in
  let t2 := mirror_horizontal t1 in
  let t3 := mirror_vertical t2 in
  let t4 := transpose_board t3 in
  let t5 := mirror_horizontal t4 in
  [b; mirrored_h; mirrored_v; t1; t2; t3; t4; t5].

(** The eight symmetries of the square: the identity and the three
    rotations, and each of them followed by the horizontal mirror. *)
Definition dihedral_boards (b : board) : list board :=
  [ b; rotate_clockwise b; reverse b; rotate_counterclockwise b;
    reflect_horizontal b; reflect_horizontal (rotate_clockwise b);
    reflect_horizontal (reverse b); reflect_horizontal (rotate_counterclockwise b) ].

(** The sum of one pattern's table entries over a list of boards, starting
    from [value]. *)
Definition sum_pattern (boards : list board) (pattern : list Z) (weights : weight)
    (value : Float32.t) : Float32.t :=
  fold_left (fun v x => Float32.add v (evaluate_pattern x pattern weights)) boards value.

(** An evaluation that reads every pattern on the boards [variants b], with
    the additions in the order of [evaluate_board]: the first board is added
    to the running value, the others are summed from 0.0 and their sum is
    added. *)
Definition evaluate_over (variants : board -> list board) (ag : strategic_slider)
    (b : board) : Float32.t :=
  fold_left
    (fun value i =>
       let weights := nth i (net ag) [] in
       let pattern := nth i patterns [] in
       match weights, variants b with
       | [], _ | _, [] => value
       | _, x :: others =>
           Float32.add
             (Float32.add value (evaluate_pattern x pattern weights))
             (sum_pattern others pattern weights Float32.zero)
       end)
    (seq 0 (Nat.min (length patterns) (length (net ag))))
    Float32.zero.

(** A board with a single tile next to a corner, and one table whose only
    non-zero weight sits at the index of "rank 1 at position 4". *)
Definition lone_tile : board :=
  board_of_rows (Row 0 0 1 0) empty_row empty_row empty_row.

Definition one_weight_agent : strategic_slider :=
  {| net := [repeat Float32.zero 256 ++ [Float32.one]];
     alpha := Float32.one; lambda := Float32.one;
     eligibility_traces := [repeat Float32.zero 257];
     enable_learning := true;
     current_episode := [] |}.

(** *** The learning update, flattened

    [weight_at] and [trace_at] read one entry of a table or of its trace
    row. *)
Definition weight_at (ag : strategic_slider) (k i : nat) : Float32.t :=
  nth i (nth k (net ag) []) Float32.zero.

Definition trace_at (ag : strategic_slider) (k i : nat) : Float32.t :=
  nth i (nth k (eligibility_traces ag) []) Float32.zero.

(** The feature index of board [x] for pattern and table [k], and whether it
    lies below the length of the table and of its trace row. *)
Definition feature_index (ag : strategic_slider) (k : nat) (x : board) : Z :=
  pattern_index x (nth k patterns []) (length (nth k (net ag) [])).

Definition feature_in_range (ag : strategic_slider) (k : nat) (x : board) : bool :=
  (feature_index ag k x <? Z.of_nat (length (nth k (net ag) [])))
  && (feature_index ag k x <? Z.of_nat (length (nth k (eligibility_traces ag) []))).

(** One elementary update: table [k], board [x], applied error [err]. *)
Definition apply_variant (ag : strategic_slider) (v : nat * board * Float32.t)
  : strategic_slider :=
  let '(k, x, err) := v in update_pattern_weights ag x (nth k patterns []) k err.

(** The elementary updates of one call, in order: for each of the first
    [min 4 (number of tables)] tables that is not empty, the state with the
    error itself, then its horizontal mirror and its transpose with the error
    times 0.125.  None when there is no table or no trace row at all. *)
Definition update_schedule (ag : strategic_slider) (st : board) (err : Float32.t)
  : list (nat * board * Float32.t) :=
  match net ag, eligibility_traces ag with
  | [], _ | _, [] => []
  | _, _ =>
      flat_map
        (fun k =>
           match nth k (net ag) [] with
           | [] => []
           | _ => [ (k, st, err);
                    (k, mirror_horizontal st, Float32.mul err Float32.lit_0_125);
                    (k, transpose_board st, Float32.mul err Float32.lit_0_125) ]
           end)
        (seq 0 (Nat.min 4 (length (net ag))))
  end.

(** Tables of 1000 entries, as in the repository's quick training script
    ([init=1000,1000,1000,1000 alpha=0.1]), and a board of sixteen 16-tiles. *)
Definition lit_0_1 : Float32.t :=
  Eval vm_compute in Float32.div (Float32.of_int 1) (Float32.of_int 10).

Definition small_agent : strategic_slider :=
  {| net := repeat (repeat Float32.zero 1000) 4;
     alpha := lit_0_1; lambda := Float32.one;
     eligibility_traces := repeat (repeat Float32.zero 1000) 4;
     enable_learning := true;
     current_episode := [] |}.

Definition sixteens : board :=
  board_of_rows (Row 4 4 4 4) (Row 4 4 4 4) (Row 4 4 4 4) (Row 4 4 4 4).

(** Tables of 65536 entries, as the training scripts create them
    ([init=65536,65536,65536,65536]). *)
Definition full_agent : strategic_slider :=
  {| net := repeat (repeat Float32.zero (Z.to_nat 65536)) 4;
     alpha := lit_0_1; lambda := Float32.one;
     eligibility_traces := repeat (repeat Float32.zero (Z.to_nat 65536)) 4;
     enable_learning := true;
     current_episode := [] |}.

(** *** The final update, as a list of applied errors *)

Definition apply_error (ag : strategic_slider) (se : board * Float32.t) : strategic_slider :=
  update_weights_with_td_error ag (fst se) (snd se).

(** The carried error term at each step, last step first: it starts at
    [first_error] and each earlier step receives
    [step.reward + lambda * carried] of the step after it. *)
Fixpoint carried_errors (lam : Float32.t) (later_first : list GameStep)
    (carried : Float32.t) : list Float32.t :=
  match later_first with
  | [] => []
  | step :: earlier =>
      carried
      :: carried_errors lam earlier
           (Float32.add (Float32.of_int (reward step)) (Float32.mul lam carried))
  end.

Section FinalSchedule.

Variable pow : Float64.t -> nat -> Float64.t.

(** Each step paired with its error term times [lambda ^ dist]. *)
Fixpoint applied_errors (lam : Float32.t) (later_first : list GameStep)
    (errors : list Float32.t) (dist : nat) : list (board * Float32.t) :=
  match later_first, errors with
  | step :: earlier, err :: rest =>
      (state step, discount pow lam err dist) :: applied_errors lam earlier rest (S dist)
  | _, _ => []
  end.

(** What the final update applies: the carried term times
    [lambda ^ distance_from_end]. *)
Definition final_td_schedule (ag : strategic_slider) (first_error : Float32.t)
  : list (board * Float32.t) :=
  let later_first := rev (current_episode ag) in
  applied_errors (lambda ag) later_first
    (carried_errors (lambda ag) later_first first_error) 0.

(** What the formula [(final_reward - last.value_estimate) * lambda ^ dist]
    would apply: the same first error at every step. *)
Definition uniform_td_schedule (ag : strategic_slider) (first_error : Float32.t)
  : list (board * Float32.t) :=
  let later_first := rev (current_episode ag) in
  applied_errors (lambda ag) later_first
    (repeat first_error (length later_first)) 0.

End FinalSchedule.

Definition lit_0_5 : Float32.t :=
  Eval vm_compute in Float32.div (Float32.of_int 1) (Float32.of_int 2).

(** A two-step episode on one table of sixteen weights: two 2-tiles merge
    for 4 points, a 4-tile is added, two 4-tiles merge for 8 points. *)
Definition step_a : GameStep :=
  {| state := board_of_rows (Row 1 0 1 0) empty_row empty_row empty_row;
     action_taken := SlideAction 3; reward := 4;
     next_state := board_of_rows (Row 2 0 0 0) empty_row empty_row empty_row;
     evaluation := Float32.zero |}.

Definition step_b : GameStep :=
  {| state := board_of_rows (Row 2 0 2 0) empty_row empty_row empty_row;
     action_taken := SlideAction 3; reward := 8;
     next_state := board_of_rows (Row 3 0 0 0) empty_row empty_row empty_row;
     evaluation := Float32.zero |}.

Definition two_step_agent : strategic_slider :=
  {| net := [repeat Float32.zero 16];
     alpha := Float32.one; lambda := lit_0_5;
     eligibility_traces := [repeat Float32.zero 16];
     enable_learning := true;
     current_episode := [step_a; step_b] |}.

(** * Further notions used to state properties *)

(** [n] clockwise quarter turns. *)
Fixpoint quarter_turns (n : nat) (b : board) : board :=
  match n with
  | O => b
  | S n => rotate_clockwise (quarter_turns n b)
  end.

(** The face value of a cell, [2 ^ rank], nothing for an empty cell; the
    values of a list of cells, of a row and of a board. *)
Definition tile_value (c : cell) : Z := if c =? 0 then 0 else 2 ^ c.

Definition list_value (l : list cell) : Z :=
  fold_right (fun c s => tile_value c + s) 0 l.

Definition row_value (rw : row) : Z :=
  tile_value (c0 rw) + tile_value (c1 rw) + tile_value (c2 rw) + tile_value (c3 rw).

Definition board_value (b : board) : Z :=
  fold_left (fun s i => s + tile_value (at_pos b i)) (seq 0 16) 0.

(** No tile to the right of an empty cell. *)
Definition row_compact (rw : row) : Prop :=
  forall i j, (i < j < 4)%nat -> row_get rw i = 0 -> row_get rw j = 0.

Definition rows_compact (b : board) : Prop :=
  forall r, (r < 4)%nat -> row_compact (grid_row (tile b) r).

(** The sixteen cells of a board, by position. *)
Definition cells (b : board) : list cell := map (at_pos b) (seq 0 16).

(** Number of tiles in a list of cells. *)
Definition list_nonzero (l : list cell) : Z :=
  fold_right (fun c s => Z.b2z (nonzero c) + s) 0 l.

(** The symmetry operations of [board.h]. *)
Definition symmetries : list (board -> board) :=
  [ rotate_clockwise; rotate_counterclockwise; reverse;
    reflect_horizontal; reflect_vertical; transpose ].

(** The step [select_best_action] records for action [a]. *)
Definition recorded_step (p : slider_state) (before : board) (a : action) : GameStep :=
  {| state := before;
     action_taken := a;
     reward := snd (action_apply a before);
     next_state := fst (action_apply a before);
     evaluation := evaluate_board (learner p) before |}.

(** An opcode whose slide is legal: [slide] does not return -1. *)
Definition legal (before : board) (op : N) : Prop := snd (slide before op) <> -1.

(** Two learners that differ at most in the values of their eligibility
    traces. *)
Definition same_but_traces (ag ag' : strategic_slider) : Prop :=
  net ag = net ag'
  /\ alpha ag = alpha ag'
  /\ lambda ag = lambda ag'
  /\ enable_learning ag = enable_learning ag'
  /\ current_episode ag = current_episode ag'
  /\ map (@length _) (eligibility_traces ag) = map (@length _) (eligibility_traces ag').

(** The lengths of the tables of a learner, and of its trace rows. *)
Definition net_shape (ag : strategic_slider) : list nat := map (@length _) (net ag).
Definition traces_shape (ag : strategic_slider) : list nat :=
  map (@length _) (eligibility_traces ag).

(** Two sliders that differ at most in the values of their eligibility
    traces and in [eligibility_decay]. *)
Definition same_decisions (p p' : slider_state) : Prop :=
  same_but_traces (learner p) (learner p')
  /\ game_count p = game_count p'
  /\ move_count p = move_count p'
  /\ danger_penalty_factor p = danger_penalty_factor p'
  /\ survival_bonus p = survival_bonus p'.

(** [take_action] first counts the move. *)
Definition counted (p : slider_state) : slider_state :=
  {| learner := learner p; game_count := game_count p;
     move_count := wrap_i32 (move_count p + 1);
     danger_penalty_factor := danger_penalty_factor p;
     survival_bonus := survival_bonus p;
     eligibility_decay := eligibility_decay p |}.

(** Every cell fits an [int]. *)
Definition cells_in_int (b : board) : Prop :=
  forall i, (i < 16)%nat -> 0 <= at_pos b i < 2 ^ 31.

(** The rank of a cell as the patterns see it, at most 15, and the number
    whose base-16 digits are the ranks at the positions of a pattern, the
    first position being the lowest digit. *)
Definition clamped (b : board) (i : nat) : Z := Z.min (at_pos b i) 15.

Definition encode (b : board) (pattern : list Z) : Z :=
  fold_right (fun pos acc => clamped b (Z.to_nat pos) + 16 * acc) 0 pattern.

(** The feature [extract_all_features] gives for pattern [k]. *)
Definition feature (b : board) (k : nat) : Z :=
  nth 0 (nth k (extract_all_features b) []) 0.

(** A string without blanks, as [operator >>] reads it in one piece. *)
Fixpoint no_space (s : string) : Prop :=
  match s with
  | EmptyString => True
  | String c rest => Meta.isspace c = false /\ no_space rest
  end.

(** One option, [key=value]. *)
Definition option_text (key value : string) : string := (key ++ "=" ++ value)%string.

(** Episodes opened one after the other, while each call has a result. *)
Definition open_all {episode : Type} (new_episode : episode)
    (episode_open : episode -> string -> episode)
    (s : Statistics.t episode) (flags : list string) : option (Statistics.t episode) :=
  fold_left
    (fun opened flag =>
       match opened with
       | Some s => Statistics.open_episode new_episode episode_open s flag
       | None => None
       end)
    flags (Some s).

(** The last [n] elements of a list. *)
Definition last_n {A : Type} (n : nat) (l : list A) : list A := skipn (length l - n) l.

(** A learner with one table of sixteen weights, all 0, before the
    constructor sizes its traces, and a slider around a learner with the
    parameters the class gives by default. *)
Definition fresh_learner : strategic_slider :=
  {| net := [repeat Float32.zero 16];
     alpha := lit_0_1; lambda := lit_0_9;
     eligibility_traces := [];
     enable_learning := true;
     current_episode := [] |}.

Definition default_slider (ag : strategic_slider) : slider_state :=
  {| learner := ag; game_count := 0; move_count := 0;
     danger_penalty_factor := Float32.lit_0_7;
     survival_bonus := lit_1000;
     eligibility_decay := lit_0_8 |}.

(** The same slider with every trace at 1 and no decay. *)
Definition other_traces (p : slider_state) : slider_state :=
  {| learner :=
       with_traces (learner p)
         (map (map (fun _ => Float32.one)) (eligibility_traces (learner p)));
     game_count := game_count p; move_count := move_count p;
     danger_penalty_factor := danger_penalty_factor p;
     survival_bonus := survival_bonus p;
     eligibility_decay := Float32.one |}.

(** The opcode of the same slide seen in a mirror: left and right
    exchanged. *)
Definition mirrored (opcode : N) : N :=
  match N.land opcode 3 with
  | 1%N => 3%N
  | 3%N => 1%N
  | k => k
  end.

(** * Properties *)

(** ** Machine integers *)

Lemma wrap_i32_small z : in_i32 z -> wrap_i32 z = z.
Proof.
  unfold in_i32, wrap_i32. intros H.
  rewrite Z.mod_small; lia.
Qed.

Lemma wrap_i32_range z : in_i32 (wrap_i32 z).
Proof.
  unfold in_i32, wrap_i32.
  pose proof (Z.mod_pos_bound (z + 2 ^ 31) (2 ^ 32) ltac:(lia)). lia.
Qed.

Lemma wrap_i32_add_l a b : wrap_i32 (wrap_i32 a + b) = wrap_i32 (a + b).
Proof.
  unfold wrap_i32. f_equal.
  replace ((a + 2 ^ 31) mod 2 ^ 32 - 2 ^ 31 + b + 2 ^ 31)
    with ((a + 2 ^ 31) mod 2 ^ 32 + b) by lia.
  rewrite Zplus_mod_idemp_l. f_equal. lia.
Qed.

Lemma wrap_i32_add_r a b : wrap_i32 (a + wrap_i32 b) = wrap_i32 (a + b).
Proof. rewrite Z.add_comm, wrap_i32_add_l. f_equal. lia. Qed.

(** ** Boards: equality, cell-wise form of the symmetry operations *)

Ltac board_cells b :=
  destruct b as [[[?x ?x ?x ?x] [?x ?x ?x ?x] [?x ?x ?x ?x] [?x ?x ?x ?x]] ?w].

Ltac by_cells b := board_cells b; vm_compute; reflexivity.

(** Unfolds the accessors, and nothing of the arithmetic on cells. *)
Ltac board_eval :=
  cbv [set_pos set_rc at_pos at_rc swap_rc swap_pos column row_rev
       fold_left fold_right seq Nat.div Nat.modulo Nat.divmod fst snd
       Nat.sub Nat.add Nat.mul tile attr grid_row grid_set_row row_get row_set
       c0 c1 c2 c3 r0 r1 r2 r3 nonzero_row board_ok row_ok].

Lemma row_eqb_eq x y : row_eqb x y = true <-> x = y.
Proof.
  destruct x, y. unfold row_eqb. cbn [c0 c1 c2 c3].
  rewrite !andb_true_iff, !Z.eqb_eq. split.
  - intros [[[-> ->] ->] ->]. reflexivity.
  - intros H. injection H as -> -> -> ->. auto.
Qed.

Lemma grid_eqb_eq x y : grid_eqb x y = true <-> x = y.
Proof.
  destruct x, y. unfold grid_eqb. cbn [r0 r1 r2 r3].
  rewrite !andb_true_iff, !row_eqb_eq. split.
  - intros [[[-> ->] ->] ->]. reflexivity.
  - intros H. injection H as -> -> -> ->. auto.
Qed.

Lemma board_eqb_eq x y : board_eqb x y = true <-> tile x = tile y.
Proof. apply grid_eqb_eq. Qed.

Lemma board_neqb_true x y : attr x = attr y -> board_neqb x y = true <-> x <> y.
Proof.
  intros Hattr. unfold board_neqb. rewrite negb_true_iff.
  destruct (board_eqb x y) eqn:E.
  - apply board_eqb_eq in E. split; [discriminate|].
    intros H. exfalso. apply H. destruct x, y. cbn in *. congruence.
  - split; [|reflexivity]. intros _ ->.
    assert (board_eqb y y = true) by now apply board_eqb_eq. congruence.
Qed.

Lemma board_neqb_false x y : attr x = attr y -> board_neqb x y = false -> x = y.
Proof.
  intros Hattr H. unfold board_neqb in H. apply negb_false_iff in H.
  apply board_eqb_eq in H. destruct x, y. cbn in *. congruence.
Qed.

Lemma reflect_horizontal_rows b :
  reflect_horizontal b =
  Board (Grid (row_rev (r0 (tile b))) (row_rev (r1 (tile b)))
              (row_rev (r2 (tile b))) (row_rev (r3 (tile b)))) (attr b).
Proof. by_cells b. Qed.

Lemma reflect_vertical_rows b :
  reflect_vertical b =
  Board (Grid (r3 (tile b)) (r2 (tile b)) (r1 (tile b)) (r0 (tile b))) (attr b).
Proof. by_cells b. Qed.

Lemma transpose_columns b :
  transpose b = Board (Grid (column b 0) (column b 1) (column b 2) (column b 3)) (attr b).
Proof. by_cells b. Qed.

(** A clockwise quarter turn sends the cell at row [3 - c], column [r] to
    row [r], column [c]. *)
Lemma rotate_clockwise_cells b :
  rotate_clockwise b =
  Board (Grid (row_rev (column b 0)) (row_rev (column b 1))
              (row_rev (column b 2)) (row_rev (column b 3))) (attr b).
Proof. by_cells b. Qed.

Lemma reflect_horizontal_involutive b : reflect_horizontal (reflect_horizontal b) = b.
Proof. by_cells b. Qed.

Lemma reflect_vertical_involutive b : reflect_vertical (reflect_vertical b) = b.
Proof. by_cells b. Qed.

Lemma transpose_involutive b : transpose (transpose b) = b.
Proof. by_cells b. Qed.

Lemma rotate_counter_clockwise b : rotate_counterclockwise (rotate_clockwise b) = b.
Proof. by_cells b. Qed.

Lemma rotate_clockwise_counter b : rotate_clockwise (rotate_counterclockwise b) = b.
Proof. by_cells b. Qed.

(** C8. Four clockwise quarter turns give the board back, two horizontal
    mirrors give the board back, and a clockwise quarter turn is the
    transpose followed by the horizontal mirror. *)
Theorem symmetry_algebra (b : board) :
  rotate_clockwise (rotate_clockwise (rotate_clockwise (rotate_clockwise b))) = b
  /\ reflect_horizontal (reflect_horizontal b) = b
  /\ rotate_clockwise b = reflect_horizontal (transpose b).
Proof.
  split; [|split].
  - by_cells b.
  - apply reflect_horizontal_involutive.
  - reflexivity.
Qed.

(** ** Counting cells *)

Lemma count_fold (q : nat -> bool) l n :
  fold_left (fun n i => if q i then n + 1 else n) l n
  = n + fold_right (fun i s => Z.b2z (q i) + s) 0 l.
Proof.
  revert n. induction l as [|i l IH]; intros n; cbn [fold_left fold_right]; [lia|].
  rewrite IH. destruct (q i); cbn [Z.b2z]; lia.
Qed.

Lemma count_pos_sum q :
  count_pos q = fold_right (fun i s => Z.b2z (q i) + s) 0 (seq 0 16).
Proof. unfold count_pos. rewrite count_fold. lia. Qed.

Lemma count_tile_value_count b v :
  count_tile_value b v = count_pos (fun i => at_pos b i =? v).
Proof. reflexivity. Qed.

Lemma nonzero_cells_rows b :
  nonzero_cells b
  = nonzero_row (r0 (tile b)) + nonzero_row (r1 (tile b))
    + nonzero_row (r2 (tile b)) + nonzero_row (r3 (tile b)).
Proof.
  unfold nonzero_cells. rewrite count_pos_sum.
  board_cells b. board_eval. lia.
Qed.

Lemma nonzero_cells_reflect_horizontal b :
  nonzero_cells (reflect_horizontal b) = nonzero_cells b.
Proof.
  rewrite !nonzero_cells_rows, reflect_horizontal_rows.
  board_cells b. board_eval. lia.
Qed.

Lemma nonzero_cells_reflect_vertical b :
  nonzero_cells (reflect_vertical b) = nonzero_cells b.
Proof.
  rewrite !nonzero_cells_rows, reflect_vertical_rows.
  board_cells b. board_eval. lia.
Qed.

Lemma nonzero_cells_transpose b : nonzero_cells (transpose b) = nonzero_cells b.
Proof.
  rewrite !nonzero_cells_rows, transpose_columns.
  board_cells b. board_eval. lia.
Qed.

Lemma board_ok_reflect_horizontal b : board_ok b -> board_ok (reflect_horizontal b).
Proof. rewrite reflect_horizontal_rows. board_cells b. board_eval. tauto. Qed.

Lemma board_ok_transpose b : board_ok b -> board_ok (transpose b).
Proof. rewrite transpose_columns. board_cells b. board_eval. tauto. Qed.

(** ** Placing *)

Lemma changed_cells_refl b : changed_cells b b = 0.
Proof.
  unfold changed_cells. rewrite count_pos_sum.
  induction (seq 0 16) as [|i l IH]; cbn [fold_right]; [reflexivity|].
  rewrite Z.eqb_refl, IH. reflexivity.
Qed.

Lemma changed_cells_set_pos b i v : (i < 16)%nat -> changed_cells b (set_pos b i v) <= 1.
Proof.
  intros Hi. unfold changed_cells. rewrite count_pos_sum. board_cells b.
  do 16 (destruct i as [|i];
    [ board_eval; rewrite ?Z.eqb_refl; cbn [negb Z.b2z];
      match goal with |- context [Z.eqb ?p ?q] => destruct (Z.eqb p q) end;
      cbn [negb Z.b2z]; lia | ]).
  lia.
Qed.

(** C10. A position of 16 or more is refused: [place] returns -1 and the
    board is the one it was given. *)
Theorem place_out_of_range (b : board) (pos : N) (t : cell) :
  (16 <= pos)%N -> place b pos t = (b, -1).
Proof.
  intros H. unfold place.
  apply N.leb_le in H. rewrite H. reflexivity.
Qed.

Lemma place_out_of_range_witness : place two_ones 16 1 = (two_ones, -1).
Proof. apply place_out_of_range. vm_compute. discriminate. Defined.

(** ** Sliding *)

(** *** The running score only ever receives additions *)

Lemma slide_cell_score rw top hold c :
  exists rw' top' hold' k,
    forall x, in_i32 x ->
      slide_cell (rw, top, hold, x) c = (rw', top', hold', wrap_i32 (x + k)).
Proof.
  assert (keep : forall x, in_i32 x -> x = wrap_i32 (x + 0)).
  { intros x Hx. now rewrite Z.add_0_r, wrap_i32_small. }
  unfold slide_cell. cbv zeta.
  destruct (wrap_i32 (row_get rw c) =? 0).
  - exists rw, top, hold, 0. intros x Hx. now rewrite <- keep.
  - destruct (negb (hold =? 0)).
    + destruct (wrap_i32 (row_get rw c) =? hold).
      * eexists _, _, _, _. intros x Hx. reflexivity.
      * eexists _, _, _, 0. intros x Hx. now rewrite <- keep.
    + eexists _, _, _, 0. intros x Hx. now rewrite <- keep.
Qed.

Lemma slide_cells_score cols : forall rw top hold,
  exists rw' top' hold' k,
    forall x, in_i32 x ->
      fold_left slide_cell cols (rw, top, hold, x) = (rw', top', hold', wrap_i32 (x + k)).
Proof.
  induction cols as [|c cols IH]; intros rw top hold.
  - exists rw, top, hold, 0. intros x Hx. cbn [fold_left].
    rewrite Z.add_0_r, wrap_i32_small; auto.
  - destruct (slide_cell_score rw top hold c) as (rw1 & top1 & hold1 & k1 & H1).
    destruct (IH rw1 top1 hold1) as (rw2 & top2 & hold2 & k2 & H2).
    exists rw2, top2, hold2, (k1 + k2). intros x Hx.
    cbn [fold_left]. rewrite (H1 x Hx), (H2 _ (wrap_i32_range _)).
    rewrite wrap_i32_add_l. do 2 f_equal. lia.
Qed.

Lemma in_i32_0 : in_i32 0.
Proof. unfold in_i32. lia. Qed.

Lemma slide_row_shift rw x :
  in_i32 x ->
  slide_row rw x = (fst (slide_row rw 0), wrap_i32 (x + snd (slide_row rw 0))).
Proof.
  intros Hx. unfold slide_row.
  destruct (slide_cells_score (seq 0 4) rw 0%nat 0) as (rw' & top' & hold' & k & H).
  rewrite (H x Hx), (H 0 in_i32_0). cbn [fst snd].
  rewrite wrap_i32_add_r. reflexivity.
Qed.

(** *** A row never gains a non-empty cell

    Whatever the cells hold: a cell is only written at [top] after a
    non-empty cell further right has been taken out of the row. *)

Lemma consumed_nonzero c : (wrap_i32 c =? 0) = false -> Z.b2z (nonzero c) = 1.
Proof.
  intros H. unfold nonzero. destruct (Z.eqb_spec c 0) as [->|]; [|reflexivity].
  discriminate.
Qed.

Lemma b2z_range (x : bool) : 0 <= Z.b2z x <= 1.
Proof. destruct x; cbn; lia. Qed.

Ltac bound_b2z :=
  repeat match goal with
  | |- context [Z.b2z ?x] =>
      lazymatch goal with
      | _ : 0 <= Z.b2z x <= 1 |- _ => fail
      | _ => pose proof (b2z_range x)
      end
  end.

Ltac slide_branches :=
  repeat (match goal with
          | |- context [if ?x =? ?y then _ else _] => destruct (x =? y) eqn:?
          | |- context [if negb ?x then _ else _] => destruct x eqn:?
          end; cbv [row_set row_get c0 c1 c2 c3 negb fst snd]).

Lemma slide_row_nonzero rw s : nonzero_row (fst (slide_row rw s)) <= nonzero_row rw.
Proof.
  destruct rw as [a b c d].
  cbv [slide_row fold_left seq slide_cell row_get c0 c1 c2 c3].
  destruct (wrap_i32 a =? 0) eqn:Ea;
  destruct (wrap_i32 b =? 0) eqn:Eb;
  destruct (wrap_i32 c =? 0) eqn:Ec;
  destruct (wrap_i32 d =? 0) eqn:Ed;
  try apply consumed_nonzero in Ea; try apply consumed_nonzero in Eb;
  try apply consumed_nonzero in Ec; try apply consumed_nonzero in Ed;
  cbv [row_set row_get c0 c1 c2 c3 negb];
  slide_branches;
  cbv [nonzero_row fst c0 c1 c2 c3];
  change (Z.b2z (nonzero 0)) with 0; bound_b2z; lia.
Qed.

Lemma slide_left_pass_nonzero b :
  nonzero_cells (fst (slide_left_pass b)) <= nonzero_cells b.
Proof.
  destruct b as [[ra rb rc rd] w].
  unfold slide_left_pass.
  cbv [fold_left seq grid_row grid_set_row tile attr r0 r1 r2 r3].
  pose proof (slide_row_nonzero ra 0) as Ha.
  destruct (slide_row ra 0) as [ra' sa]. cbn [fst] in Ha.
  pose proof (slide_row_nonzero rb sa) as Hb.
  destruct (slide_row rb sa) as [rb' sb]. cbn [fst] in Hb.
  pose proof (slide_row_nonzero rc sb) as Hc.
  destruct (slide_row rc sb) as [rc' sc]. cbn [fst] in Hc.
  pose proof (slide_row_nonzero rd sc) as Hd.
  destruct (slide_row rd sc) as [rd' sd]. cbn [fst] in Hd.
  rewrite !nonzero_cells_rows. cbn [fst tile r0 r1 r2 r3]. lia.
Qed.

Lemma slide_left_nonzero b : nonzero_cells (fst (slide_left b)) <= nonzero_cells b.
Proof.
  pose proof (slide_left_pass_nonzero b) as H. unfold slide_left.
  destruct (slide_left_pass b). exact H.
Qed.

(** *** A row of valid ranks is compacted as the specification says

    The loop is followed column by column, branching on each test it makes;
    on ranks [0..15] no conversion or addition wraps. *)

Lemma rank_wraps c :
  rank_ok c ->
  wrap_i32 c = c /\ wrap_u32 c = c
  /\ wrap_i32 (c + 1) = c + 1 /\ wrap_u32 (c + 1) = c + 1
  /\ shl1 (c + 1) = 2 ^ (c + 1) /\ 2 <= 2 ^ (c + 1) <= 2 ^ 16.
Proof.
  intros [H0 H15].
  assert (Hp : 2 ^ 1 <= 2 ^ (c + 1) <= 2 ^ 16)
    by (split; apply Z.pow_le_mono_r; lia).
  change (2 ^ 1) with 2 in Hp.
  repeat split; try lia.
  - apply wrap_i32_small. unfold in_i32. lia.
  - unfold wrap_u32. apply Z.mod_small. lia.
  - apply wrap_i32_small. unfold in_i32. lia.
  - unfold wrap_u32. apply Z.mod_small. lia.
  - unfold shl1. rewrite Z.shiftl_1_l. apply wrap_i32_small. unfold in_i32. lia.
Qed.

Lemma slide_cell_tuple rw top hold score col :
  slide_cell (rw, top, hold, score) col =
  if wrap_i32 (row_get rw col) =? 0 then (rw, top, hold, score)
  else if negb (hold =? 0) then
    if wrap_i32 (row_get rw col) =? hold then
      (row_set (row_set rw col 0) top
         (wrap_u32 (wrap_i32 (wrap_i32 (row_get rw col) + 1))),
       S top, 0,
       wrap_i32 (score + shl1 (wrap_i32 (wrap_i32 (row_get rw col) + 1))))
    else (row_set (row_set rw col 0) top (wrap_u32 hold), S top,
          wrap_i32 (row_get rw col), score)
  else (row_set rw col 0, top, wrap_i32 (row_get rw col), score).
Proof. reflexivity. Qed.

Ltac step_cell := rewrite slide_cell_tuple; cbv [row_get row_set c0 c1 c2 c3].

Ltac known_tests :=
  repeat match goal with
  | H : (?x =? ?y) = _ |- context [?x =? ?y] => rewrite H
  | |- context [?x =? ?x] => rewrite (Z.eqb_refl x)
  end.

Ltac split_test :=
  match goal with
  | |- context [?x =? ?y] =>
      let E := fresh "E" in
      destruct (x =? y) eqn:E;
      [apply Z.eqb_eq in E; try subst x; try subst y|]
  end.

Ltac settle_tests :=
  repeat first
    [ progress known_tests
    | progress change (0 =? 0) with true
    | progress cbn [negb compact_merge nth fst snd] ].

Ltac slide_step unwrap :=
  first [ progress unwrap | progress settle_tests | step_cell | split_test ].

(** On a row of valid ranks the loop of [slide_left] computes the left
    compaction with merging, and its score is small. *)
Lemma slide_row_ok rw :
  row_ok rw ->
  slide_row rw 0 = merge_row_left rw
  /\ 0 <= snd (merge_row_left rw) <= 2 ^ 17.
Proof.
  destruct rw as [a b c d]. intros (Ha & Hb & Hc & Hd). cbn [c0 c1 c2 c3] in *.
  destruct (rank_wraps a Ha) as (Wa & Ua & Wa1 & Ua1 & Sa & Pa).
  destruct (rank_wraps b Hb) as (Wb & Ub & Wb1 & Ub1 & Sb & Pb).
  destruct (rank_wraps c Hc) as (Wc & Uc & Wc1 & Uc1 & Sc & Pc).
  destruct (rank_wraps d Hd) as (Wd & Ud & Wd1 & Ud1 & Sd & Pd).
  clear Ha Hb Hc Hd.
  unfold slide_row, merge_row_left. cbn [fold_left seq c0 c1 c2 c3].
  do 40 try slide_step ltac:(rewrite ?Wa, ?Wb, ?Wc, ?Wd).
  all: rewrite ?Wa1, ?Wb1, ?Wc1, ?Wd1, ?Ua, ?Ub, ?Uc, ?Ud, ?Ua1, ?Ub1, ?Uc1, ?Ud1,
         ?Sa, ?Sb, ?Sc, ?Sd, ?Z.add_0_l, ?Z.add_0_r.
  all: repeat match goal with
       | |- context [wrap_i32 ?x] => rewrite (wrap_i32_small x) by (unfold in_i32; lia)
       end.
  all: split; [reflexivity | lia].
Qed.

(** *** The whole board *)

Lemma slide_left_pass_ok b : board_ok b -> slide_left_pass b = merge_rows_left b.
Proof.
  destruct b as [[ra rb rc rd] w]. intros (Ha & Hb & Hc & Hd).
  cbn [tile r0 r1 r2 r3] in *.
  destruct (slide_row_ok ra Ha) as (Ea & Ba).
  destruct (slide_row_ok rb Hb) as (Eb & Bb).
  destruct (slide_row_ok rc Hc) as (Ec & Bc).
  destruct (slide_row_ok rd Hd) as (Ed & Bd).
  unfold slide_left_pass, merge_rows_left.
  cbv [fold_left seq grid_row grid_set_row tile attr r0 r1 r2 r3].
  rewrite Ea. destruct (merge_row_left ra) as [ra' sa]. cbn [fst snd] in *.
  rewrite slide_row_shift, Eb by (unfold in_i32; lia).
  destruct (merge_row_left rb) as [rb' sb]. cbn [fst snd] in *.
  rewrite (wrap_i32_small (sa + sb)) by (unfold in_i32; lia).
  rewrite slide_row_shift, Ec by (unfold in_i32; lia).
  destruct (merge_row_left rc) as [rc' sc]. cbn [fst snd] in *.
  rewrite (wrap_i32_small (sa + sb + sc)) by (unfold in_i32; lia).
  rewrite slide_row_shift, Ed by (unfold in_i32; lia).
  destruct (merge_row_left rd) as [rd' sd]. cbn [fst snd] in *.
  rewrite (wrap_i32_small (sa + sb + sc + sd)) by (unfold in_i32; lia).
  reflexivity.
Qed.

Lemma merge_rows_left_attr b : attr (fst (merge_rows_left b)) = attr b.
Proof. reflexivity. Qed.

Lemma merge_rows_left_score b : board_ok b -> 0 <= snd (merge_rows_left b).
Proof.
  destruct b as [[ra rb rc rd] w]. intros (Ha & Hb & Hc & Hd).
  cbn [tile r0 r1 r2 r3] in *.
  destruct (slide_row_ok ra Ha) as (_ & Ba).
  destruct (slide_row_ok rb Hb) as (_ & Bb).
  destruct (slide_row_ok rc Hc) as (_ & Bc).
  destruct (slide_row_ok rd Hd) as (_ & Bd).
  unfold merge_rows_left. cbn [snd tile r0 r1 r2 r3]. lia.
Qed.

Lemma slide_left_ok b :
  board_ok b ->
  slide_left b =
  (fst (merge_rows_left b),
   if board_neqb (fst (merge_rows_left b)) b then snd (merge_rows_left b) else -1).
Proof.
  intros H. unfold slide_left. rewrite (slide_left_pass_ok b H).
  destruct (merge_rows_left b). reflexivity.
Qed.

(** *** The four directions *)

Lemma land_3_cases (opcode : N) :
  (N.land opcode 3 = 0 \/ N.land opcode 3 = 1 \/ N.land opcode 3 = 2 \/ N.land opcode 3 = 3)%N.
Proof.
  assert (E : N.land opcode 3 = (opcode mod 4)%N).
  { change 3%N with (N.ones 2). apply N.land_ones. }
  rewrite E.
  pose proof (N.mod_lt opcode 4 ltac:(discriminate)) as H. lia.
Qed.

Lemma slide_oriented b opcode :
  slide b opcode =
  (unorient opcode (fst (slide_left (orient opcode b))), snd (slide_left (orient opcode b))).
Proof.
  unfold slide, orient, unorient, slide_up, slide_down, slide_right.
  destruct (land_3_cases opcode) as [-> | [-> | [-> | ->]]].
  - destruct (slide_left (reflect_horizontal (rotate_clockwise b))). reflexivity.
  - destruct (slide_left (reflect_horizontal b)). reflexivity.
  - destruct (slide_left (rotate_clockwise b)). reflexivity.
  - destruct (slide_left b). reflexivity.
Qed.

Lemma unorient_orient opcode b : unorient opcode (orient opcode b) = b.
Proof.
  unfold orient, unorient.
  destruct (land_3_cases opcode) as [-> | [-> | [-> | ->]]].
  - rewrite reflect_horizontal_involutive. apply rotate_counter_clockwise.
  - apply reflect_horizontal_involutive.
  - apply rotate_counter_clockwise.
  - reflexivity.
Qed.

Lemma orient_unorient opcode b : orient opcode (unorient opcode b) = b.
Proof.
  unfold orient, unorient.
  destruct (land_3_cases opcode) as [-> | [-> | [-> | ->]]].
  - rewrite rotate_clockwise_counter. apply reflect_horizontal_involutive.
  - apply reflect_horizontal_involutive.
  - apply rotate_clockwise_counter.
  - reflexivity.
Qed.

Lemma board_ok_orient opcode b : board_ok b -> board_ok (orient opcode b).
Proof.
  intros H. unfold orient, rotate_clockwise.
  destruct (land_3_cases opcode) as [-> | [-> | [-> | ->]]];
    auto using board_ok_reflect_horizontal, board_ok_transpose.
Qed.

Lemma nonzero_cells_orient opcode b : nonzero_cells (orient opcode b) = nonzero_cells b.
Proof.
  unfold orient, rotate_clockwise.
  destruct (land_3_cases opcode) as [-> | [-> | [-> | ->]]];
    rewrite ?nonzero_cells_reflect_horizontal, ?nonzero_cells_transpose; reflexivity.
Qed.

Lemma nonzero_cells_unorient opcode b : nonzero_cells (unorient opcode b) = nonzero_cells b.
Proof.
  unfold unorient, rotate_counterclockwise.
  destruct (land_3_cases opcode) as [-> | [-> | [-> | ->]]];
    rewrite ?nonzero_cells_reflect_vertical, ?nonzero_cells_transpose,
            ?nonzero_cells_reflect_horizontal; reflexivity.
Qed.

Lemma slide_ok b opcode :
  board_ok b ->
  let b' := fst (merge_rows_left (orient opcode b)) in
  slide b opcode =
  (unorient opcode b',
   if board_neqb b' (orient opcode b) then total_merge_score b opcode else -1).
Proof.
  intros H b'. rewrite slide_oriented.
  rewrite (slide_left_ok _ (board_ok_orient opcode b H)). reflexivity.
Qed.

(** *** What the specification says about sliding *)

Lemma board_ok_two_ones : board_ok two_ones.
Proof. unfold board_ok, row_ok, rank_ok. cbn. lia. Qed.

Example slide_left_two_ones :
  slide two_ones 3 = (board_of_rows (Row 2 0 0 0) empty_row empty_row empty_row, 4).
Proof. vm_compute. reflexivity. Qed.

Example slide_left_stuck :
  slide (board_of_rows (Row 1 2 1 2) empty_row empty_row empty_row) 3
  = (board_of_rows (Row 1 2 1 2) empty_row empty_row empty_row, -1).
Proof. vm_compute. reflexivity. Qed.

(** C3. On every board of valid ranks a slide to the left (opcode 3)
    compacts each row on its own, as the left compaction with merging of
    adjacent equal ranks words it: the new row is the compaction of the old
    one, the score is the sum of [2 ^ new rank] over the merges of all rows,
    returned when the board changed.  The row [1,1,0,0] becomes [2,0,0,0]
    and contributes [2 ^ 2 = 4]. *)
Theorem slide_left_compacts (b : board) :
  board_ok b ->
  slide b 3
  = (fst (merge_rows_left b),
     if board_neqb (fst (merge_rows_left b)) b then snd (merge_rows_left b) else -1)
  /\ slide_row (Row 1 1 0 0) 0 = (Row 2 0 0 0, 2 ^ 2).
Proof.
  intros H. split.
  - pose proof (slide_ok b 3 H) as E. cbv zeta in E. exact E.
  - vm_compute. reflexivity.
Qed.

Lemma slide_left_compacts_witness :
  slide two_ones 3
  = (fst (merge_rows_left two_ones),
     if board_neqb (fst (merge_rows_left two_ones)) two_ones
     then snd (merge_rows_left two_ones) else -1)
  /\ slide_row (Row 1 1 0 0) 0 = (Row 2 0 0 0, 2 ^ 2).
Proof.
  apply (slide_left_compacts two_ones).
  unfold board_ok, row_ok, rank_ok. cbn. lia.
Defined.

(** C4. For every board of valid ranks and every opcode, [slide] returns the
    total merge score exactly when the board it leaves differs from the one
    it was given, and when it returns -1 the board is the one it was
    given. *)
Theorem slide_illegal_iff_unchanged (b : board) (opcode : N) :
  board_ok b ->
  (snd (slide b opcode) = total_merge_score b opcode <-> fst (slide b opcode) <> b)
  /\ (snd (slide b opcode) = -1 -> fst (slide b opcode) = b)
  /\ (fst (slide b opcode) = b -> snd (slide b opcode) = -1).
Proof.
  intros H. pose proof (slide_ok b opcode H) as E. cbv zeta in E. rewrite E.
  cbn [fst snd].
  pose proof (merge_rows_left_score _ (board_ok_orient opcode b H)) as Hs.
  fold (total_merge_score b opcode) in Hs.
  set (b' := fst (merge_rows_left (orient opcode b))).
  assert (Hattr : attr b' = attr (orient opcode b)) by apply merge_rows_left_attr.
  pose proof (board_neqb_true b' (orient opcode b) Hattr) as Hneq.
  assert (Hback : unorient opcode b' = b <-> b' = orient opcode b).
  { split; intros Hb.
    - rewrite <- Hb. now rewrite orient_unorient.
    - rewrite Hb. apply unorient_orient. }
  destruct (board_neqb b' (orient opcode b)) eqn:En.
  - assert (Hd : b' <> orient opcode b) by now apply Hneq.
    repeat split; try tauto; intros; try lia.
  - assert (He : b' = orient opcode b) by now apply board_neqb_false.
    repeat split; try tauto; intros; try lia.
Qed.

Lemma slide_illegal_iff_unchanged_witness :
  (snd (slide two_ones 1) = total_merge_score two_ones 1 <-> fst (slide two_ones 1) <> two_ones)
  /\ (snd (slide two_ones 1) = -1 -> fst (slide two_ones 1) = two_ones)
  /\ (fst (slide two_ones 1) = two_ones -> snd (slide two_ones 1) = -1).
Proof.
  apply (slide_illegal_iff_unchanged two_ones 1).
  unfold board_ok, row_ok, rank_ok. cbn. lia.
Defined.

(** C9. On every board a slide, whatever the opcode, leaves at most as many
    non-empty cells as there were, and a successful [place] changes at most
    one cell. *)
Theorem slide_place_cell_counts (b : board) (opcode pos : N) (t : cell) :
  nonzero_cells (fst (slide b opcode)) <= nonzero_cells b
  /\ (snd (place b pos t) = 0 -> changed_cells b (fst (place b pos t)) <= 1).
Proof.
  split.
  - rewrite slide_oriented. cbn [fst]. rewrite nonzero_cells_unorient.
    rewrite <- (nonzero_cells_orient opcode b). apply slide_left_nonzero.
  - unfold place.
    destruct (16 <=? pos)%N eqn:Hpos; cbn [orb].
    + cbn [fst snd]. discriminate.
    + destruct (negb (at_pos b (N.to_nat pos) =? 0)); [cbn [fst snd]; discriminate|].
      destruct (negb (t =? 1) && negb (t =? 2))%bool; [cbn [fst snd]; discriminate|].
      intros _. cbn [fst]. apply changed_cells_set_pos.
      apply N.leb_gt in Hpos. lia.
Qed.

Lemma slide_place_cell_counts_witness :
  nonzero_cells (fst (slide two_ones 3)) <= nonzero_cells two_ones
  /\ changed_cells two_ones (fst (place two_ones 5 2)) <= 1.
Proof.
  split.
  - apply (proj1 (slide_place_cell_counts two_ones 3 5 2)).
  - apply (proj2 (slide_place_cell_counts two_ones 3 5 2)).
    reflexivity.
Defined.

(** ** Danger level *)

Example danger_one_8192 : calculate_danger_level one_8192 = Float32.zero.
Proof. vm_compute. reflexivity. Qed.

Example danger_table :
  map calculate_danger_level
    [ board_of_rows (Row 13 13 0 0) empty_row empty_row empty_row;
      board_of_rows (Row 12 12 12 0) empty_row empty_row empty_row;
      board_of_rows (Row 13 12 0 0) empty_row empty_row empty_row;
      board_of_rows (Row 13 12 12 0) empty_row empty_row empty_row ]
  = [ Float32.zero; Float32.lit_0_4; Float32.lit_0_7; Float32.one ].
Proof. vm_compute. reflexivity. Qed.

(** C7. The danger level is one of 0.0, 0.4, 0.7 and 1.0; two boards with
    the same number of rank-13 cells and the same number of rank-12 cells
    have the same level; and with no rank-12 cell a board with one rank-13
    cell, or with two, has level 0.0. *)
Theorem danger_level_buckets (b b' : board) :
  In (calculate_danger_level b)
     [Float32.zero; Float32.lit_0_4; Float32.lit_0_7; Float32.one]
  /\ (count_tile_value b' 13 = count_tile_value b 13 ->
      count_tile_value b' 12 = count_tile_value b 12 ->
      calculate_danger_level b' = calculate_danger_level b)
  /\ (count_tile_value b 12 = 0 ->
      count_tile_value b 13 = 1 \/ count_tile_value b 13 = 2 ->
      calculate_danger_level b = Float32.zero).
Proof.
  split; [|split].
  - unfold calculate_danger_level.
    destruct ((1 <=? count_tile_value b 13) && (2 <=? count_tile_value b 12));
      [cbn [In]; tauto|].
    destruct ((1 <=? count_tile_value b 13) && (1 <=? count_tile_value b 12));
      [cbn [In]; tauto|].
    destruct (3 <=? count_tile_value b 12); cbn [In]; tauto.
  - intros H13 H12. unfold calculate_danger_level. rewrite H13, H12. reflexivity.
  - intros H12 _. unfold calculate_danger_level. rewrite H12.
    change (2 <=? 0) with false. change (1 <=? 0) with false.
    change (3 <=? 0) with false. rewrite !andb_false_r. reflexivity.
Qed.

Lemma danger_level_buckets_witness :
  calculate_danger_level one_8192 = Float32.zero
  /\ calculate_danger_level (reflect_horizontal one_8192) = calculate_danger_level one_8192.
Proof.
  pose proof (danger_level_buckets one_8192 (reflect_horizontal one_8192)) as (_ & Hsame & Hzero).
  split.
  - apply Hzero; [reflexivity | left; reflexivity].
  - apply Hsame; reflexivity.
Defined.

(** ** Final reward *)

Lemma back_last (earlier : list GameStep) (last_step : GameStep) :
  back (earlier ++ [last_step]) = Some last_step.
Proof. unfold back. rewrite rev_app_distr. reflexivity. Qed.

(** C6. With a non-empty trajectory ending in [last_step], the final reward
    is -50000 for the tag "win"; for the tag "lose" it is 10000 when the
    final state holds exactly one rank-13 tile, 5000 when it holds none and
    its maximum rank is at least 12, and 1000 otherwise; for any other tag
    it is zero. *)
Theorem final_reward_table (ag : strategic_slider) (flag : string)
    (earlier : list GameStep) (last_step : GameStep) :
  current_episode ag = earlier ++ [last_step] ->
  let final_state := next_state last_step in
  let n13 := count_tile_value final_state 13 in
  (flag = "win"%string -> calculate_final_reward ag flag = Float32.of_int (-50000))
  /\ (flag = "lose"%string -> n13 = 1 ->
      calculate_final_reward ag flag = Float32.of_int 10000)
  /\ (flag = "lose"%string -> n13 = 0 -> 12 <= max_tile_value final_state ->
      calculate_final_reward ag flag = Float32.of_int 5000)
  /\ (flag = "lose"%string -> n13 <> 1 -> ~ (n13 = 0 /\ 12 <= max_tile_value final_state) ->
      calculate_final_reward ag flag = Float32.of_int 1000)
  /\ (flag <> "win"%string -> flag <> "lose"%string ->
      calculate_final_reward ag flag = Float32.zero).
Proof.
  intros Hep final_state n13. unfold calculate_final_reward.
  rewrite Hep, back_last. fold final_state. fold n13.
  repeat split.
  - intros ->. reflexivity.
  - intros -> ->. reflexivity.
  - intros -> -> Hmax. cbn [String.eqb Ascii.eqb Bool.eqb andb].
    apply Z.leb_le in Hmax. rewrite Hmax. reflexivity.
  - intros -> H1 H2. cbn [String.eqb Ascii.eqb Bool.eqb andb].
    destruct (n13 =? 1) eqn:E1; [apply Z.eqb_eq in E1; contradiction|].
    destruct (n13 =? 0) eqn:E0; [|reflexivity].
    destruct (12 <=? max_tile_value final_state) eqn:E12; [|reflexivity].
    exfalso. apply H2. split; [now apply Z.eqb_eq | now apply Z.leb_le].
  - intros Hw Hl.
    apply String.eqb_neq in Hw, Hl. rewrite Hw, Hl. reflexivity.
Qed.

Lemma final_reward_table_witness :
  calculate_final_reward lost_agent "win" = Float32.of_int (-50000)
  /\ calculate_final_reward lost_agent "lose" = Float32.of_int 10000
  /\ calculate_final_reward lost_agent "draw" = Float32.zero.
Proof.
  assert (Hep : current_episode lost_agent = [] ++ [lost_step]) by reflexivity.
  split; [|split].
  - apply (proj1 (final_reward_table lost_agent "win" [] lost_step Hep)). reflexivity.
  - pose proof (final_reward_table lost_agent "lose" [] lost_step Hep) as (_ & H & _).
    apply H; reflexivity.
  - pose proof (final_reward_table lost_agent "draw" [] lost_step Hep) as (_ & _ & _ & _ & H).
    apply H; discriminate.
Defined.

(** ** Evaluation over symmetric variants *)

Lemma mirror_horizontal_reflect b : mirror_horizontal b = reflect_horizontal b.
Proof. by_cells b. Qed.

Lemma mirror_vertical_reflect b : mirror_vertical b = reflect_vertical b.
Proof. by_cells b. Qed.

Lemma transpose_board_transpose b : transpose_board b = transpose b.
Proof. by_cells b. Qed.

(** The seven evaluations of [evaluate_isomorphic_patterns] are those on the
    tail of [evaluated_boards]. *)
Lemma evaluate_isomorphic_patterns_boards b pattern weights :
  evaluate_isomorphic_patterns b pattern weights
  = sum_pattern (tl (evaluated_boards b)) pattern weights Float32.zero.
Proof.
  cbv beta zeta delta [evaluate_isomorphic_patterns sum_pattern evaluated_boards tl fold_left].
  reflexivity.
Qed.

Lemma fold_left_pointwise {A B} (f g : A -> B -> A) (l : list B) :
  (forall a x, f a x = g a x) -> forall a, fold_left f l a = fold_left g l a.
Proof.
  intros H. induction l as [|x l IH]; intros a; cbn [fold_left]; auto.
  rewrite H. apply IH.
Qed.

(** [evaluate_board] reads every pattern on the boards of [evaluated_boards],
    and on no other. *)
Lemma evaluate_board_boards ag b :
  evaluate_board ag b = evaluate_over evaluated_boards ag b.
Proof.
  unfold evaluate_board, evaluate_over.
  destruct (net ag) as [|w ws] eqn:En; [reflexivity|].
  apply fold_left_pointwise. intros value i.
  cbv zeta. destruct (nth i (w :: ws) []) as [|x xs]; [reflexivity|].
  rewrite evaluate_isomorphic_patterns_boards. reflexivity.
Qed.

(** In the operations of [board.h]: mirror, mirror, transpose, clockwise
    turn, anti-transpose, half turn, and the vertical mirror once more. *)
Lemma evaluated_boards_symmetries b :
  evaluated_boards b
  = [ b; reflect_horizontal b; reflect_vertical b; transpose b;
      rotate_clockwise b; reverse (transpose b); reverse b; reflect_vertical b ].
Proof. by_cells b. Qed.

Lemma dihedral_boards_lone_tile_distinct : NoDup (dihedral_boards lone_tile).
Proof.
  vm_compute.
  repeat (constructor; [cbn [In]; intuition discriminate|]).
  constructor.
Qed.

(** C1 (the code departs from the specification here).  On [lone_tile] the eight boards
    evaluated are not the eight symmetries of the square: the vertical
    mirror is evaluated twice (third and eighth board) and the
    counter-clockwise quarter turn never; with one weight at the index that
    only this turn reaches, [evaluate_board] gives 0.0 where the sum over
    the eight symmetries gives 1.0. *)
Theorem evaluate_board_misses_a_rotation :
  evaluate_board one_weight_agent lone_tile
  = evaluate_over evaluated_boards one_weight_agent lone_tile
  /\ nth_error (evaluated_boards lone_tile) 7 = nth_error (evaluated_boards lone_tile) 2
  /\ ~ In (rotate_counterclockwise lone_tile) (evaluated_boards lone_tile)
  /\ In (rotate_counterclockwise lone_tile) (dihedral_boards lone_tile)
  /\ evaluate_board one_weight_agent lone_tile = Float32.zero
  /\ evaluate_over dihedral_boards one_weight_agent lone_tile = Float32.one.
Proof.
  split; [|split; [|split; [|split; [|split]]]].
  - apply evaluate_board_boards.
  - vm_compute. reflexivity.
  - vm_compute. intuition discriminate.
  - vm_compute. tauto.
  - vm_compute. reflexivity.
  - vm_compute. reflexivity.
Qed.

(** ** The weight update *)

(** *** Writing one entry of a vector *)

Lemma set_nth_length {A} (i : nat) (l : list A) (x : A) :
  length (set_nth i l x) = length l.
Proof.
  revert i. induction l as [|y l IH]; intros [|i]; cbn [set_nth length]; auto.
Qed.

Lemma nth_set_nth_same {A} (i : nat) (l : list A) (x d : A) :
  (i < length l)%nat -> nth i (set_nth i l x) d = x.
Proof.
  revert i. induction l as [|y l IH]; intros [|i] H; cbn [length] in H;
    cbn [set_nth nth]; try lia; auto.
  apply IH. lia.
Qed.

Lemma nth_set_nth_other {A} (i j : nat) (l : list A) (x d : A) :
  i <> j -> nth j (set_nth i l x) d = nth j l d.
Proof.
  revert i j. induction l as [|y l IH]; intros [|i] [|j] H;
    cbn [set_nth nth]; auto; try congruence.
Qed.

Lemma nth_nonempty_in_range {A} (k : nat) (l : list (list A)) :
  (0 < length (nth k l []))%nat -> (k < length l)%nat.
Proof.
  intros H. destruct (Nat.lt_ge_cases k (length l)) as [Hk|Hk]; auto.
  rewrite nth_overflow in H by exact Hk. cbn in H. lia.
Qed.

Lemma map_length_set_nth {A} (k i : nat) (l : list (list A)) (x : A) :
  map (@length A) (set_nth k l (set_nth i (nth k l []) x)) = map (@length A) l.
Proof.
  revert k. induction l as [|r l IH]; intros [|k]; cbn [set_nth map nth]; auto.
  - now rewrite set_nth_length.
  - now rewrite IH.
Qed.

(** *** The feature index *)

Lemma pattern_index_loop_nonneg b pattern size : forall index multiplier,
  0 <= index -> 0 <= pattern_index_loop b pattern size index multiplier.
Proof.
  induction pattern as [|pos rest IH]; intros index multiplier H;
    cbn [pattern_index_loop]; auto.
  destruct ((0 <=? pos) && (pos <? 16)).
  - match goal with |- context [size <=? ?i] =>
      assert (Hi : 0 <= i) by (apply Z.mod_pos_bound; reflexivity);
      destruct (size <=? i); auto
    end.
  - destruct (size <=? index); auto.
Qed.

Lemma pattern_index_nonneg b pattern size : 0 <= pattern_index b pattern size.
Proof. apply pattern_index_loop_nonneg. lia. Qed.

(** *** One elementary update *)

Lemma apply_variant_out_of_range ag k x err :
  feature_in_range ag k x = false -> apply_variant ag (k, x, err) = ag.
Proof.
  unfold feature_in_range, feature_index, apply_variant, update_pattern_weights.
  cbv zeta. intros ->. reflexivity.
Qed.

Lemma apply_variant_in_range ag k x err :
  feature_in_range ag k x = true ->
  let i := Z.to_nat (feature_index ag k x) in
  let ag' := apply_variant ag (k, x, err) in
  trace_at ag' k i = Float32.one
  /\ weight_at ag' k i
     = Float32.add (weight_at ag k i)
         (Float32.mul (Float32.mul (alpha ag) err) (trace_at ag' k i))
  /\ (forall k' i', (k', i') <> (k, i) ->
        trace_at ag' k' i' = trace_at ag k' i' /\ weight_at ag' k' i' = weight_at ag k' i').
Proof.
  intros Hin i ag'.
  assert (Hpos : 0 <= feature_index ag k x) by apply pattern_index_nonneg.
  assert (Hrange := Hin). unfold feature_in_range in Hrange.
  apply andb_true_iff in Hrange. destruct Hrange as [Hw Ht].
  apply Z.ltb_lt in Hw, Ht.
  assert (Hiw : (i < length (nth k (net ag) []))%nat).
  { unfold i. apply Nat2Z.inj_lt. rewrite Z2Nat.id by exact Hpos. exact Hw. }
  assert (Hit : (i < length (nth k (eligibility_traces ag) []))%nat).
  { unfold i. apply Nat2Z.inj_lt. rewrite Z2Nat.id by exact Hpos. exact Ht. }
  assert (Hkw : (k < length (net ag))%nat).
  { apply nth_nonempty_in_range. eapply Nat.le_lt_trans; [apply Nat.le_0_l | exact Hiw]. }
  assert (Hkt : (k < length (eligibility_traces ag))%nat).
  { apply nth_nonempty_in_range. eapply Nat.le_lt_trans; [apply Nat.le_0_l | exact Hit]. }
  assert (Eag : ag' =
    {| net := set_nth k (net ag)
                (set_nth i (nth k (net ag) [])
                   (Float32.add (nth i (nth k (net ag) []) Float32.zero)
                      (Float32.mul (Float32.mul (alpha ag) err)
                         (nth i (set_nth i (nth k (eligibility_traces ag) []) Float32.one)
                            Float32.zero))));
       alpha := alpha ag; lambda := lambda ag;
       eligibility_traces :=
         set_nth k (eligibility_traces ag)
           (set_nth i (nth k (eligibility_traces ag) []) Float32.one);
       enable_learning := enable_learning ag;
       current_episode := current_episode ag |}).
  { unfold ag', apply_variant, update_pattern_weights. cbv zeta.
    unfold feature_in_range, feature_index in Hin. rewrite Hin. reflexivity. }
  assert (Etr : trace_at ag' k i = Float32.one).
  { rewrite Eag. unfold trace_at. cbn [eligibility_traces].
    rewrite nth_set_nth_same by exact Hkt. now apply nth_set_nth_same. }
  split; [exact Etr|]. split.
  - rewrite Etr. rewrite Eag. unfold weight_at. cbn [net].
    rewrite nth_set_nth_same by exact Hkw.
    rewrite nth_set_nth_same by exact Hiw.
    rewrite nth_set_nth_same by exact Hit. reflexivity.
  - intros k' i' Hne. rewrite Eag. unfold trace_at, weight_at.
    cbn [net eligibility_traces].
    destruct (Nat.eq_dec k k') as [<-|Hk].
    + assert (Hi : i <> i') by congruence.
      rewrite !nth_set_nth_same by assumption.
      rewrite !nth_set_nth_other by assumption. auto.
    + rewrite !nth_set_nth_other by assumption. auto.
Qed.

(** *** Frame: what the update leaves alone *)

Lemma apply_variant_frame ag v :
  alpha (apply_variant ag v) = alpha ag
  /\ lambda (apply_variant ag v) = lambda ag
  /\ current_episode (apply_variant ag v) = current_episode ag
  /\ map (@length _) (net (apply_variant ag v)) = map (@length _) (net ag).
Proof.
  destruct v as [[k x] err]. unfold apply_variant, update_pattern_weights. cbv zeta.
  match goal with |- context [if ?c then _ else _] => destruct c end;
    cbn [alpha lambda current_episode net]; auto.
  repeat split. apply map_length_set_nth.
Qed.

Lemma apply_variants_frame vs : forall ag,
  alpha (fold_left apply_variant vs ag) = alpha ag
  /\ lambda (fold_left apply_variant vs ag) = lambda ag
  /\ current_episode (fold_left apply_variant vs ag) = current_episode ag
  /\ map (@length _) (net (fold_left apply_variant vs ag)) = map (@length _) (net ag).
Proof.
  induction vs as [|v vs IH]; intros ag; cbn [fold_left]; auto.
  destruct (IH (apply_variant ag v)) as (Ha & Hl & He & Hn).
  destruct (apply_variant_frame ag v) as (Ha' & Hl' & He' & Hn').
  repeat split; congruence.
Qed.

(** *** The whole update as a list of elementary updates *)

Lemma table_length_shape (ag ag0 : strategic_slider) (k : nat) :
  map (@length _) (net ag) = map (@length _) (net ag0) ->
  length (nth k (net ag) []) = length (nth k (net ag0) []).
Proof.
  intros H.
  change (length (nth k (net ag) [])) with (length (nth k (net ag) (@nil Float32.t))).
  rewrite <- !(map_nth (@length Float32.t)). now rewrite H.
Qed.

Lemma update_tables_schedule (st : board) (err : Float32.t) (ag0 : strategic_slider)
    (ks : list nat) : forall ag,
  map (@length _) (net ag) = map (@length _) (net ag0) ->
  fold_left
    (fun ag i =>
       match nth i (net ag) [] with
       | [] => ag
       | _ =>
           let pattern := nth i patterns [] in
           let ag := update_pattern_weights ag st pattern i err in
           update_isomorphic_pattern_weights ag st pattern i err
       end) ks ag
  = fold_left apply_variant
      (flat_map
         (fun k =>
            match nth k (net ag0) [] with
            | [] => []
            | _ => [ (k, st, err);
                     (k, mirror_horizontal st, Float32.mul err Float32.lit_0_125);
                     (k, transpose_board st, Float32.mul err Float32.lit_0_125) ]
            end) ks) ag.
Proof.
  induction ks as [|k ks IH]; intros ag Hshape; cbn [fold_left flat_map]; auto.
  rewrite fold_left_app.
  pose proof (table_length_shape ag ag0 k Hshape) as Hlen.
  destruct (nth k (net ag) []) as [|w ws] eqn:Ek;
    destruct (nth k (net ag0) []) as [|w0 ws0] eqn:Ek0; cbn [length] in Hlen; try lia.
  - cbn [fold_left]. now apply IH.
  - cbn [fold_left]. apply IH.
    pose proof (apply_variants_frame
      [ (k, st, err);
        (k, mirror_horizontal st, Float32.mul err Float32.lit_0_125);
        (k, transpose_board st, Float32.mul err Float32.lit_0_125) ] ag) as (_ & _ & _ & Hn).
    rewrite <- Hshape. exact Hn.
Qed.

Lemma update_weights_schedule ag st err :
  update_weights_with_td_error ag st err
  = fold_left apply_variant (update_schedule ag st err) ag.
Proof.
  unfold update_weights_with_td_error, update_schedule.
  destruct (net ag) as [|w ws] eqn:En; [reflexivity|].
  destruct (eligibility_traces ag) as [|t ts] eqn:Et; [reflexivity|].
  change (length patterns) with 4%nat.
  rewrite <- En. now apply update_tables_schedule.
Qed.

Lemma update_weights_frame ag st err :
  alpha (update_weights_with_td_error ag st err) = alpha ag
  /\ lambda (update_weights_with_td_error ag st err) = lambda ag
  /\ current_episode (update_weights_with_td_error ag st err) = current_episode ag.
Proof.
  rewrite update_weights_schedule.
  destruct (apply_variants_frame (update_schedule ag st err) ag) as (Ha & Hl & He & _).
  auto.
Qed.

Example small_tables_skip :
  feature_index small_agent 0 sixteens = 1092.
Proof. vm_compute. reflexivity. Qed.

(** *** Tables of full size never cut the index off *)

Lemma at_pos_ok b i : board_ok b -> (i < 16)%nat -> rank_ok (at_pos b i).
Proof.
  intros H Hi. board_cells b. revert H. board_eval. intros H.
  do 16 (destruct i as [|i]; [tauto|]). lia.
Qed.

Lemma wrap_u64_small z : 0 <= z < 2 ^ 64 -> wrap_u64 z = z.
Proof. intros H. unfold wrap_u64. now apply Z.mod_small. Qed.

Lemma pattern_index_loop_bound b size pattern :
  board_ok b ->
  Forall (fun pos => 0 <= pos < 16) pattern ->
  forall index multiplier,
    0 <= index < multiplier ->
    multiplier * 16 ^ Z.of_nat (length pattern) < 2 ^ 64 ->
    pattern_index_loop b pattern size index multiplier
    < multiplier * 16 ^ Z.of_nat (length pattern).
Proof.
  intros Hb Hpat. induction Hpat as [|pos rest Hpos Hrest IH];
    intros index multiplier Hi Hm; cbn [pattern_index_loop length] in Hm |- *.
  - cbn. lia.
  - rewrite Nat2Z.inj_succ, Z.pow_succ_r in Hm |- * by lia.
    assert (Hp : 1 <= 16 ^ Z.of_nat (length rest))
      by (apply Z.pow_le_mono_r with (b := 0); lia).
    assert (Hg : (0 <=? pos) && (pos <? 16) = true).
    { apply andb_true_iff. split; [apply Z.leb_le | apply Z.ltb_lt]; lia. }
    rewrite Hg.
    assert (Hc : rank_ok (at_pos b (Z.to_nat pos))) by (apply at_pos_ok; auto; lia).
    unfold rank_ok in Hc.
    generalize dependent (at_pos b (Z.to_nat pos)). unfold cell. intros c Hc.
    rewrite (wrap_i32_small c) by (unfold in_i32; lia).
    rewrite Z.min_l by lia.
    assert (Hcm : 0 <= c * multiplier <= 15 * multiplier) by nia.
    assert (H16 : 16 * multiplier < 2 ^ 64) by nia.
    rewrite (wrap_u64_small c) by lia.
    rewrite (wrap_u64_small (c * multiplier)) by lia.
    rewrite (wrap_u64_small (index + c * multiplier)) by lia.
    rewrite (wrap_u64_small (multiplier * 16)) by lia.
    destruct (size <=? index + c * multiplier).
    + nia.
    + specialize (IH (index + c * multiplier) (multiplier * 16)).
      assert (multiplier * 16 * 16 ^ Z.of_nat (length rest)
              = multiplier * (16 * 16 ^ Z.of_nat (length rest))) by ring.
      lia.
Qed.

Lemma patterns_positions k :
  Forall (fun pos => 0 <= pos < 16) (nth k patterns []) /\ (length (nth k patterns []) <= 4)%nat.
Proof.
  do 4 (destruct k as [|k];
    [split; [repeat constructor; lia | cbn; lia]|]).
  destruct k; split; cbn; auto; lia.
Qed.

(** On a board of valid ranks every feature index is below [16 ^ 4]: with
    tables and trace rows of 65536 entries, as the training scripts create
    them, every elementary update of the schedule is in range. *)
Lemma full_tables_in_range ag k x :
  board_ok x ->
  65536 <= Z.of_nat (length (nth k (net ag) [])) ->
  65536 <= Z.of_nat (length (nth k (eligibility_traces ag) [])) ->
  feature_in_range ag k x = true.
Proof.
  intros Hx Hw Ht.
  destruct (patterns_positions k) as [Hpos Hlen].
  assert (Hp : 16 ^ Z.of_nat (length (nth k patterns [])) <= 16 ^ 4)
    by (apply Z.pow_le_mono_r; lia).
  change (16 ^ 4) with 65536 in Hp.
  assert (H : feature_index ag k x < 65536).
  { unfold feature_index, pattern_index.
    pose proof (pattern_index_loop_bound x
                  (Z.of_nat (length (nth k (net ag) []))) (nth k patterns [])
                  Hx Hpos 0 1 ltac:(lia)) as Hb.
    rewrite Z.mul_1_l in Hb.
    assert (Hlt : 16 ^ Z.of_nat (length (nth k patterns [])) < 2 ^ 64).
    { eapply Z.le_lt_trans; [exact Hp|]. reflexivity. }
    specialize (Hb Hlt). lia. }
  unfold feature_in_range. apply andb_true_iff.
  split; apply Z.ltb_lt; eapply Z.lt_le_trans; eauto.
Qed.

(** C5, as the code has it.  One call of the update is the list of
    elementary updates of [update_schedule], applied in order: for each of
    the first [min 4 (number of tables)] tables that is not empty, the state
    with the error itself, then its horizontal mirror and its transpose with
    the error times 0.125, and nothing else.  An elementary update whose
    feature index lies below the table and trace-row lengths sets the trace
    at that index to 1.0, whatever it was, and adds
    [alpha * error * trace[index]] to the table entry, leaving every other
    entry as it was; one whose index does not lie below them changes
    nothing.  On a state of valid ranks, a table and a trace row of at least
    65536 entries have the state, its horizontal mirror and its transpose in
    range. *)
Theorem td_update_variants (ag : strategic_slider) (st : board) (err : Float32.t) :
  update_weights_with_td_error ag st err
  = fold_left apply_variant (update_schedule ag st err) ag
  /\ (forall a k x e,
        feature_in_range a k x = true ->
        let i := Z.to_nat (feature_index a k x) in
        let a' := apply_variant a (k, x, e) in
        trace_at a' k i = Float32.one
        /\ weight_at a' k i
           = Float32.add (weight_at a k i)
               (Float32.mul (Float32.mul (alpha a) e) (trace_at a' k i))
        /\ (forall k' i', (k', i') <> (k, i) ->
              trace_at a' k' i' = trace_at a k' i'
              /\ weight_at a' k' i' = weight_at a k' i'))
  /\ (forall a k x e, feature_in_range a k x = false -> apply_variant a (k, x, e) = a)
  /\ (forall a k,
        board_ok st ->
        65536 <= Z.of_nat (length (nth k (net a) [])) ->
        65536 <= Z.of_nat (length (nth k (eligibility_traces a) [])) ->
        feature_in_range a k st = true
        /\ feature_in_range a k (mirror_horizontal st) = true
        /\ feature_in_range a k (transpose_board st) = true).
Proof.
  split; [apply update_weights_schedule|]. split; [|split].
  - intros a k x e H. now apply apply_variant_in_range.
  - intros a k x e H. now apply apply_variant_out_of_range.
  - intros a k Hst Hw Ht.
    rewrite mirror_horizontal_reflect, transpose_board_transpose.
    repeat split; apply full_tables_in_range;
      auto using board_ok_reflect_horizontal, board_ok_transpose.
Qed.

Lemma td_update_variants_witness :
  trace_at (apply_variant two_step_agent (0%nat, state step_b, Float32.one)) 0 2 = Float32.one
  /\ apply_variant two_step_agent (0%nat, mirror_horizontal (state step_b), Float32.one)
     = two_step_agent
  /\ feature_in_range full_agent 3 (transpose_board (state step_b)) = true.
Proof.
  pose proof (td_update_variants two_step_agent (state step_b) Float32.one)
    as (_ & Hin & Hout & Hfull).
  split; [|split].
  - apply (Hin two_step_agent 0%nat (state step_b) Float32.one). reflexivity.
  - apply Hout. reflexivity.
  - apply (Hfull full_agent 3%nat).
    + unfold board_ok, row_ok, rank_ok. cbn. lia.
    + apply Z.leb_le. vm_compute. reflexivity.
    + apply Z.leb_le. vm_compute. reflexivity.
Defined.

(** C5 as stated fails on short tables.  With four tables of 1000 entries
    and every quadrant's feature index cut off at 1092, the update sets no
    trace to 1.0 and increments no entry: the agent is left as it was. *)
Lemma td_update_skips_short_tables :
  feature_index small_agent 0 sixteens = 1092
  /\ update_weights_with_td_error small_agent sixteens Float32.one = small_agent
  /\ ~ In Float32.one
         (concat (eligibility_traces
                    (update_weights_with_td_error small_agent sixteens Float32.one))).
Proof.
  assert (E : update_weights_with_td_error small_agent sixteens Float32.one = small_agent)
    by (vm_compute; reflexivity).
  split; [vm_compute; reflexivity|]. split; [exact E|].
  rewrite E. unfold small_agent. cbn [eligibility_traces].
  intros H. apply in_concat in H. destruct H as (r & Hr & Hone).
  apply repeat_spec in Hr. subst r.
  apply repeat_spec in Hone. discriminate.
Qed.

(** ** The final update of an episode *)

Section FinalUpdateFacts.

Variable pow : Float64.t -> nat -> Float64.t.

Lemma carried_errors_length lam later_first : forall carried,
  length (carried_errors lam later_first carried) = length later_first.
Proof.
  induction later_first as [|step earlier IH]; intros carried;
    cbn [carried_errors length]; auto.
Qed.

Lemma applied_errors_states lam later_first : forall errors dist,
  length errors = length later_first ->
  map fst (applied_errors pow lam later_first errors dist) = map state later_first.
Proof.
  induction later_first as [|step earlier IH]; intros [|err rest] dist H;
    cbn [length] in H; try discriminate; cbn [applied_errors map fst]; auto.
  f_equal. apply IH. lia.
Qed.

Lemma final_td_loop_schedule later_first : forall dist td_error ag,
  final_td_loop pow later_first dist td_error ag
  = fold_left apply_error
      (applied_errors pow (lambda ag) later_first
         (carried_errors (lambda ag) later_first td_error) dist) ag.
Proof.
  induction later_first as [|step earlier IH]; intros dist td_error ag;
    cbn [final_td_loop carried_errors applied_errors fold_left]; auto.
  cbv zeta. rewrite IH.
  destruct (update_weights_frame ag (state step) (discount pow (lambda ag) td_error dist))
    as (_ & Hl & _).
  unfold apply_error at 2. cbn [fst snd]. rewrite Hl.
  destruct earlier as [|next earlier]; reflexivity.
Qed.

End FinalUpdateFacts.

(** C2, as the code has it.  With learning enabled and a trajectory ending
    in [last_step], closing the episode applies the update once per step,
    from the last step back to the first; the error applied at distance
    [dist] from the end is the carried error term times [lambda ^ dist],
    where the carried term starts at [final_reward - last.value_estimate]
    and each earlier step receives [step.reward + lambda * carried] computed
    at the step after it. *)
Theorem final_update_carries_error (pow : Float64.t -> nat -> Float64.t)
    (ag : strategic_slider) (flag : string)
    (earlier : list GameStep) (last_step : GameStep) :
  enable_learning ag = true ->
  current_episode ag = earlier ++ [last_step] ->
  let first_error := Float32.sub (calculate_final_reward ag flag) (evaluation last_step) in
  close_episode pow ag flag
  = fold_left apply_error (final_td_schedule pow ag first_error) ag
  /\ map fst (final_td_schedule pow ag first_error) = map state (rev (current_episode ag))
  /\ hd_error (final_td_schedule pow ag first_error)
     = Some (state last_step, discount pow (lambda ag) first_error 0).
Proof.
  intros Hlearn Hep first_error. split; [|split].
  - unfold close_episode, perform_final_td_update.
    rewrite Hlearn, Hep, back_last.
    rewrite length_app. cbn [length]. rewrite Nat.add_1_r. cbn [Nat.eqb negb andb].
    rewrite <- Hep. fold first_error. apply final_td_loop_schedule.
  - unfold final_td_schedule. apply applied_errors_states.
    apply carried_errors_length.
  - unfold final_td_schedule. rewrite Hep, rev_app_distr. reflexivity.
Qed.

Lemma final_update_carries_error_witness :
  close_episode Float64.pow_iter two_step_agent "lose"
  = fold_left apply_error
      (final_td_schedule Float64.pow_iter two_step_agent
         (Float32.sub (calculate_final_reward two_step_agent "lose") (evaluation step_b)))
      two_step_agent.
Proof.
  apply (proj1 (final_update_carries_error Float64.pow_iter two_step_agent "lose"
                  [step_a] step_b eq_refl eq_refl)).
Defined.

Example two_step_applied_errors :
  map snd (final_td_schedule Float64.pow_iter two_step_agent (Float32.of_int 1000))
  = [Float32.of_int 1000; Float32.of_int 254].
Proof. vm_compute. reflexivity. Qed.

Example two_step_uniform_errors :
  map snd (uniform_td_schedule Float64.pow_iter two_step_agent (Float32.of_int 1000))
  = [Float32.of_int 1000; Float32.of_int 500].
Proof. vm_compute. reflexivity. Qed.

(** C2 as stated fails on a two-step episode.  With lambda 0.5, final
    reward 1000 and a last step of reward 8, the first step receives
    [(8 + 0.5 * 1000) * 0.5 = 254], not [1000 * 0.5 = 500]: the weight of its
    feature ends at 285.75 where the uniform formula would leave 562.5. *)
Lemma final_update_not_uniform :
  let first_error :=
    Float32.sub (calculate_final_reward two_step_agent "lose") (evaluation step_b) in
  let closed := close_episode Float64.pow_iter two_step_agent "lose" in
  let uniform :=
    fold_left apply_error
      (uniform_td_schedule Float64.pow_iter two_step_agent first_error) two_step_agent in
  closed <> uniform
  /\ weight_at closed 0 1 = Float32.div (Float32.of_int 1143) (Float32.of_int 4)
  /\ weight_at uniform 0 1 = Float32.div (Float32.of_int 1125) (Float32.of_int 2).
Proof.
  cbv zeta. split; [|split].
  - intros H. apply (f_equal (fun a => weight_at a 0 1)) in H.
    vm_compute in H. discriminate.
  - vm_compute. reflexivity.
  - vm_compute. reflexivity.
Qed.

(** * Further properties of the code *)

(** ** Quarter turns *)

Lemma rotate_case (n : Z) : Z.rem (Z.rem n 4 + 4) 4 = n mod 4.
Proof. Z.to_euclidean_division_equations. lia. Qed.

Lemma mod_4_cases (n : Z) : n mod 4 = 0 \/ n mod 4 = 1 \/ n mod 4 = 2 \/ n mod 4 = 3.
Proof. pose proof (Z.mod_pos_bound n 4 ltac:(lia)). lia. Qed.

Lemma rotate_quarter_turns b n : rotate b n = quarter_turns (Z.to_nat (n mod 4)) b.
Proof.
  unfold rotate. rewrite rotate_case.
  destruct (mod_4_cases n) as [-> | [-> | [-> | ->]]];
    first [reflexivity | by_cells b].
Qed.

Lemma quarter_turns_add m n b :
  quarter_turns m (quarter_turns n b) = quarter_turns (m + n) b.
Proof. induction m as [|m IH]; cbn [quarter_turns Nat.add]; congruence. Qed.

Lemma quarter_turns_4 b : quarter_turns 4 b = b.
Proof. by_cells b. Qed.

Lemma quarter_turns_mod n b : quarter_turns n b = quarter_turns (n mod 4) b.
Proof.
  rewrite (Nat.div_mod_eq n 4) at 1.
  generalize (n / 4)%nat as q. generalize (n mod 4)%nat as r. intros r q.
  induction q as [|q IH].
  - reflexivity.
  - replace (4 * S q + r)%nat with (4 + (4 * q + r))%nat by lia.
    rewrite <- quarter_turns_add, quarter_turns_4. exact IH.
Qed.

(** X1. [rotate] by [m] and then by [n] quarter turns is [rotate] by
    [m + n]; any multiple of four turns changes nothing and four more turns
    change nothing more; one turn is [rotate_clockwise], minus one is
    [rotate_counterclockwise] and two are [reverse].  Negative counts are
    handled by the double remainder of the source. *)
Theorem rotate_composes (b : board) (m n : Z) :
  rotate (rotate b m) n = rotate b (m + n)
  /\ rotate b (4 * n) = b
  /\ rotate b (n + 4) = rotate b n
  /\ rotate b 1 = rotate_clockwise b
  /\ rotate b (- 1) = rotate_counterclockwise b
  /\ rotate b 2 = reverse b.
Proof.
  rewrite !rotate_quarter_turns.
  split; [|split; [|split; [|split; [|split]]]].
  - rewrite quarter_turns_add, quarter_turns_mod.
    f_equal.
    pose proof (Z.mod_pos_bound m 4 ltac:(lia)).
    pose proof (Z.mod_pos_bound n 4 ltac:(lia)).
    rewrite Z.add_mod by lia.
    rewrite <- (Nat2Z.id ((Z.to_nat (n mod 4) + Z.to_nat (m mod 4)) mod 4)).
    f_equal. rewrite Nat2Z.inj_mod, Nat2Z.inj_add, !Z2Nat.id by lia.
    f_equal. lia.
  - replace (4 * n) with (n * 4) by lia. rewrite Z.mod_mul by lia. reflexivity.
  - replace (n + 4) with (n + 1 * 4) by lia. rewrite Z.mod_add by lia. reflexivity.
  - reflexivity.
  - by_cells b.
  - by_cells b.
Qed.

(** X2. [reverse] is two clockwise quarter turns and undoes itself;
    [rotate_counterclockwise] is three clockwise turns; [reflect_vertical]
    is the half turn followed by [reflect_horizontal]; [transpose] is a
    clockwise turn followed by [reflect_horizontal]; [reflect_vertical]
    and [transpose] undo themselves. *)
Theorem half_turn_and_mirrors (b : board) :
  reverse b = rotate_clockwise (rotate_clockwise b)
  /\ reverse (reverse b) = b
  /\ rotate_counterclockwise b = rotate_clockwise (rotate_clockwise (rotate_clockwise b))
  /\ reflect_vertical b = reflect_horizontal (reverse b)
  /\ transpose b = reflect_horizontal (rotate_clockwise b)
  /\ reflect_vertical (reflect_vertical b) = b
  /\ transpose (transpose b) = b.
Proof.
  split; [|split; [|split; [|split; [|split; [|split]]]]]; by_cells b.
Qed.

(** ** Placing *)

Lemma at_pos_set_pos_same b i v : (i < 16)%nat -> at_pos (set_pos b i v) i = v.
Proof.
  intros Hi. board_cells b.
  do 16 (destruct i as [|i]; [reflexivity|]). lia.
Qed.

Lemma at_pos_set_pos_other b i j v :
  (i < 16)%nat -> (j < 16)%nat -> i <> j -> at_pos (set_pos b i v) j = at_pos b j.
Proof.
  intros Hi Hj Hne. board_cells b.
  do 16 (destruct i as [|i];
    [do 16 (destruct j as [|j]; [first [reflexivity | congruence]|]); lia|]).
  lia.
Qed.

Lemma nonzero_cells_set_pos b i v :
  (i < 16)%nat -> at_pos b i = 0 -> v <> 0 ->
  nonzero_cells (set_pos b i v) = nonzero_cells b + 1.
Proof.
  intros Hi H0 Hv. unfold nonzero_cells. rewrite !count_pos_sum.
  assert (Ev : Z.b2z (nonzero v) = 1).
  { unfold nonzero. destruct (Z.eqb_spec v 0); [contradiction|reflexivity]. }
  board_cells b.
  do 16 (destruct i as [|i];
    [ revert H0; board_eval; intros ->; rewrite Ev;
      change (Z.b2z (nonzero 0)) with 0; lia | ]).
  lia.
Qed.

Lemma place_result b pos t :
  ((pos < 16)%N /\ at_pos b (N.to_nat pos) = 0 /\ (t = 1 \/ t = 2)
   /\ place b pos t = (set_pos b (N.to_nat pos) t, 0))
  \/ (~ ((pos < 16)%N /\ at_pos b (N.to_nat pos) = 0 /\ (t = 1 \/ t = 2))
      /\ place b pos t = (b, -1)).
Proof.
  unfold place.
  destruct (16 <=? pos)%N eqn:Hpos; cbn [orb].
  { right. apply N.leb_le in Hpos. split; [|reflexivity]. intros (H & _). lia. }
  apply N.leb_gt in Hpos.
  destruct (Z.eqb_spec (at_pos b (N.to_nat pos)) 0) as [Hcell|Hcell]; cbn [negb].
  2: { right. split; [|reflexivity]. intros (_ & H & _). contradiction. }
  destruct (Z.eqb_spec t 1) as [H1|H1]; cbn [negb andb].
  { left. auto. }
  destruct (Z.eqb_spec t 2) as [H2|H2]; cbn [negb].
  { left. auto. }
  right. split; [|reflexivity]. intros (_ & _ & [?|?]); contradiction.
Qed.

(** X3. [place] returns 0 exactly when the position is below 16, the cell
    there is empty and the tile is 1 or 2; otherwise it returns -1 and the
    board is the one given.  An accepted placement writes the tile at the
    position, keeps the attribute word and every other cell, and the board
    has one more tile. *)
Theorem place_accepts_iff (b : board) (pos : N) (t : cell) :
  (snd (place b pos t) = 0
   <-> (pos < 16)%N /\ at_pos b (N.to_nat pos) = 0 /\ (t = 1 \/ t = 2))
  /\ (snd (place b pos t) = 0 \/ place b pos t = (b, -1))
  /\ (snd (place b pos t) = 0 ->
      at_pos (fst (place b pos t)) (N.to_nat pos) = t
      /\ attr (fst (place b pos t)) = attr b
      /\ (forall j, (j < 16)%nat -> j <> N.to_nat pos ->
            at_pos (fst (place b pos t)) j = at_pos b j)
      /\ nonzero_cells (fst (place b pos t)) = nonzero_cells b + 1).
Proof.
  destruct (place_result b pos t) as [(Hpos & Hcell & Ht & ->) | (Hno & ->)];
    cbn [fst snd].
  - split; [tauto|]. split; [left; reflexivity|]. intros _.
    assert (Hi : (N.to_nat pos < 16)%nat) by lia.
    split; [now apply at_pos_set_pos_same|]. split; [reflexivity|]. split.
    + intros j Hj Hne. apply at_pos_set_pos_other; auto.
    + apply nonzero_cells_set_pos; auto. lia.
  - split; [split; [discriminate | tauto]|].
    split; [right; reflexivity | discriminate].
Qed.

Lemma place_accepts_iff_witness :
  at_pos (fst (place two_ones 5 2)) 5 = 2
  /\ nonzero_cells (fst (place two_ones 5 2)) = nonzero_cells two_ones + 1.
Proof.
  pose proof (place_accepts_iff two_ones 5 2) as (_ & _ & H).
  destruct (H eq_refl) as (Hc & _ & _ & Hn). split; [exact Hc | exact Hn].
Defined.

(** ** What a slide keeps *)

Lemma tile_value_succ t : 0 < t -> tile_value (t + 1) = tile_value t + tile_value t.
Proof.
  intros H. unfold tile_value.
  destruct (Z.eqb_spec (t + 1) 0); [lia|]. destruct (Z.eqb_spec t 0); [lia|].
  replace (t + 1) with (Z.succ t) by lia. rewrite Z.pow_succ_r by lia. lia.
Qed.

Lemma nonzero_b2z c : Z.b2z (nonzero c) = if c =? 0 then 0 else 1.
Proof. unfold nonzero. destruct (c =? 0); reflexivity. Qed.

Lemma compact_merge_facts tiles :
  Forall (fun t => 0 <= t) tiles ->
  forall hold, 0 <= hold ->
    let out := fst (compact_merge hold tiles) in
    let score := snd (compact_merge hold tiles) in
    Forall (fun c => 0 < c) out
    /\ list_value out = tile_value hold + list_value tiles
    /\ ((score = 0
         /\ Z.of_nat (length out) = Z.b2z (nonzero hold) + list_nonzero tiles)
        \/ (4 <= score
            /\ Z.of_nat (length out) < Z.b2z (nonzero hold) + list_nonzero tiles)).
Proof.
  induction 1 as [|t rest Ht Hrest IH]; intros hold Hhold; cbn zeta.
  - cbn [compact_merge]. rewrite nonzero_b2z. unfold tile_value.
    destruct (Z.eqb_spec hold 0); cbn [fst snd length list_value list_nonzero fold_right].
    + split; [constructor|]. split; [reflexivity|]. left. split; reflexivity.
    + split; [constructor; [lia|constructor]|].
      unfold tile_value. destruct (Z.eqb_spec hold 0); [contradiction|].
      split; [lia|]. left. split; [reflexivity|]. cbn. lia.
  - cbn [compact_merge list_value list_nonzero fold_right].
    fold (list_value rest). fold (list_nonzero rest).
    rewrite (nonzero_b2z t).
    destruct (Z.eqb_spec t 0) as [Et|Et].
    { subst t. change (tile_value 0) with 0. rewrite !Z.add_0_l. apply IH; auto. }
    rewrite (nonzero_b2z hold).
    destruct (Z.eqb_spec hold 0) as [Eh|Eh].
    { subst hold. change (tile_value 0) with 0. rewrite Z.add_0_l.
      specialize (IH t Ht). cbn zeta in IH. rewrite nonzero_b2z in IH.
      destruct (Z.eqb_spec t 0); [contradiction|]. exact IH. }
    destruct (Z.eqb_spec t hold) as [Eq|Eq].
    + subst hold. specialize (IH 0 ltac:(lia)). cbn zeta in IH.
      destruct (compact_merge 0 rest) as [out s]. cbn [fst snd] in *.
      destruct IH as (Hpos & Hval & Hcnt).
      change (tile_value 0) with 0 in Hval. change (Z.b2z (nonzero 0)) with 0 in Hcnt.
      assert (Hp : 4 <= 2 ^ (t + 1)).
      { change 4 with (2 ^ 2). apply Z.pow_le_mono_r; lia. }
      split; [constructor; [lia|exact Hpos]|].
      split.
      * cbn [list_value fold_right]. fold (list_value out).
        rewrite tile_value_succ by lia. lia.
      * right. cbn [length]. rewrite Nat2Z.inj_succ. lia.
    + specialize (IH t Ht). cbn zeta in IH.
      destruct (compact_merge t rest) as [out s]. cbn [fst snd] in *.
      destruct IH as (Hpos & Hval & Hcnt).
      rewrite nonzero_b2z in Hcnt. destruct (Z.eqb_spec t 0); [contradiction|].
      split; [constructor; [lia|exact Hpos]|].
      split.
      * cbn [list_value fold_right]. fold (list_value out). lia.
      * cbn [length]. rewrite Nat2Z.inj_succ. lia.
Qed.

Lemma merge_row_left_facts rw :
  row_ok rw ->
  let rw' := fst (merge_row_left rw) in
  let score := snd (merge_row_left rw) in
  row_value rw' = row_value rw
  /\ row_compact rw'
  /\ ((score = 0 /\ nonzero_row rw' = nonzero_row rw)
      \/ (4 <= score /\ nonzero_row rw' < nonzero_row rw)).
Proof.
  destruct rw as [a b c d]. intros (Ha & Hb & Hc & Hd). cbn [c0 c1 c2 c3] in *.
  unfold rank_ok in *. cbn zeta. unfold merge_row_left. cbn [c0 c1 c2 c3].
  assert (Hall : Forall (fun t => 0 <= t) [a; b; c; d])
    by (repeat constructor; lia).
  pose proof (compact_merge_facts [a; b; c; d] Hall 0 ltac:(lia)) as H.
  cbn zeta in H. destruct (compact_merge 0 [a; b; c; d]) as [out s].
  cbn [fst snd] in *. destruct H as (Hpos & Hval & Hcnt).
  change (tile_value 0) with 0 in Hval. change (Z.b2z (nonzero 0)) with 0 in Hcnt.
  cbn [list_value list_nonzero fold_right] in Hval, Hcnt.
  unfold row_value, nonzero_row. cbn [c0 c1 c2 c3].
  pose proof (b2z_range (nonzero a)). pose proof (b2z_range (nonzero b)).
  pose proof (b2z_range (nonzero c)). pose proof (b2z_range (nonzero d)).
  assert (Hnz : forall x, 0 < x -> Z.b2z (nonzero x) = 1).
  { intros x Hx. rewrite nonzero_b2z. destruct (Z.eqb_spec x 0); lia. }
  destruct out as [|x1 [|x2 [|x3 [|x4 [|x5 out]]]]]; cbn [nth length] in *;
    repeat match goal with H : Forall _ (_ :: _) |- _ => inversion_clear H end;
    cbn [list_value fold_right] in Hval;
    change (tile_value 0) with 0; change (Z.b2z (nonzero 0)) with 0;
    rewrite ?Hnz by assumption;
    try (exfalso; lia).
  all: split; [lia|]; split; [|lia].
  all: intros i j Hij;
       assert (Hi : (i = 0 \/ i = 1 \/ i = 2 \/ i = 3)%nat) by lia;
       assert (Hj : (j = 0 \/ j = 1 \/ j = 2 \/ j = 3)%nat) by lia;
       destruct Hi as [-> | [-> | [-> | ->]]];
       destruct Hj as [-> | [-> | [-> | ->]]];
       cbn [row_get c0 c1 c2 c3]; lia.
Qed.

Lemma board_value_rows b :
  board_value b
  = row_value (r0 (tile b)) + row_value (r1 (tile b))
    + row_value (r2 (tile b)) + row_value (r3 (tile b)).
Proof.
  unfold board_value, row_value. board_cells b. board_eval. lia.
Qed.

Lemma board_value_reflect_horizontal b : board_value (reflect_horizontal b) = board_value b.
Proof.
  rewrite !board_value_rows, reflect_horizontal_rows. unfold row_value.
  board_cells b. board_eval. lia.
Qed.

Lemma board_value_reflect_vertical b : board_value (reflect_vertical b) = board_value b.
Proof.
  rewrite !board_value_rows, reflect_vertical_rows. unfold row_value.
  board_cells b. board_eval. lia.
Qed.

Lemma board_value_transpose b : board_value (transpose b) = board_value b.
Proof.
  rewrite !board_value_rows, transpose_columns. unfold row_value.
  board_cells b. board_eval. lia.
Qed.

Lemma board_value_orient opcode b : board_value (orient opcode b) = board_value b.
Proof.
  unfold orient, rotate_clockwise.
  destruct (land_3_cases opcode) as [-> | [-> | [-> | ->]]];
    rewrite ?board_value_reflect_horizontal, ?board_value_transpose; reflexivity.
Qed.

Lemma board_value_unorient opcode b : board_value (unorient opcode b) = board_value b.
Proof.
  unfold unorient, rotate_counterclockwise.
  destruct (land_3_cases opcode) as [-> | [-> | [-> | ->]]];
    rewrite ?board_value_reflect_vertical, ?board_value_transpose,
            ?board_value_reflect_horizontal; reflexivity.
Qed.

Lemma merge_rows_left_facts b :
  board_ok b ->
  let b' := fst (merge_rows_left b) in
  let score := snd (merge_rows_left b) in
  board_value b' = board_value b
  /\ rows_compact b'
  /\ ((score = 0 /\ nonzero_cells b' = nonzero_cells b)
      \/ (4 <= score /\ nonzero_cells b' < nonzero_cells b)).
Proof.
  destruct b as [[ra rb rc rd] w]. intros (Ha & Hb & Hc & Hd).
  cbn [tile r0 r1 r2 r3] in *. cbn zeta.
  destruct (merge_row_left_facts ra Ha) as (Va & Ca & Na).
  destruct (merge_row_left_facts rb Hb) as (Vb & Cb & Nb).
  destruct (merge_row_left_facts rc Hc) as (Vc & Cc & Nc).
  destruct (merge_row_left_facts rd Hd) as (Vd & Cd & Nd).
  rewrite !board_value_rows, !nonzero_cells_rows. unfold merge_rows_left.
  cbn [fst snd tile r0 r1 r2 r3].
  split; [lia|]. split; [|lia].
  intros r Hr. cbn [tile].
  assert (Hcases : (r = 0 \/ r = 1 \/ r = 2 \/ r = 3)%nat) by lia.
  destruct Hcases as [-> | [-> | [-> | ->]]]; cbn [grid_row r0 r1 r2 r3]; assumption.
Qed.

(** X4. A slide in any direction keeps the sum of the face values
    [2 ^ rank] of the tiles of a board of valid ranks: merging two tiles of
    rank [t] leaves one of rank [t + 1]. *)
Theorem slide_keeps_value (b : board) (opcode : N) :
  board_ok b -> board_value (fst (slide b opcode)) = board_value b.
Proof.
  intros H. pose proof (slide_ok b opcode H) as E. cbv zeta in E. rewrite E.
  cbn [fst]. rewrite board_value_unorient.
  destruct (merge_rows_left_facts _ (board_ok_orient opcode b H)) as (Hv & _).
  rewrite Hv. apply board_value_orient.
Qed.

(** X5. After a slide the tiles are packed towards the side slid to: seen
    in the orientation in which the slide is a slide to the left, no row
    has a tile to the right of an empty cell; after [slide 3] this holds of
    the board itself. *)
Theorem slide_compacts_rows (b : board) (opcode : N) :
  board_ok b ->
  rows_compact (orient opcode (fst (slide b opcode)))
  /\ rows_compact (fst (slide b 3)).
Proof.
  intros H. split.
  - pose proof (slide_ok b opcode H) as E. cbv zeta in E. rewrite E.
    cbn [fst]. rewrite orient_unorient.
    apply (merge_rows_left_facts _ (board_ok_orient opcode b H)).
  - pose proof (slide_ok b 3 H) as E. cbv zeta in E. rewrite E. cbn [fst].
    apply (merge_rows_left_facts _ H).
Qed.

(** X6. On a board of valid ranks the reward of a slide is -1, 0 or at
    least 4; it is at least 4 exactly when the slide merged tiles, that is
    when the board has fewer tiles than before, and with a reward of 0 or
    -1 the number of tiles is unchanged. *)
Theorem slide_reward_counts_merges (b : board) (opcode : N) :
  board_ok b ->
  let b' := fst (slide b opcode) in
  let r := snd (slide b opcode) in
  (r = -1 \/ r = 0 \/ 4 <= r)
  /\ (4 <= r <-> nonzero_cells b' < nonzero_cells b)
  /\ (r <= 0 -> nonzero_cells b' = nonzero_cells b).
Proof.
  intros H. cbv zeta.
  pose proof (slide_ok b opcode H) as E. cbv zeta in E. rewrite E. cbn [fst snd].
  rewrite nonzero_cells_unorient, <- (nonzero_cells_orient opcode b).
  destruct (merge_rows_left_facts _ (board_ok_orient opcode b H)) as (_ & _ & Hn).
  fold (total_merge_score b opcode) in Hn.
  set (b' := fst (merge_rows_left (orient opcode b))) in *.
  destruct (board_neqb b' (orient opcode b)) eqn:En.
  - lia.
  - assert (He : b' = orient opcode b)
      by (apply board_neqb_false; [apply merge_rows_left_attr | exact En]).
    rewrite He. lia.
Qed.

Lemma slide_keeps_value_witness :
  board_value (fst (slide two_ones 1)) = board_value two_ones.
Proof.
  apply (slide_keeps_value two_ones 1). apply board_ok_two_ones.
Defined.

Lemma slide_compacts_rows_witness :
  rows_compact (orient 1 (fst (slide two_ones 1)))
  /\ rows_compact (fst (slide two_ones 3)).
Proof.
  apply (slide_compacts_rows two_ones 1). apply board_ok_two_ones.
Defined.

Lemma slide_reward_counts_merges_witness :
  (snd (slide two_ones 3) = -1 \/ snd (slide two_ones 3) = 0 \/ 4 <= snd (slide two_ones 3))
  /\ (4 <= snd (slide two_ones 3)
      <-> nonzero_cells (fst (slide two_ones 3)) < nonzero_cells two_ones)
  /\ (snd (slide two_ones 3) <= 0 ->
      nonzero_cells (fst (slide two_ones 3)) = nonzero_cells two_ones).
Proof.
  apply (slide_reward_counts_merges two_ones 3). apply board_ok_two_ones.
Defined.

(** ** Sliding a turned or mirrored board *)

Lemma merge_rows_left_reflect_vertical x :
  merge_rows_left (reflect_vertical x)
  = (reflect_vertical (fst (merge_rows_left x)), snd (merge_rows_left x)).
Proof.
  rewrite !reflect_vertical_rows. unfold merge_rows_left.
  cbn [tile attr r0 r1 r2 r3 fst snd]. f_equal. lia.
Qed.

Lemma board_neqb_reflect_vertical x y :
  board_neqb (reflect_vertical x) (reflect_vertical y) = board_neqb x y.
Proof.
  rewrite !reflect_vertical_rows. unfold board_neqb, board_eqb, grid_eqb.
  cbn [tile r0 r1 r2 r3].
  destruct (row_eqb (r0 (tile x)) (r0 (tile y))), (row_eqb (r1 (tile x)) (r1 (tile y))),
    (row_eqb (r2 (tile x)) (r2 (tile y))), (row_eqb (r3 (tile x)) (r3 (tile y)));
    reflexivity.
Qed.

Lemma board_ok_rotate_clockwise b : board_ok b -> board_ok (rotate_clockwise b).
Proof.
  intros H. unfold rotate_clockwise.
  now apply board_ok_reflect_horizontal, board_ok_transpose.
Qed.

Lemma land_3_succ (opcode : N) :
  N.land (opcode + 1) 3 = ((N.land opcode 3 + 1) mod 4)%N.
Proof.
  assert (E : forall x, N.land x 3 = (x mod 4)%N).
  { intros x. change 3%N with (N.ones 2). apply N.land_ones. }
  rewrite !E. rewrite <- N.Div0.add_mod_idemp_l. reflexivity.
Qed.

(** A slide of [b'] with [opcode'] is the image of the slide of [b] with
    [opcode] under [s], as soon as the oriented boards agree up to the order
    of the rows. *)
Lemma slide_image (s : board -> board) b b' opcode opcode' :
  board_ok b -> board_ok b' ->
  ((orient opcode' b' = orient opcode b
    /\ forall x, unorient opcode' x = s (unorient opcode x))
   \/ (orient opcode' b' = reflect_vertical (orient opcode b)
       /\ forall x, unorient opcode' (reflect_vertical x) = s (unorient opcode x))) ->
  slide b' opcode' = (s (fst (slide b opcode)), snd (slide b opcode)).
Proof.
  intros Hb Hb' Ho.
  pose proof (slide_ok b opcode Hb) as E. pose proof (slide_ok b' opcode' Hb') as E'.
  cbv zeta in E, E'. rewrite E, E'. cbn [fst snd].
  unfold total_merge_score.
  destruct Ho as [(-> & Hu) | (-> & Hu)].
  - rewrite Hu. reflexivity.
  - rewrite merge_rows_left_reflect_vertical. cbn [fst snd].
    rewrite board_neqb_reflect_vertical, Hu. reflexivity.
Qed.

Ltac turned_case b :=
  first
    [ left; split; [by_cells b | intros x; by_cells x]
    | right; split; [by_cells b | intros x; by_cells x] ].

(** X30. Sliding commutes with turning and mirroring the board: on a board
    of valid ranks, a slide of the board turned clockwise, with the opcode
    turned along (up to right, right to down, down to left, left to up),
    gives the turned result of the slide and the same reward; and a slide
    of the mirrored board, with left and right exchanged, gives the
    mirrored result and the same reward. *)
Theorem slide_commutes_with_symmetry (b : board) (opcode : N) :
  board_ok b ->
  slide (rotate_clockwise b) (opcode + 1)
  = (rotate_clockwise (fst (slide b opcode)), snd (slide b opcode))
  /\ slide (reflect_horizontal b) (mirrored opcode)
     = (reflect_horizontal (fst (slide b opcode)), snd (slide b opcode)).
Proof.
  intros Hb. split.
  - apply slide_image;
      [exact Hb | now apply board_ok_rotate_clockwise |].
    unfold orient, unorient. rewrite land_3_succ.
    destruct (land_3_cases opcode) as [-> | [-> | [-> | ->]]];
      cbn [N.add N.modulo]; turned_case b.
  - apply slide_image;
      [exact Hb | now apply board_ok_reflect_horizontal |].
    unfold orient, unorient, mirrored.
    destruct (land_3_cases opcode) as [-> | [-> | [-> | ->]]];
      cbn [N.land]; turned_case b.
Qed.

Lemma slide_commutes_with_symmetry_witness :
  slide (rotate_clockwise two_ones) (3 + 1)
  = (rotate_clockwise (fst (slide two_ones 3)), snd (slide two_ones 3))
  /\ slide (reflect_horizontal two_ones) (mirrored 3)
     = (reflect_horizontal (fst (slide two_ones 3)), snd (slide two_ones 3)).
Proof.
  apply (slide_commutes_with_symmetry two_ones 3). apply board_ok_two_ones.
Defined.

(** ** The queries *)

Lemma count_tile_value_rows b v :
  count_tile_value b v
  = fold_right (fun c s => Z.b2z (c =? v) + s) 0 (cells b).
Proof.
  rewrite count_tile_value_count, count_pos_sum. unfold cells.
  generalize (seq 0 16). intros l.
  induction l as [|i l IH]; cbn [map fold_right]; congruence.
Qed.

Lemma has_two_8192_count b : has_two_8192 b = (2 <=? count_tile_value b 13).
Proof. reflexivity. Qed.

Ltac sym_cases s H :=
  unfold symmetries in H; cbn [In] in H;
  destruct H as [<- | [<- | [<- | [<- | [<- | [<- | []]]]]]].

Ltac sym_eval :=
  cbv [cells map rotate_clockwise rotate_counterclockwise reverse
       reflect_horizontal reflect_vertical transpose];
  board_eval.

Lemma count_tile_value_symmetry s b v :
  In s symmetries -> count_tile_value (s b) v = count_tile_value b v.
Proof.
  intros H. rewrite !count_tile_value_rows.
  sym_cases s H; board_cells b; sym_eval; lia.
Qed.

(** The running maximum of the loop of [max_tile_value]. *)
Lemma fold_max_bounds (f : nat -> Z) l a :
  let m := fold_left (fun m i => Z.max m (f i)) l a in
  a <= m /\ (forall i, In i l -> f i <= m) /\ (m = a \/ exists i, In i l /\ m = f i).
Proof.
  revert a. induction l as [|i l IH]; intros a; cbn [fold_left In].
  - split; [lia|]. split; [tauto|]. left. reflexivity.
  - specialize (IH (Z.max a (f i))). cbn zeta in IH.
    destruct IH as (Ha & Hall & Hm).
    split; [lia|]. split.
    + intros j [<- | Hj]; [lia | auto].
    + destruct Hm as [Hm | (j & Hj & Hm)].
      * destruct (Z.max_spec a (f i)) as [(_ & E) | (_ & E)].
        -- right. exists i. split; [left; reflexivity | congruence].
        -- left. congruence.
      * right. exists j. split; [right; exact Hj | exact Hm].
Qed.

Lemma max_tile_value_bounds b :
  0 <= max_tile_value b
  /\ (forall i, (i < 16)%nat -> wrap_i32 (at_pos b i) <= max_tile_value b)
  /\ (max_tile_value b = 0
      \/ exists i, (i < 16)%nat /\ max_tile_value b = wrap_i32 (at_pos b i)).
Proof.
  pose proof (fold_max_bounds (fun i => wrap_i32 (at_pos b i)) (seq 0 16) 0) as H.
  cbn zeta in H. fold (max_tile_value b) in H. destruct H as (H0 & Hall & Hm).
  split; [exact H0|]. split.
  - intros i Hi. apply Hall. apply in_seq. lia.
  - destruct Hm as [Hm | (i & Hi & Hm)]; [left; exact Hm|].
    right. exists i. apply in_seq in Hi. split; [lia | exact Hm].
Qed.

(** Every cell of the image of a board under a symmetry is a cell of the
    board. *)
Lemma symmetry_cells s b i :
  In s symmetries -> (i < 16)%nat -> exists j, (j < 16)%nat /\ at_pos (s b) i = at_pos b j.
Proof.
  intros H Hi. board_cells b.
  sym_cases s H;
    do 16 (destruct i as [|i];
      [ sym_eval;
        first [ exists 0%nat; split; [lia | reflexivity]
              | exists 1%nat; split; [lia | reflexivity]
              | exists 2%nat; split; [lia | reflexivity]
              | exists 3%nat; split; [lia | reflexivity]
              | exists 4%nat; split; [lia | reflexivity]
              | exists 5%nat; split; [lia | reflexivity]
              | exists 6%nat; split; [lia | reflexivity]
              | exists 7%nat; split; [lia | reflexivity]
              | exists 8%nat; split; [lia | reflexivity]
              | exists 9%nat; split; [lia | reflexivity]
              | exists 10%nat; split; [lia | reflexivity]
              | exists 11%nat; split; [lia | reflexivity]
              | exists 12%nat; split; [lia | reflexivity]
              | exists 13%nat; split; [lia | reflexivity]
              | exists 14%nat; split; [lia | reflexivity]
              | exists 15%nat; split; [lia | reflexivity] ] | ]);
    lia.
Qed.

Lemma max_tile_value_le s b :
  In s symmetries -> max_tile_value (s b) <= max_tile_value b.
Proof.
  intros H.
  destruct (max_tile_value_bounds (s b)) as (_ & _ & [E | (i & Hi & E)]).
  - rewrite E. apply max_tile_value_bounds.
  - rewrite E. destruct (symmetry_cells s b i H Hi) as (j & Hj & ->).
    apply max_tile_value_bounds. exact Hj.
Qed.

Lemma symmetry_inverse s b :
  In s symmetries -> exists s', In s' symmetries /\ s' (s b) = b.
Proof.
  intros H. unfold symmetries in *. cbn [In] in H.
  destruct H as [<- | [<- | [<- | [<- | [<- | [<- | []]]]]]].
  - exists rotate_counterclockwise. split; [cbn; tauto | by_cells b].
  - exists rotate_clockwise. split; [cbn; tauto | by_cells b].
  - exists reverse. split; [cbn; tauto | by_cells b].
  - exists reflect_horizontal. split; [cbn; tauto | by_cells b].
  - exists reflect_vertical. split; [cbn; tauto | by_cells b].
  - exists transpose. split; [cbn; tauto | by_cells b].
Qed.

Lemma max_tile_value_symmetry s b :
  In s symmetries -> max_tile_value (s b) = max_tile_value b.
Proof.
  intros H. apply Z.le_antisymm; [now apply max_tile_value_le|].
  destruct (symmetry_inverse s b H) as (s' & Hs' & E).
  rewrite <- E at 1. now apply max_tile_value_le.
Qed.

Lemma danger_level_counts b b' :
  count_tile_value b 13 = count_tile_value b' 13 ->
  count_tile_value b 12 = count_tile_value b' 12 ->
  calculate_danger_level b = calculate_danger_level b'.
Proof. unfold calculate_danger_level. intros -> ->. reflexivity. Qed.

(** X7. The queries do not see how a board is turned or mirrored: under
    each of the six symmetry operations [count_tile_value] of any rank,
    [max_tile_value], [has_two_8192] and [calculate_danger_level] are
    unchanged. *)
Theorem queries_ignore_symmetry (s : board -> board) (b : board) (v : cell) :
  In s symmetries ->
  count_tile_value (s b) v = count_tile_value b v
  /\ max_tile_value (s b) = max_tile_value b
  /\ has_two_8192 (s b) = has_two_8192 b
  /\ calculate_danger_level (s b) = calculate_danger_level b.
Proof.
  intros H. split; [now apply count_tile_value_symmetry|].
  split; [now apply max_tile_value_symmetry|]. split.
  - rewrite !has_two_8192_count. now rewrite count_tile_value_symmetry.
  - apply danger_level_counts; now apply count_tile_value_symmetry.
Qed.

Lemma queries_ignore_symmetry_witness :
  count_tile_value (transpose one_8192) 13 = count_tile_value one_8192 13
  /\ max_tile_value (transpose one_8192) = max_tile_value one_8192.
Proof.
  pose proof (queries_ignore_symmetry transpose one_8192 13) as H.
  destruct H as (Hc & Hm & _).
  - unfold symmetries. cbn [In]. tauto.
  - split; [exact Hc | exact Hm].
Defined.

(** X8. When every cell fits an [int], [max_tile_value] is the largest
    rank on the board: no cell exceeds it, some cell has it, and it is 0
    exactly on the empty board. *)
Theorem max_tile_value_is_largest (b : board) :
  cells_in_int b ->
  (forall i, (i < 16)%nat -> at_pos b i <= max_tile_value b)
  /\ (exists i, (i < 16)%nat /\ at_pos b i = max_tile_value b)
  /\ (max_tile_value b = 0 <-> forall i, (i < 16)%nat -> at_pos b i = 0).
Proof.
  intros Hb.
  assert (Hw : forall i, (i < 16)%nat -> wrap_i32 (at_pos b i) = at_pos b i).
  { intros i Hi. apply wrap_i32_small. specialize (Hb i Hi). unfold in_i32. lia. }
  destruct (max_tile_value_bounds b) as (H0 & Hall & Hm).
  assert (Hle : forall i, (i < 16)%nat -> at_pos b i <= max_tile_value b).
  { intros i Hi. rewrite <- (Hw i Hi). now apply Hall. }
  split; [exact Hle|]. split.
  - destruct Hm as [Hm | (i & Hi & Hm)].
    + exists 0%nat. split; [lia|]. specialize (Hle 0%nat ltac:(lia)).
      specialize (Hb 0%nat ltac:(lia)). lia.
    + exists i. split; [exact Hi|]. rewrite Hm. symmetry. now apply Hw.
  - split.
    + intros E i Hi. specialize (Hle i Hi). specialize (Hb i Hi). lia.
    + intros Hz. destruct Hm as [Hm | (i & Hi & Hm)]; [exact Hm|].
      rewrite Hm, (Hw i Hi). now apply Hz.
Qed.

Lemma cells_in_int_one_8192 : cells_in_int one_8192.
Proof.
  intros i Hi.
  do 16 (destruct i as [|i]; [vm_compute; split; [discriminate | reflexivity]|]).
  lia.
Qed.

Lemma max_tile_value_is_largest_witness :
  at_pos one_8192 0 <= max_tile_value one_8192
  /\ exists i, (i < 16)%nat /\ at_pos one_8192 i = max_tile_value one_8192.
Proof.
  destruct (max_tile_value_is_largest one_8192 cells_in_int_one_8192) as (Hle & Hex & _).
  split; [apply Hle; lia | exact Hex].
Defined.

(** Counting over a range of positions. *)
Lemma count_range_bounds (q : nat -> bool) a n :
  0 <= fold_right (fun i s => Z.b2z (q i) + s) 0 (seq a n) <= Z.of_nat n.
Proof.
  revert a. induction n as [|n IH]; intros a; cbn [seq fold_right]; [lia|].
  specialize (IH (S a)). pose proof (b2z_range (q a)). lia.
Qed.

Lemma count_range_one (q : nat -> bool) a n :
  1 <= fold_right (fun i s => Z.b2z (q i) + s) 0 (seq a n)
  <-> exists i, (a <= i < a + n)%nat /\ q i = true.
Proof.
  revert a. induction n as [|n IH]; intros a; cbn [seq fold_right].
  - split; [lia | intros (i & Hi & _); lia].
  - specialize (IH (S a)). pose proof (count_range_bounds q (S a) n).
    destruct (q a) eqn:E; cbn [Z.b2z].
    + split; [|lia]. intros _. exists a. split; [lia | exact E].
    + rewrite Z.add_0_l, IH. split; intros (i & Hi & Hq).
      * exists i. split; [lia | exact Hq].
      * exists i. split; [|exact Hq].
        assert (i <> a) by congruence. lia.
Qed.

Lemma count_range_two (q : nat -> bool) a n :
  2 <= fold_right (fun i s => Z.b2z (q i) + s) 0 (seq a n)
  <-> exists i j, (a <= i < j)%nat /\ (j < a + n)%nat /\ q i = true /\ q j = true.
Proof.
  revert a. induction n as [|n IH]; intros a; cbn [seq fold_right].
  - split; [lia | intros (i & j & Hi & Hj & _); lia].
  - specialize (IH (S a)). pose proof (count_range_bounds q (S a) n).
    pose proof (count_range_one q (S a) n) as H1.
    destruct (q a) eqn:E; cbn [Z.b2z].
    + split.
      * intros H2. destruct (proj1 H1 ltac:(lia)) as (j & Hj & Hq).
        exists a, j. repeat split; try lia; assumption.
      * intros (i & j & Hi & Hj & Hqi & Hqj).
        assert (1 <= fold_right (fun i s => Z.b2z (q i) + s) 0 (seq (S a) n)).
        { apply H1. exists j. split; [lia | exact Hqj]. }
        lia.
    + rewrite Z.add_0_l, IH. split; intros (i & j & Hi & Hj & Hqi & Hqj).
      * exists i, j. repeat split; try lia; assumption.
      * exists i, j. assert (i <> a) by congruence. repeat split; try lia; assumption.
Qed.

(** X9. [count_tile_value] lies between 0 and 16 and is 0 exactly when no
    cell holds the rank; [has_two_8192] holds exactly when the count of
    rank 13 is at least 2, that is when two different positions hold
    rank 13. *)
Theorem counting_queries (b : board) (v : cell) :
  0 <= count_tile_value b v <= 16
  /\ (count_tile_value b v = 0 <-> forall i, (i < 16)%nat -> at_pos b i <> v)
  /\ has_two_8192 b = (2 <=? count_tile_value b 13)
  /\ (has_two_8192 b = true
      <-> exists i j, (i < j < 16)%nat /\ at_pos b i = 13 /\ at_pos b j = 13).
Proof.
  pose proof (count_range_bounds (fun i => at_pos b i =? v) 0 16) as Hb.
  pose proof (count_range_one (fun i => at_pos b i =? v) 0 16) as H1.
  pose proof (count_range_two (fun i => at_pos b i =? 13) 0 16) as H2.
  rewrite <- count_pos_sum, <- count_tile_value_count in Hb, H1, H2.
  cbn beta in H1, H2.
  split; [exact Hb|]. split; [|split; [reflexivity|]].
  - split.
    + intros E i Hi Hv.
      assert (1 <= count_tile_value b v); [|lia].
      apply H1. exists i. split; [lia|]. now apply Z.eqb_eq.
    + intros Hno.
      destruct (Z.eq_dec (count_tile_value b v) 0) as [E|E]; [exact E|].
      destruct (proj1 H1 ltac:(lia)) as (i & Hi & Hq).
      apply Z.eqb_eq in Hq. exfalso. apply (Hno i); [lia | exact Hq].
  - rewrite has_two_8192_count, Z.leb_le, H2. split.
    + intros (i & j & Hi & Hj & Hqi & Hqj). exists i, j.
      apply Z.eqb_eq in Hqi, Hqj. repeat split; try lia; assumption.
    + intros (i & j & Hi & Hqi & Hqj). exists i, j.
      apply Z.eqb_eq in Hqi, Hqj. repeat split; try lia; assumption.
Qed.

Lemma count_tile_value_set_pos b i t v :
  (i < 16)%nat ->
  count_tile_value (set_pos b i t) v
  = count_tile_value b v - Z.b2z (at_pos b i =? v) + Z.b2z (t =? v).
Proof.
  intros Hi. rewrite !count_tile_value_count, !count_pos_sum.
  board_cells b.
  do 16 (destruct i as [|i]; [board_eval; lia|]).
  lia.
Qed.

(** X10. Placing a tile, accepted or not, changes no count of a rank of 3
    or more: it neither makes nor unmakes the win condition
    ([has_two_8192], [check_for_win]) and leaves the danger level as it
    was. *)
Theorem place_keeps_high_tiles (b : board) (pos : N) (t v : cell) :
  3 <= v ->
  count_tile_value (fst (place b pos t)) v = count_tile_value b v
  /\ has_two_8192 (fst (place b pos t)) = has_two_8192 b
  /\ check_for_win (fst (place b pos t)) = check_for_win b
  /\ calculate_danger_level (fst (place b pos t)) = calculate_danger_level b.
Proof.
  intros Hv.
  assert (Hc : forall u, 3 <= u ->
            count_tile_value (fst (place b pos t)) u = count_tile_value b u).
  { intros u Hu.
    destruct (place_result b pos t) as [(Hpos & Hcell & Ht & ->) | (_ & ->)];
      cbn [fst]; [|reflexivity].
    rewrite count_tile_value_set_pos by lia. rewrite Hcell.
    destruct (Z.eqb_spec 0 u); [lia|]. destruct (Z.eqb_spec t u); [lia|].
    cbn [Z.b2z]. lia. }
  assert (Hw : has_two_8192 (fst (place b pos t)) = has_two_8192 b)
    by (rewrite !has_two_8192_count, Hc by lia; reflexivity).
  split; [now apply Hc|]. split; [exact Hw|]. split; [exact Hw|].
  apply danger_level_counts; apply Hc; lia.
Qed.

Lemma place_keeps_high_tiles_witness :
  count_tile_value (fst (place one_8192 2 1)) 13 = count_tile_value one_8192 13.
Proof.
  apply (proj1 (place_keeps_high_tiles one_8192 2 1 13 ltac:(lia))).
Defined.

(** ** Comparing boards *)

Section Lexicographic.

Variable A : Type.
Variable lt : A -> A -> bool.
Hypothesis lt_irrefl : forall a, lt a a = false.
Hypothesis lt_trans : forall a b c, lt a b = true -> lt b c = true -> lt a c = true.
Hypothesis lt_total : forall a b, lt a b = false -> lt b a = false -> a = b.

Lemma lexicographical_compare_irrefl x : lexicographical_compare lt x x = false.
Proof.
  induction x as [|a x IH]; cbn [lexicographical_compare]; [reflexivity|].
  rewrite lt_irrefl. exact IH.
Qed.

Lemma lexicographical_compare_trans x y z :
  lexicographical_compare lt x y = true ->
  lexicographical_compare lt y z = true ->
  lexicographical_compare lt x z = true.
Proof.
  revert y z. induction x as [|a x IH]; intros [|b y] [|c z];
    cbn [lexicographical_compare]; try discriminate; try reflexivity.
  destruct (lt a b) eqn:Eab.
  - intros _. destruct (lt b c) eqn:Ebc.
    + intros _. now rewrite (lt_trans a b c).
    + destruct (lt c b) eqn:Ecb; [discriminate|].
      rewrite <- (lt_total b c Ebc Ecb). rewrite Eab. reflexivity.
  - destruct (lt b a) eqn:Eba; [discriminate|].
    rewrite (lt_total a b Eab Eba). intros Hxy.
    destruct (lt b c); [reflexivity|].
    destruct (lt c b); [discriminate|]. now apply IH.
Qed.

Lemma lexicographical_compare_total x y :
  length x = length y ->
  lexicographical_compare lt x y = false ->
  lexicographical_compare lt y x = false ->
  x = y.
Proof.
  revert y. induction x as [|a x IH]; intros [|b y];
    cbn [lexicographical_compare length]; try discriminate; [reflexivity|].
  intros Hlen. injection Hlen as Hlen.
  destruct (lt a b) eqn:Eab; [discriminate|].
  destruct (lt b a) eqn:Eba; [discriminate|].
  intros Hxy Hyx.
  rewrite (lt_total a b Eab Eba), (IH y Hlen Hxy Hyx). reflexivity.
Qed.

End Lexicographic.

Lemma ltb_irrefl a : (a <? a) = false.
Proof. apply Z.ltb_irrefl. Qed.

Lemma ltb_trans a b c : (a <? b) = true -> (b <? c) = true -> (a <? c) = true.
Proof. rewrite !Z.ltb_lt. lia. Qed.

Lemma ltb_total a b : (a <? b) = false -> (b <? a) = false -> a = b.
Proof. rewrite !Z.ltb_ge. lia. Qed.

Lemma row_ltb_irrefl x : row_ltb x x = false.
Proof. exact (lexicographical_compare_irrefl Z Z.ltb ltb_irrefl _). Qed.

Lemma row_ltb_trans x y z : row_ltb x y = true -> row_ltb y z = true -> row_ltb x z = true.
Proof.
  exact (lexicographical_compare_trans Z Z.ltb ltb_trans ltb_total _ _ _).
Qed.

Lemma row_ltb_total x y : row_ltb x y = false -> row_ltb y x = false -> x = y.
Proof.
  destruct x as [xa xb xc xd], y as [ya yb yc yd]. unfold row_ltb. cbn [c0 c1 c2 c3].
  intros Hxy Hyx.
  pose proof (lexicographical_compare_total Z Z.ltb ltb_total
                [xa; xb; xc; xd] [ya; yb; yc; yd] eq_refl Hxy Hyx) as E.
  congruence.
Qed.

Lemma board_ltb_irrefl x : board_ltb x x = false.
Proof. exact (lexicographical_compare_irrefl row row_ltb row_ltb_irrefl _). Qed.

Lemma board_ltb_trans x y z :
  board_ltb x y = true -> board_ltb y z = true -> board_ltb x z = true.
Proof.
  exact (lexicographical_compare_trans row row_ltb row_ltb_trans row_ltb_total _ _ _).
Qed.

Lemma board_ltb_total x y :
  board_ltb x y = false -> board_ltb y x = false -> tile x = tile y.
Proof.
  intros Hxy Hyx.
  unfold board_ltb, grid_ltb in Hxy, Hyx.
  destruct (tile x) as [xa xb xc xd], (tile y) as [ya yb yc yd]. cbn [r0 r1 r2 r3] in *.
  pose proof (lexicographical_compare_total row row_ltb row_ltb_total
                [xa; xb; xc; xd] [ya; yb; yc; yd] eq_refl Hxy Hyx) as E.
  congruence.
Qed.

(** X11. The comparison operators order boards by their grids alone:
    [==] holds exactly when the grids are equal, whatever the attribute
    words; [<] is transitive; of [<], [==] and [>] exactly one holds; and
    [<=] and [>=] are [<] or [==] and [>] or [==]. *)
Theorem board_comparisons_order (x y z : board) :
  (board_eqb x y = true <-> tile x = tile y)
  /\ board_neqb x y = negb (board_eqb x y)
  /\ (board_ltb x y = true -> board_ltb y z = true -> board_ltb x z = true)
  /\ ((board_ltb x y = true /\ board_eqb x y = false /\ board_gtb x y = false)
      \/ (board_ltb x y = false /\ board_eqb x y = true /\ board_gtb x y = false)
      \/ (board_ltb x y = false /\ board_eqb x y = false /\ board_gtb x y = true))
  /\ board_leb x y = (board_ltb x y || board_eqb x y)%bool
  /\ board_geb x y = (board_gtb x y || board_eqb x y)%bool.
Proof.
  assert (Heq : forall a b, board_eqb a b = true -> board_ltb a b = false).
  { intros a b E. apply board_eqb_eq in E. unfold board_ltb. rewrite E.
    apply (board_ltb_irrefl (Board (tile b) 0)). }
  assert (Hsym : forall a b, board_eqb a b = board_eqb b a).
  { intros a b. destruct (board_eqb a b) eqn:E1, (board_eqb b a) eqn:E2; try reflexivity.
    - apply board_eqb_eq in E1. symmetry in E1. apply board_eqb_eq in E1. congruence.
    - apply board_eqb_eq in E2. symmetry in E2. apply board_eqb_eq in E2. congruence. }
  assert (Hasym : forall a b, board_ltb a b = true -> board_ltb b a = false).
  { intros a b H. destruct (board_ltb b a) eqn:E; [|reflexivity].
    rewrite <- (board_ltb_irrefl a). symmetry. now apply (board_ltb_trans a b a). }
  assert (Htri : (board_ltb x y = true /\ board_eqb x y = false /\ board_gtb x y = false)
      \/ (board_ltb x y = false /\ board_eqb x y = true /\ board_gtb x y = false)
      \/ (board_ltb x y = false /\ board_eqb x y = false /\ board_gtb x y = true)).
  { unfold board_gtb.
    destruct (board_ltb x y) eqn:Exy.
    - left. split; [reflexivity|]. split; [|now apply Hasym].
      destruct (board_eqb x y) eqn:E; [|reflexivity].
      apply Heq in E. congruence.
    - right. destruct (board_ltb y x) eqn:Eyx.
      + right. split; [reflexivity|]. split; [|reflexivity].
        destruct (board_eqb x y) eqn:E; [|reflexivity].
        rewrite Hsym in E. apply Heq in E. congruence.
      + left. split; [reflexivity|]. split; [|reflexivity].
        apply board_eqb_eq. now apply board_ltb_total. }
  split; [apply board_eqb_eq|]. split; [reflexivity|].
  split; [apply board_ltb_trans|]. split; [exact Htri|].
  unfold board_leb, board_geb, board_gtb in *.
  destruct Htri as [(-> & -> & ->) | [(-> & -> & ->) | (-> & -> & ->)]];
    split; reflexivity.
Qed.

(** ** Printing *)

(** X12. What [operator <<] prints for a cell of rank 0 to 30 is its face
    value: 0 for the empty cell, whose bit 0 the mask [-2u] clears, and
    [2 ^ rank] for a tile. *)
Theorem printed_value_is_face_value (t : cell) :
  0 <= t <= 30 -> printed_value t = tile_value t.
Proof.
  intros Ht.
  assert (Hc : t = 0 \/ t = 1 \/ t = 2 \/ t = 3 \/ t = 4 \/ t = 5 \/ t = 6 \/ t = 7
              \/ t = 8 \/ t = 9 \/ t = 10 \/ t = 11 \/ t = 12 \/ t = 13 \/ t = 14
              \/ t = 15 \/ t = 16 \/ t = 17 \/ t = 18 \/ t = 19 \/ t = 20 \/ t = 21
              \/ t = 22 \/ t = 23 \/ t = 24 \/ t = 25 \/ t = 26 \/ t = 27 \/ t = 28
              \/ t = 29 \/ t = 30) by lia.
  repeat (destruct Hc as [-> | Hc]; [vm_compute; reflexivity|]).
  subst t. vm_compute. reflexivity.
Qed.

Lemma printed_value_is_face_value_witness :
  printed_value 0 = 0 /\ printed_value 11 = 2048.
Proof.
  split.
  - apply (printed_value_is_face_value 0). lia.
  - apply (printed_value_is_face_value 11). lia.
Defined.

(** ** The attribute word *)

Lemma attr_symmetry s b : In s symmetries -> attr (s b) = attr b.
Proof.
  unfold symmetries. cbn [In].
  intros [<- | [<- | [<- | [<- | [<- | [<- | []]]]]]]; board_cells b; reflexivity.
Qed.

Lemma attr_slide_left b : attr (fst (slide_left b)) = attr b.
Proof.
  unfold slide_left, slide_left_pass. cbn [fold_left seq].
  repeat match goal with
  | |- context [slide_row ?r ?s] => destruct (slide_row r s); cbn [tile attr grid_row grid_set_row]
  end.
  reflexivity.
Qed.

(** X13. No operation of the board touches the attribute word: [slide],
    [place], [rotate] and the six symmetry operations keep [info()];
    [info(dat)] sets it, returns the old one and keeps the grid. *)
Theorem operations_keep_attr (b : board) (opcode pos : N) (t : cell) (n : Z) :
  info (fst (slide b opcode)) = info b
  /\ info (fst (place b pos t)) = info b
  /\ info (rotate b n) = info b
  /\ Forall (fun s => info (s b) = info b) symmetries
  /\ info (fst (info_set b n)) = n /\ snd (info_set b n) = info b
  /\ tile (fst (info_set b n)) = tile b.
Proof.
  unfold info.
  assert (Hs : forall s, In s symmetries -> forall x, attr (s x) = attr x).
  { intros s H x. now apply attr_symmetry. }
  assert (Hr : attr (rotate_clockwise b) = attr b) by (apply Hs; cbn; tauto).
  assert (Hc : forall x, attr (rotate_counterclockwise x) = attr x)
    by (apply Hs; cbn; tauto).
  assert (Hh : forall x, attr (reflect_horizontal x) = attr x)
    by (apply Hs; cbn; tauto).
  split; [|split; [|split; [|split; [|split; [|split]]]]].
  - rewrite slide_oriented. cbn [fst]. unfold unorient, orient.
    destruct (land_3_cases opcode) as [-> | [-> | [-> | ->]]];
      rewrite ?Hc, ?Hh, attr_slide_left, ?Hh, ?Hr; reflexivity.
  - unfold place.
    destruct ((16 <=? pos)%N || negb (at_pos b (N.to_nat pos) =? 0))%bool; [reflexivity|].
    destruct (negb (t =? 1) && negb (t =? 2))%bool; reflexivity.
  - unfold rotate.
    destruct (Z.rem (Z.rem n 4 + 4) 4) as [|[[|p|]|[|p|]|]|]; try reflexivity;
      apply Hs; cbn; tauto.
  - apply Forall_forall. intros s H. now apply Hs.
  - reflexivity.
  - reflexivity.
  - reflexivity.
Qed.

(** ** Choosing a move *)

Lemma first_legal_some before ops op :
  first_legal before ops = Some op -> In op ops /\ legal before op.
Proof.
  induction ops as [|o ops IH]; cbn [first_legal]; [discriminate|].
  destruct (Z.eqb_spec (snd (slide before o)) (-1)) as [E|E]; cbn [negb].
  - intros H. destruct (IH H) as (Hin & Hl). split; [right; exact Hin | exact Hl].
  - intros H. injection H as <-. split; [left; reflexivity | exact E].
Qed.

Lemma first_legal_none before ops :
  first_legal before ops = None -> forall op, In op ops -> ~ legal before op.
Proof.
  induction ops as [|o ops IH]; cbn [first_legal]; [intros _ op []|].
  destruct (Z.eqb_spec (snd (slide before o)) (-1)) as [E|E]; cbn [negb]; [|discriminate].
  intros H op [<- | Hin]; [|now apply IH].
  unfold legal. intros Hl. apply Hl. exact E.
Qed.

(** The first loop leaves either nothing chosen, with the starting value, or
    a legal slide. *)
Lemma best_step_invariant p before ops :
  Forall (fun op => (op < 4)%N) ops ->
  forall acc,
  ((acc = (NoAction, SFopp float_max))
   \/ exists op, fst acc = SlideAction op /\ (op < 4)%N /\ legal before op) ->
  let res := fold_left (best_step p before) ops acc in
  (res = (NoAction, SFopp float_max))
  \/ exists op, fst res = SlideAction op /\ (op < 4)%N /\ legal before op.
Proof.
  induction 1 as [|o ops Ho Hops IH]; intros acc Hacc; cbn [fold_left]; [exact Hacc|].
  apply IH. unfold best_step. destruct acc as [a v].
  destruct (slide before o) as [after r] eqn:Es.
  destruct (Z.eqb_spec r (-1)) as [E|E]; [exact Hacc|].
  destruct (float_ltb v _); [|exact Hacc].
  right. exists o. split; [reflexivity|]. split; [exact Ho|].
  unfold legal. rewrite Es. exact E.
Qed.

Lemma best_of_result p before :
  best_of p before = (NoAction, SFopp float_max)
  \/ exists op, fst (best_of p before) = SlideAction op /\ (op < 4)%N /\ legal before op.
Proof.
  assert (Hops : Forall (fun op => (op < 4)%N) slider_opcode)
    by (unfold slider_opcode; repeat constructor).
  pose proof (best_step_invariant p before slider_opcode Hops (NoAction, SFopp float_max)
                (or_introl eq_refl)) as H.
  cbv zeta in H. unfold best_of. exact H.
Qed.

Lemma legal_opcode before op : legal before op -> exists op', (op' < 4)%N /\ legal before op'.
Proof.
  unfold legal, slide. intros H.
  destruct (land_3_cases op) as [E | [E | [E | E]]]; rewrite E in H.
  - exists 0%N. split; [lia | exact H].
  - exists 1%N. split; [lia | exact H].
  - exists 2%N. split; [lia | exact H].
  - exists 3%N. split; [lia | exact H].
Qed.

Lemma in_slider_opcode op : In op slider_opcode <-> (op < 4)%N.
Proof. unfold slider_opcode. cbn [In]. lia. Qed.

Section DecisionFacts.

Variable action_type : action -> Z.

Lemma select_best_action_cases p before :
  let res := select_best_action action_type p before in
  (* the fallback return *)
  (float_eqb (snd (best_of p before)) (SFopp float_max) = true
   /\ exists op, first_legal before slider_opcode = Some op
                 /\ res = (SlideAction op, p))
  \/
  (* the regular return *)
  ((float_eqb (snd (best_of p before)) (SFopp float_max) = false
    \/ first_legal before slider_opcode = None)
   /\ fst res = fst (best_of p before)
   /\ ((enable_learning (learner p) = true
        /\ action_type (fst res) <> 0
        /\ snd res
           = with_learner p
               (with_episode (learner p)
                  (current_episode (learner p) ++ [recorded_step p before (fst res)])))
       \/ ((enable_learning (learner p) = false \/ action_type (fst res) = 0)
           /\ snd res = p))).
Proof.
  cbv zeta. unfold select_best_action.
  destruct (best_of p before) as [a v]. cbn [fst snd].
  assert (Hreg : forall res,
    res = (if enable_learning (learner p) && negb (action_type a =? 0)
           then let '(next_state, actual_reward) := action_apply a before in
                (a, with_learner p (with_episode (learner p)
                      (current_episode (learner p) ++
                        [{| state := before; action_taken := a; reward := actual_reward;
                            next_state := next_state;
                            evaluation := evaluate_board (learner p) before |}])))
           else (a, p)) ->
    fst res = a
    /\ ((enable_learning (learner p) = true /\ action_type (fst res) <> 0
         /\ snd res = with_learner p (with_episode (learner p)
              (current_episode (learner p) ++ [recorded_step p before (fst res)])))
        \/ ((enable_learning (learner p) = false \/ action_type (fst res) = 0)
            /\ snd res = p))).
  { intros res ->. unfold recorded_step.
    destruct (enable_learning (learner p)); cbn [andb].
    - destruct (Z.eqb_spec (action_type a) 0) as [E|E]; cbn [negb].
      + split; [reflexivity|]. right. split; [right; exact E | reflexivity].
      + destruct (action_apply a before) as [nx rw] eqn:Ea. cbn [fst snd].
        rewrite Ea. cbn [fst snd].
        split; [reflexivity|]. left. split; [reflexivity|]. split; [exact E | reflexivity].
    - split; [reflexivity|]. right. split; [left|]; reflexivity. }
  destruct (float_eqb v (SFopp float_max)) eqn:Ev.
  - destruct (first_legal before slider_opcode) as [op|] eqn:Ef.
    + left. split; [reflexivity|]. exists op. split; reflexivity.
    + right. split; [right; reflexivity|]. apply Hreg. reflexivity.
  - right. split; [left; reflexivity|]. apply Hreg. reflexivity.
Qed.

End DecisionFacts.

Lemma float_eqb_neg_max : float_eqb (SFopp float_max) (SFopp float_max) = true.
Proof. vm_compute. reflexivity. Qed.

Lemma all_illegal before :
  first_legal before slider_opcode = None -> forall op, ~ legal before op.
Proof.
  intros H op Hl. destruct (legal_opcode before op Hl) as (op' & Hlt & Hl').
  apply (first_legal_none before slider_opcode H op'); [|exact Hl'].
  now apply in_slider_opcode.
Qed.

Lemma select_best_action_outcome (action_type : action -> Z) p before :
  (fst (select_best_action action_type p before) = NoAction
   /\ forall op, ~ legal before op)
  \/ exists op, fst (select_best_action action_type p before) = SlideAction op
                /\ (op < 4)%N /\ legal before op.
Proof.
  destruct (select_best_action_cases action_type p before)
    as [(_ & op & Hf & ->) | (Hv & -> & _)].
  - right. exists op. cbn [fst]. split; [reflexivity|].
    destruct (first_legal_some _ _ _ Hf) as (Hin & Hl).
    split; [now apply in_slider_opcode | exact Hl].
  - destruct (best_of_result p before) as [E | (op & E & Hlt & Hl)].
    + left. rewrite E in *. cbn [fst snd] in *. split; [reflexivity|].
      destruct Hv as [Hv | Hv]; [rewrite float_eqb_neg_max in Hv; discriminate|].
      now apply all_illegal.
    + right. exists op. auto.
Qed.

(** X14. [select_best_action] returns the default action exactly when
    every slide is illegal (returns -1); otherwise it returns a slide with
    one of the opcodes 0 to 3 that is legal, whatever the weights and the
    values computed from them; it never returns a placement. *)
Theorem select_best_action_legal (action_type : action -> Z) (p : slider_state)
    (before : board) :
  let a := fst (select_best_action action_type p before) in
  (a = NoAction <-> forall op, ~ legal before op)
  /\ (forall op, a = SlideAction op -> (op < 4)%N /\ legal before op)
  /\ (forall pos t, a <> PlaceAction pos t).
Proof.
  cbv zeta.
  destruct (select_best_action_outcome action_type p before)
    as [(-> & Hno) | (op & -> & Hlt & Hl)].
  - split; [tauto|]. split; [discriminate | discriminate].
  - split; [|split].
    + split; [discriminate|]. intros Hno. exfalso. exact (Hno op Hl).
    + intros op' E. injection E as <-. auto.
    + discriminate.
Qed.

(** X15. [select_best_action] changes nothing of the slider but the
    trajectory, to which it adds at most the one step of the returned
    action, with the board given, the outcome of applying the action to it
    and the evaluation of the board given.  Nothing is recorded when
    learning is off or the type of the action is 0, nor when the action
    comes from the second loop, which returns at once; after the first loop
    has raised the best value the step is recorded. *)
Theorem select_best_action_records (action_type : action -> Z) (p : slider_state)
    (before : board) :
  let a := fst (select_best_action action_type p before) in
  let p' := snd (select_best_action action_type p before) in
  let recorded :=
    with_learner p
      (with_episode (learner p)
         (current_episode (learner p) ++ [recorded_step p before a])) in
  (p' = p \/ (enable_learning (learner p) = true /\ action_type a <> 0 /\ p' = recorded))
  /\ (enable_learning (learner p) = false -> p' = p)
  /\ (action_type a = 0 -> p' = p)
  /\ (float_eqb (snd (best_of p before)) (SFopp float_max) = true ->
      a <> NoAction -> p' = p)
  /\ (float_eqb (snd (best_of p before)) (SFopp float_max) = false ->
      enable_learning (learner p) = true -> action_type a <> 0 -> p' = recorded).
Proof.
  cbv zeta.
  destruct (select_best_action_cases action_type p before)
    as [(Hv & op & Hf & E) | (Hv & Ha & Hrec)].
  - rewrite E. cbn [fst snd]. split; [left; reflexivity|].
    split; [reflexivity|]. split; [reflexivity|]. split; [reflexivity|].
    intros Hv'. congruence.
  - destruct Hrec as [(Hen & Hty & Hp) | (Hoff & Hp)].
    + split; [right; auto|]. split; [congruence|]. split; [contradiction|].
      split; [|auto].
      intros Hv' Hne. exfalso.
      destruct Hv as [Hv | Hv]; [congruence|].
      destruct (best_of_result p before) as [Eb | (o & Eb & _ & Hl)].
      * apply Hne. rewrite Ha, Eb. reflexivity.
      * exact (all_illegal before Hv o Hl).
    + rewrite Hp. split; [left; reflexivity|].
      split; [reflexivity|]. split; [reflexivity|]. split; [reflexivity|].
      intros _ Hen Hty. exfalso. destruct Hoff as [Hoff | Hoff]; congruence.
Qed.

(** ** What the learning reads and what it keeps *)

Lemma nth_length_shape {A B} (k : nat) (l : list (list A)) (l' : list (list B)) :
  map (@length A) l = map (@length B) l' ->
  length (nth k l []) = length (nth k l' []).
Proof.
  revert k l'. induction l as [|x l IH]; intros k [|y l'] H; try discriminate.
  - destruct k; reflexivity.
  - cbn [map] in H. injection H as Hx Hl. destruct k as [|k]; cbn [nth]; auto.
Qed.

Lemma evaluate_board_net ag ag' b : net ag = net ag' -> evaluate_board ag b = evaluate_board ag' b.
Proof. unfold evaluate_board. intros ->. reflexivity. Qed.

Lemma update_pattern_weights_same ag ag' st pattern k e :
  same_but_traces ag ag' ->
  same_but_traces (update_pattern_weights ag st pattern k e)
                  (update_pattern_weights ag' st pattern k e).
Proof.
  intros (Hn & Ha & Hl & He & Hc & Ht). unfold update_pattern_weights.
  rewrite <- Hn, <- Ha, <- Hl, <- He, <- Hc.
  rewrite <- (nth_length_shape k _ _ Ht).
  set (weights := nth k (net ag) []).
  set (index := pattern_index st pattern (length weights)).
  destruct (index <? Z.of_nat (length weights)) eqn:Ew; cbn [andb];
    [|repeat split; assumption].
  destruct (index <? Z.of_nat (length (nth k (eligibility_traces ag) []))) eqn:Et;
    [|repeat split; assumption].
  assert (Hi : (Z.to_nat index < length (nth k (eligibility_traces ag) []))%nat).
  { apply Z.ltb_lt in Et. pose proof (pattern_index_nonneg st pattern (length weights)).
    fold index in H. lia. }
  assert (Hi' : (Z.to_nat index < length (nth k (eligibility_traces ag') []))%nat).
  { rewrite <- (nth_length_shape k _ _ Ht). exact Hi. }
  rewrite !nth_set_nth_same by assumption.
  unfold same_but_traces. cbn [net alpha lambda enable_learning current_episode
                              eligibility_traces].
  repeat split; try reflexivity.
  etransitivity; [apply map_length_set_nth|].
  etransitivity; [exact Ht|]. symmetry. apply map_length_set_nth.
Qed.

Lemma update_pattern_weights_frame ag st pattern k e :
  let ag' := update_pattern_weights ag st pattern k e in
  net_shape ag' = net_shape ag /\ traces_shape ag' = traces_shape ag
  /\ alpha ag' = alpha ag /\ lambda ag' = lambda ag
  /\ enable_learning ag' = enable_learning ag
  /\ current_episode ag' = current_episode ag.
Proof.
  cbv zeta. unfold update_pattern_weights, net_shape, traces_shape.
  destruct (_ && _)%bool; [|repeat split; reflexivity].
  cbn [net alpha lambda enable_learning current_episode eligibility_traces].
  split; [apply map_length_set_nth|]. split; [apply map_length_set_nth|].
  repeat split; reflexivity.
Qed.

Lemma update_isomorphic_same ag ag' st pattern k e :
  same_but_traces ag ag' ->
  same_but_traces (update_isomorphic_pattern_weights ag st pattern k e)
                  (update_isomorphic_pattern_weights ag' st pattern k e).
Proof.
  intros H. unfold update_isomorphic_pattern_weights.
  now do 2 apply update_pattern_weights_same.
Qed.

Lemma update_isomorphic_frame ag st pattern k e :
  let ag' := update_isomorphic_pattern_weights ag st pattern k e in
  net_shape ag' = net_shape ag /\ traces_shape ag' = traces_shape ag
  /\ alpha ag' = alpha ag /\ lambda ag' = lambda ag
  /\ enable_learning ag' = enable_learning ag
  /\ current_episode ag' = current_episode ag.
Proof.
  cbv zeta. unfold update_isomorphic_pattern_weights.
  set (e' := Float32.mul e Float32.lit_0_125).
  set (ag1 := update_pattern_weights ag (mirror_horizontal st) pattern k e').
  destruct (update_pattern_weights_frame ag (mirror_horizontal st) pattern k e')
    as (A1 & A2 & A3 & A4 & A5 & A6).
  destruct (update_pattern_weights_frame ag1 (transpose_board st) pattern k e')
    as (B1 & B2 & B3 & B4 & B5 & B6).
  fold ag1 in A1, A2, A3, A4, A5, A6.
  repeat split; congruence.
Qed.

Lemma update_tables_same st e ks : forall ag ag',
  same_but_traces ag ag' ->
  let body := fun ag i =>
       match nth i (net ag) [] with
       | [] => ag
       | _ =>
           let pattern := nth i patterns [] in
           let ag := update_pattern_weights ag st pattern i e in
           update_isomorphic_pattern_weights ag st pattern i e
       end in
  same_but_traces (fold_left body ks ag) (fold_left body ks ag').
Proof.
  induction ks as [|k ks IH]; intros ag ag' H; cbn [fold_left]; [exact H|].
  apply IH. destruct H as (Hn & H'). rewrite <- Hn.
  destruct (nth k (net ag) []); [split; assumption|].
  apply update_isomorphic_same, update_pattern_weights_same. split; assumption.
Qed.

Lemma update_tables_frame st e ks : forall ag,
  let body := fun ag i =>
       match nth i (net ag) [] with
       | [] => ag
       | _ =>
           let pattern := nth i patterns [] in
           let ag := update_pattern_weights ag st pattern i e in
           update_isomorphic_pattern_weights ag st pattern i e
       end in
  let ag' := fold_left body ks ag in
  net_shape ag' = net_shape ag /\ traces_shape ag' = traces_shape ag
  /\ alpha ag' = alpha ag /\ lambda ag' = lambda ag
  /\ enable_learning ag' = enable_learning ag
  /\ current_episode ag' = current_episode ag.
Proof.
  induction ks as [|k ks IH]; intros ag; cbn [fold_left]; [repeat split; reflexivity|].
  cbv zeta in *.
  match goal with |- context [fold_left ?f ks ?x] => set (ag1 := x) end.
  destruct (IH ag1) as (A1 & A2 & A3 & A4 & A5 & A6).
  assert (H1 : net_shape ag1 = net_shape ag /\ traces_shape ag1 = traces_shape ag
               /\ alpha ag1 = alpha ag /\ lambda ag1 = lambda ag
               /\ enable_learning ag1 = enable_learning ag
               /\ current_episode ag1 = current_episode ag).
  { subst ag1. destruct (nth k (net ag) []); [repeat split; reflexivity|].
    match goal with
    | |- context [update_isomorphic_pattern_weights ?a ?s ?p ?i ?x] =>
        destruct (update_isomorphic_frame a s p i x) as (B1 & B2 & B3 & B4 & B5 & B6)
    end.
    match goal with
    | |- context [update_pattern_weights ?a ?s ?p ?i ?x] =>
        destruct (update_pattern_weights_frame a s p i x) as (C1 & C2 & C3 & C4 & C5 & C6)
    end.
    cbv zeta in *. repeat split; congruence. }
  destruct H1 as (B1 & B2 & B3 & B4 & B5 & B6).
  repeat split; congruence.
Qed.

Lemma shape_nil {A B} (l : list (list A)) (l' : list (list B)) :
  map (@length A) l = map (@length B) l' -> l = [] <-> l' = [].
Proof.
  destruct l, l'; cbn [map]; intros H; try discriminate H;
    split; intros E; first [reflexivity | discriminate E].
Qed.

Lemma update_weights_same ag ag' st e :
  same_but_traces ag ag' ->
  same_but_traces (update_weights_with_td_error ag st e)
                  (update_weights_with_td_error ag' st e).
Proof.
  intros H. pose proof H as (Hn & _ & _ & _ & _ & Ht).
  unfold update_weights_with_td_error. rewrite <- Hn.
  destruct (net ag) as [|w ws] eqn:En; [exact H|].
  pose proof (shape_nil _ _ Ht) as Hnil.
  destruct (eligibility_traces ag) as [|t ts] eqn:Et.
  - rewrite (proj1 Hnil eq_refl). exact H.
  - destruct (eligibility_traces ag') as [|t' ts'] eqn:Et'.
    + destruct Hnil as (_ & Hnil). discriminate (Hnil eq_refl).
    + apply (update_tables_same st e _ ag ag' H).
Qed.

Lemma update_weights_shape ag st e :
  let ag' := update_weights_with_td_error ag st e in
  net_shape ag' = net_shape ag /\ traces_shape ag' = traces_shape ag
  /\ alpha ag' = alpha ag /\ lambda ag' = lambda ag
  /\ enable_learning ag' = enable_learning ag
  /\ current_episode ag' = current_episode ag.
Proof.
  cbv zeta. unfold update_weights_with_td_error.
  destruct (net ag) as [|w ws] eqn:En; [repeat split; reflexivity|].
  destruct (eligibility_traces ag) as [|t ts] eqn:Et; [repeat split; reflexivity|].
  apply (update_tables_frame st e _ ag).
Qed.

Lemma same_but_traces_refl ag : same_but_traces ag ag.
Proof. repeat split; reflexivity. Qed.

Lemma calculate_final_reward_episode ag ag' flag :
  current_episode ag = current_episode ag' ->
  calculate_final_reward ag flag = calculate_final_reward ag' flag.
Proof. unfold calculate_final_reward. intros ->. reflexivity. Qed.

Section LearningFacts.

Variable pow : Float64.t -> nat -> Float64.t.

Lemma final_td_loop_same later_first : forall dist e ag ag',
  same_but_traces ag ag' ->
  same_but_traces (final_td_loop pow later_first dist e ag)
                  (final_td_loop pow later_first dist e ag').
Proof.
  induction later_first as [|step earlier IH]; intros dist e ag ag' H;
    cbn [final_td_loop]; [exact H|].
  pose proof H as (_ & _ & Hl & _).
  rewrite <- Hl.
  pose proof (update_weights_same ag ag' (state step) (discount pow (lambda ag) e dist) H)
    as H1.
  pose proof H1 as (_ & _ & Hl1 & _). rewrite <- Hl1.
  apply IH. exact H1.
Qed.

Lemma final_td_loop_frame later_first : forall dist e ag,
  let ag' := final_td_loop pow later_first dist e ag in
  net_shape ag' = net_shape ag /\ traces_shape ag' = traces_shape ag
  /\ alpha ag' = alpha ag /\ lambda ag' = lambda ag
  /\ enable_learning ag' = enable_learning ag
  /\ current_episode ag' = current_episode ag.
Proof.
  induction later_first as [|step earlier IH]; intros dist e ag;
    cbn [final_td_loop]; [repeat split; reflexivity|].
  cbv zeta in *.
  match goal with |- context [final_td_loop pow earlier ?d ?x ?a] =>
    destruct (IH d x a) as (A1 & A2 & A3 & A4 & A5 & A6) end.
  destruct (update_weights_shape ag (state step) (discount pow (lambda ag) e dist))
    as (B1 & B2 & B3 & B4 & B5 & B6).
  repeat split; congruence.
Qed.

Lemma close_episode_same ag ag' flag :
  same_but_traces ag ag' ->
  same_but_traces (close_episode pow ag flag) (close_episode pow ag' flag).
Proof.
  intros H. pose proof H as (_ & _ & _ & He & Hc & _).
  unfold close_episode, perform_final_td_update. rewrite <- He, <- Hc.
  destruct (enable_learning ag && negb (length (current_episode ag) =? 0)%nat);
    [|exact H].
  destruct (back (current_episode ag)) as [last_step|]; [|exact H].
  rewrite <- (calculate_final_reward_episode ag ag' flag Hc).
  now apply final_td_loop_same.
Qed.

Lemma close_episode_frame ag flag :
  let ag' := close_episode pow ag flag in
  net_shape ag' = net_shape ag /\ traces_shape ag' = traces_shape ag
  /\ alpha ag' = alpha ag /\ lambda ag' = lambda ag
  /\ enable_learning ag' = enable_learning ag
  /\ current_episode ag' = current_episode ag.
Proof.
  cbv zeta. unfold close_episode, perform_final_td_update.
  destruct (enable_learning ag && negb (length (current_episode ag) =? 0)%nat);
    [|repeat split; reflexivity].
  destruct (back (current_episode ag)) as [last_step|]; [|repeat split; reflexivity].
  apply final_td_loop_frame.
Qed.

End LearningFacts.

(** X16. Learning never resizes anything: [update_weights_with_td_error]
    and [close_episode] keep the length of every table and of every trace
    row, the learning rate, lambda, the learning switch and the trajectory,
    which [close_episode] does not clear. *)
Theorem learning_keeps_shapes (pow : Float64.t -> nat -> Float64.t)
    (ag : strategic_slider) (st : board) (e : Float32.t) (flag : string) :
  let updated := update_weights_with_td_error ag st e in
  let closed := close_episode pow ag flag in
  (net_shape updated = net_shape ag /\ traces_shape updated = traces_shape ag
   /\ alpha updated = alpha ag /\ lambda updated = lambda ag
   /\ enable_learning updated = enable_learning ag
   /\ current_episode updated = current_episode ag)
  /\ (net_shape closed = net_shape ag /\ traces_shape closed = traces_shape ag
      /\ alpha closed = alpha ag /\ lambda closed = lambda ag
      /\ enable_learning closed = enable_learning ag
      /\ current_episode closed = current_episode ag).
Proof.
  split; [apply update_weights_shape | apply close_episode_frame].
Qed.

(** X17. The values of the eligibility traces are never read: of two
    learners that differ only in them, with trace rows of the same lengths,
    [evaluate_board] is the same, and after
    [update_weights_with_td_error] and after [close_episode] the weights
    are the same and the trace rows still have the same lengths. *)
Theorem traces_never_read (pow : Float64.t -> nat -> Float64.t)
    (ag ag' : strategic_slider) (st : board) (e : Float32.t) (flag : string) :
  same_but_traces ag ag' ->
  evaluate_board ag st = evaluate_board ag' st
  /\ same_but_traces (update_weights_with_td_error ag st e)
                     (update_weights_with_td_error ag' st e)
  /\ same_but_traces (close_episode pow ag flag) (close_episode pow ag' flag).
Proof.
  intros H. split; [apply evaluate_board_net, H|].
  split; [now apply update_weights_same | now apply close_episode_same].
Qed.

Lemma traces_never_read_witness :
  let ag' := with_traces two_step_agent [repeat Float32.one 16] in
  evaluate_board two_step_agent (state step_a) = evaluate_board ag' (state step_a)
  /\ same_but_traces
       (update_weights_with_td_error two_step_agent (state step_a) Float32.one)
       (update_weights_with_td_error ag' (state step_a) Float32.one)
  /\ same_but_traces (close_episode Float64.pow_iter two_step_agent "lose")
                     (close_episode Float64.pow_iter ag' "lose").
Proof.
  apply (traces_never_read Float64.pow_iter two_step_agent
           (with_traces two_step_agent [repeat Float32.one 16]) (state step_a)
           Float32.one "lose").
  unfold same_but_traces. repeat split; reflexivity.
Defined.

(** ** One decision *)

Lemma map_map_length {A B} (f : A -> B) (l : list (list A)) :
  map (@length B) (map (map f) l) = map (@length A) l.
Proof.
  induction l as [|x l IH]; cbn [map]; [reflexivity|].
  now rewrite IH, length_map.
Qed.

Lemma decay_same decay decay' ag ag' :
  same_but_traces ag ag' ->
  same_but_traces (decay_eligibility_traces decay ag) (decay_eligibility_traces decay' ag').
Proof.
  intros (Hn & Ha & Hl & He & Hc & Ht). unfold decay_eligibility_traces, with_traces.
  unfold same_but_traces.
  cbn [net alpha lambda enable_learning current_episode eligibility_traces].
  repeat split; try assumption.
  etransitivity; [apply map_map_length|].
  etransitivity; [exact Ht|]. symmetry. apply map_map_length.
Qed.

Lemma evaluate_action_same p p' before after r :
  same_decisions p p' -> evaluate_action p before after r = evaluate_action p' before after r.
Proof.
  intros ((Hn & _) & _ & _ & Hp & Hb). unfold evaluate_action.
  rewrite <- Hn, <- Hp, <- Hb, (evaluate_board_net (learner p) (learner p') after Hn).
  reflexivity.
Qed.

Lemma best_of_same p p' before : same_decisions p p' -> best_of p before = best_of p' before.
Proof.
  intros H. unfold best_of.
  generalize (NoAction, SFopp float_max). generalize slider_opcode.
  induction l as [|op ops IH]; intros acc; cbn [fold_left]; [reflexivity|].
  rewrite IH. f_equal. unfold best_step. destruct acc as [a v].
  destruct (slide before op) as [after r].
  now rewrite (evaluate_action_same p p' before after r H).
Qed.

Section OneDecision.

Variable action_type : action -> Z.

Lemma select_best_action_same p p' before :
  same_decisions p p' ->
  fst (select_best_action action_type p before)
  = fst (select_best_action action_type p' before)
  /\ same_decisions (snd (select_best_action action_type p before))
                    (snd (select_best_action action_type p' before)).
Proof.
  intros H. unfold select_best_action. rewrite (best_of_same p p' before H).
  destruct (best_of p' before) as [a v].
  destruct (if float_eqb v (SFopp float_max) then first_legal before slider_opcode else None);
    [split; [reflexivity | exact H]|].
  pose proof H as ((Hn & Ha & Hl & He & Hc & Ht) & Hg & Hm & Hp & Hb).
  rewrite <- He.
  destruct (enable_learning (learner p) && negb (action_type a =? 0));
    [|split; [reflexivity | exact H]].
  destruct (action_apply a before) as [nx rw]. cbn [fst snd].
  split; [reflexivity|].
  unfold same_decisions, same_but_traces, with_learner, with_episode.
  cbn [learner net alpha lambda enable_learning current_episode eligibility_traces
       game_count move_count danger_penalty_factor survival_bonus].
  rewrite <- Hc, (evaluate_board_net (learner p) (learner p') before Hn).
  repeat split; assumption.
Qed.

Lemma perform_td_update_same p p' current_state :
  same_decisions p p' ->
  same_decisions (perform_td_update p current_state) (perform_td_update p' current_state).
Proof.
  intros H. pose proof H as ((Hn & Ha & Hl & He & Hc & Ht) & Hg & Hm & Hp & Hb).
  unfold perform_td_update. rewrite <- Hc.
  destruct (length (current_episode (learner p)) <? 2)%nat; [exact H|].
  destruct (nth_error _ _) as [prev_step|]; [|exact H].
  rewrite <- Hl, <- (evaluate_board_net (learner p) (learner p') current_state Hn).
  unfold same_decisions, with_learner.
  cbn [learner game_count move_count danger_penalty_factor survival_bonus].
  split; [|repeat split; assumption].
  apply decay_same, update_weights_same. repeat split; assumption.
Qed.

Lemma take_action_same p p' before :
  same_decisions p p' ->
  fst (take_action action_type p before) = fst (take_action action_type p' before)
  /\ same_decisions (snd (take_action action_type p before))
                    (snd (take_action action_type p' before)).
Proof.
  intros H. unfold take_action.
  match goal with
  | |- context [select_best_action action_type ?q before] =>
      match goal with
      | |- context [select_best_action action_type ?q' before] =>
          lazymatch q' with
          | q => fail
          | _ => assert (Hq : same_decisions q q')
          end
      end
  end.
  { destruct H as (Hl & Hg & Hm & Hp & Hb). unfold same_decisions.
    cbn [learner game_count move_count danger_penalty_factor survival_bonus].
    rewrite Hm. split; [exact Hl|]. repeat split; assumption. }
  match type of Hq with same_decisions ?q ?q' =>
    destruct (select_best_action_same q q' before Hq) as (Ea & Hs);
    destruct (select_best_action action_type q before) as [a s];
    destruct (select_best_action action_type q' before) as [a' s']
  end.
  cbn [fst snd] in *. subst a'. split; [reflexivity|].
  pose proof Hs as ((_ & _ & _ & He & Hc & _) & _).
  rewrite <- He, <- Hc.
  destruct (enable_learning (learner s)
            && negb (length (current_episode (learner s)) =? 0)%nat); [|exact Hs].
  now apply perform_td_update_same.
Qed.

End OneDecision.

Lemma open_episode_same p p' :
  same_decisions p p' -> same_decisions (open_episode p) (open_episode p').
Proof.
  intros ((Hn & Ha & Hl & He & Hc & Ht) & Hg & Hm & Hp & Hb).
  unfold open_episode, same_decisions, same_but_traces, reset_eligibility_traces,
    with_traces, with_episode.
  cbn [learner net alpha lambda enable_learning current_episode eligibility_traces
       game_count move_count danger_penalty_factor survival_bonus].
  rewrite Hg. repeat split; try assumption.
  etransitivity; [apply map_map_length|].
  etransitivity; [exact Ht|]. symmetry. apply map_map_length.
Qed.

(** X18. Neither the values of the eligibility traces nor
    [eligibility_decay] bear on a game: two sliders that differ only in
    them choose the same action in [take_action], and after it, as after
    [open_episode], they still differ only in them, so that they hold the
    same weights and the same trajectory. *)
Theorem decisions_ignore_traces (action_type : action -> Z) (p p' : slider_state)
    (before : board) :
  same_decisions p p' ->
  fst (take_action action_type p before) = fst (take_action action_type p' before)
  /\ same_decisions (snd (take_action action_type p before))
                    (snd (take_action action_type p' before))
  /\ same_decisions (open_episode p) (open_episode p').
Proof.
  intros H. destruct (take_action_same action_type p p' before H) as (Ha & Hs).
  split; [exact Ha|]. split; [exact Hs | now apply open_episode_same].
Qed.

Lemma decisions_ignore_traces_witness :
  let p := default_slider two_step_agent in
  fst (take_action (fun _ => 1) p two_ones)
  = fst (take_action (fun _ => 1) (other_traces p) two_ones)
  /\ same_decisions (snd (take_action (fun _ => 1) p two_ones))
                    (snd (take_action (fun _ => 1) (other_traces p) two_ones))
  /\ same_decisions (open_episode p) (open_episode (other_traces p)).
Proof.
  apply (decisions_ignore_traces (fun _ => 1) (default_slider two_step_agent)
           (other_traces (default_slider two_step_agent)) two_ones).
  unfold same_decisions, same_but_traces. repeat split; reflexivity.
Defined.

Lemma evaluate_action_counted p before after r :
  evaluate_action (counted p) before after r = evaluate_action p before after r.
Proof.
  unfold evaluate_action, counted.
  cbn [learner danger_penalty_factor survival_bonus]. reflexivity.
Qed.

Lemma best_of_counted p before : best_of (counted p) before = best_of p before.
Proof.
  unfold best_of.
  generalize (NoAction, SFopp float_max). generalize slider_opcode.
  induction l as [|op ops IH]; intros acc; cbn [fold_left]; [reflexivity|].
  rewrite IH. apply (f_equal (fold_left (best_step p before) ops)).
  unfold best_step. destruct acc as [a v].
  destruct (slide before op) as [after r].
  now rewrite evaluate_action_counted.
Qed.

Lemma nth_error_before_last {A} (l : list A) (x y : A) :
  nth_error (l ++ [x; y]) (length (l ++ [x; y]) - 2) = Some x.
Proof.
  rewrite length_app. cbn [length].
  replace (length l + 2 - 2)%nat with (length l) by lia.
  rewrite nth_error_app2 by lia. now rewrite Nat.sub_diag.
Qed.

Section DecisionSteps.

Variable action_type : action -> Z.

Lemma select_best_action_counted p before :
  fst (select_best_action action_type (counted p) before)
  = fst (select_best_action action_type p before).
Proof.
  unfold select_best_action. rewrite best_of_counted.
  destruct (best_of p before) as [a v].
  destruct (if float_eqb v (SFopp float_max) then first_legal before slider_opcode else None);
    [reflexivity|].
  change (learner (counted p)) with (learner p).
  destruct (enable_learning (learner p) && negb (action_type a =? 0)); [|reflexivity].
  destruct (action_apply a before). reflexivity.
Qed.

Lemma select_best_action_state q before :
  let a := fst (select_best_action action_type q before) in
  let q' := snd (select_best_action action_type q before) in
  q' = q
  \/ (enable_learning (learner q) = true
      /\ q' = with_learner q
                (with_episode (learner q)
                   (current_episode (learner q) ++ [recorded_step q before a]))).
Proof.
  cbv zeta.
  destruct (select_best_action_cases action_type q before)
    as [(_ & op & _ & E) | (_ & _ & [(Hen & _ & E) | (_ & E)])].
  - rewrite E. left. reflexivity.
  - right. split; [exact Hen | exact E].
  - left. exact E.
Qed.

Lemma perform_td_update_frame q current_state :
  let q' := perform_td_update q current_state in
  game_count q' = game_count q /\ move_count q' = move_count q
  /\ danger_penalty_factor q' = danger_penalty_factor q
  /\ survival_bonus q' = survival_bonus q
  /\ eligibility_decay q' = eligibility_decay q
  /\ net_shape (learner q') = net_shape (learner q)
  /\ traces_shape (learner q') = traces_shape (learner q)
  /\ alpha (learner q') = alpha (learner q)
  /\ lambda (learner q') = lambda (learner q)
  /\ enable_learning (learner q') = enable_learning (learner q)
  /\ current_episode (learner q') = current_episode (learner q).
Proof.
  cbv zeta. unfold perform_td_update.
  destruct (length (current_episode (learner q)) <? 2)%nat; [repeat split; reflexivity|].
  destruct (nth_error _ _) as [prev_step|]; [|repeat split; reflexivity].
  match goal with
  | |- context [update_weights_with_td_error ?a ?s ?e] =>
      destruct (update_weights_shape a s e) as (B1 & B2 & B3 & B4 & B5 & B6);
      set (ag1 := update_weights_with_td_error a s e) in *
  end.
  unfold with_learner, decay_eligibility_traces, with_traces, net_shape, traces_shape in *.
  cbn [learner game_count move_count danger_penalty_factor survival_bonus
       eligibility_decay net alpha lambda enable_learning current_episode
       eligibility_traces].
  repeat split; try assumption.
  etransitivity; [apply map_map_length | exact B2].
Qed.

End DecisionSteps.

(** X19. [take_action] returns the action [select_best_action] chooses for
    the slider as it was; it counts the move and changes nothing else of
    the slider but the learner, of which it keeps the lengths of the tables
    and of the trace rows, the learning rate, lambda and the learning
    switch, and to whose trajectory it adds at most the step of the
    returned action. *)
Theorem take_action_frame (action_type : action -> Z) (p : slider_state) (before : board) :
  let a := fst (take_action action_type p before) in
  let p' := snd (take_action action_type p before) in
  a = fst (select_best_action action_type p before)
  /\ move_count p' = wrap_i32 (move_count p + 1)
  /\ game_count p' = game_count p
  /\ danger_penalty_factor p' = danger_penalty_factor p
  /\ survival_bonus p' = survival_bonus p
  /\ eligibility_decay p' = eligibility_decay p
  /\ net_shape (learner p') = net_shape (learner p)
  /\ traces_shape (learner p') = traces_shape (learner p)
  /\ alpha (learner p') = alpha (learner p)
  /\ lambda (learner p') = lambda (learner p)
  /\ enable_learning (learner p') = enable_learning (learner p)
  /\ (current_episode (learner p') = current_episode (learner p)
      \/ current_episode (learner p')
         = current_episode (learner p) ++ [recorded_step p before a]).
Proof.
  cbv zeta. unfold take_action. fold (counted p).
  pose proof (select_best_action_counted action_type p before) as Ha.
  pose proof (select_best_action_state action_type (counted p) before) as Hs.
  cbv zeta in Hs.
  destruct (select_best_action action_type (counted p) before) as [a q].
  cbn [fst snd] in *. split; [exact Ha|].
  assert (Hq : move_count q = wrap_i32 (move_count p + 1)
               /\ game_count q = game_count p
               /\ danger_penalty_factor q = danger_penalty_factor p
               /\ survival_bonus q = survival_bonus p
               /\ eligibility_decay q = eligibility_decay p
               /\ net_shape (learner q) = net_shape (learner p)
               /\ traces_shape (learner q) = traces_shape (learner p)
               /\ alpha (learner q) = alpha (learner p)
               /\ lambda (learner q) = lambda (learner p)
               /\ enable_learning (learner q) = enable_learning (learner p)
               /\ (current_episode (learner q) = current_episode (learner p)
                   \/ current_episode (learner q)
                      = current_episode (learner p) ++ [recorded_step p before a])).
  { destruct Hs as [-> | (_ & ->)].
    - repeat split; try reflexivity. left. reflexivity.
    - repeat split; try reflexivity. right. reflexivity. }
  destruct (enable_learning (learner q)
            && negb (length (current_episode (learner q)) =? 0)%nat); [|exact Hq].
  destruct (perform_td_update_frame q before)
    as (A1 & A2 & A3 & A4 & A5 & A6 & A7 & A8 & A9 & A10 & A11).
  cbv zeta in *.
  destruct Hq as (B1 & B2 & B3 & B4 & B5 & B6 & B7 & B8 & B9 & B10 & B11).
  rewrite A11.
  repeat split; first [congruence | exact B11].
Qed.

(** X20. The first decision of an episode, and any decision with learning
    off, changes no weight and no trace, and with learning off nothing of
    the learner.  A later decision that records its step learns from the
    step before it: the weights are updated at the state of that step with
    the error [reward + lambda * V(board now) - evaluation] of that step,
    where [V] is [evaluate_board] on the weights before the update, and the
    traces are decayed afterwards. *)
Theorem take_action_learning (action_type : action -> Z) (p : slider_state) (before : board)
    (earlier : list GameStep) (last_step : GameStep) :
  let a := fst (take_action action_type p before) in
  let p' := snd (take_action action_type p before) in
  let td_error :=
    Float32.sub
      (Float32.add (Float32.of_int (reward last_step))
         (Float32.mul (lambda (learner p)) (evaluate_board (learner p) before)))
      (evaluation last_step) in
  let episode := earlier ++ [last_step; recorded_step p before a] in
  (current_episode (learner p) = [] \/ enable_learning (learner p) = false ->
   net (learner p') = net (learner p)
   /\ eligibility_traces (learner p') = eligibility_traces (learner p))
  /\ (enable_learning (learner p) = false -> learner p' = learner p)
  /\ (enable_learning (learner p) = true ->
      current_episode (learner p) = earlier ++ [last_step] ->
      current_episode (learner p') = episode ->
      learner p'
      = decay_eligibility_traces (eligibility_decay p)
          (update_weights_with_td_error (with_episode (learner p) episode)
             (state last_step) td_error)).
Proof.
  cbv zeta. unfold take_action. fold (counted p).
  pose proof (select_best_action_state action_type (counted p) before) as Hs.
  cbv zeta in Hs.
  destruct (select_best_action action_type (counted p) before) as [a q].
  cbn [fst snd] in *.
  change (learner (counted p)) with (learner p) in Hs.
  change (recorded_step (counted p) before a) with (recorded_step p before a) in Hs.
  destruct Hs as [-> | (Hen & ->)].
  - change (learner (counted p)) with (learner p).
    destruct (enable_learning (learner p)) eqn:Hen; cbn [andb].
    + destruct (current_episode (learner p)) as [|s ss] eqn:Hep; cbn [length Nat.eqb negb].
      * split; [intros _; split; reflexivity|]. split; [discriminate|].
        intros _ Hnil. destruct earlier; discriminate Hnil.
      * split; [intros [H|H]; discriminate H|]. split; [discriminate|].
        intros _ Hold Hnew. exfalso.
        destruct (perform_td_update_frame (counted p) before)
          as (_ & _ & _ & _ & _ & _ & _ & _ & _ & _ & Hc).
        cbv zeta in Hc. rewrite Hc in Hnew.
        change (learner (counted p)) with (learner p) in Hnew.
        rewrite Hep, Hold in Hnew. apply app_inv_head in Hnew. discriminate Hnew.
    + split; [intros _; split; reflexivity|]. split; [reflexivity | discriminate].
  - set (rec := recorded_step p before a).
    cbn [learner with_learner with_episode enable_learning current_episode].
    rewrite Hen. cbn [andb].
    rewrite length_app. cbn [length].
    replace (length (current_episode (learner p)) + 1 =? 0)%nat with false
      by (symmetry; apply Nat.eqb_neq; lia).
    cbn [negb].
    split; [|split; [congruence|]].
    + intros [Hnil | Hoff]; [|congruence].
      unfold perform_td_update.
      cbn [learner with_learner with_episode current_episode].
      rewrite Hnil. cbn [app length Nat.ltb Nat.leb].
      cbn [learner net eligibility_traces]. split; reflexivity.
    + intros _ Hold _.
      unfold perform_td_update.
      cbn [learner with_learner with_episode current_episode lambda eligibility_decay counted].
      rewrite Hold, <- app_assoc. cbn [app].
      rewrite nth_error_before_last.
      rewrite length_app. cbn [length].
      replace (length earlier + 2 <? 2)%nat with false
        by (symmetry; apply Nat.ltb_ge; lia).
      cbn [learner].
      f_equal; f_equal; reflexivity.
Qed.

(** ** Opening an episode, and the traces *)

Lemma all_zero_reset (traces : list (list Float32.t)) :
  Forall (Forall (fun trace => trace = Float32.zero))
    (map (map (fun _ : Float32.t => Float32.zero)) traces).
Proof.
  apply Forall_forall. intros row Hrow. apply in_map_iff in Hrow.
  destruct Hrow as (row0 & <- & _). apply Forall_forall. intros x Hx.
  apply in_map_iff in Hx. destruct Hx as (_ & <- & _). reflexivity.
Qed.

(** X21. [open_episode] empties the trajectory, sets every trace to 0
    without resizing a row, counts the game, resets the move count and
    keeps the weights, the learning parameters and the other settings. *)
Theorem open_episode_resets (p : slider_state) :
  let p' := open_episode p in
  current_episode (learner p') = []
  /\ move_count p' = 0
  /\ game_count p' = wrap_i32 (game_count p + 1)
  /\ net (learner p') = net (learner p)
  /\ traces_shape (learner p') = traces_shape (learner p)
  /\ Forall (Forall (fun trace => trace = Float32.zero)) (eligibility_traces (learner p'))
  /\ alpha (learner p') = alpha (learner p)
  /\ lambda (learner p') = lambda (learner p)
  /\ enable_learning (learner p') = enable_learning (learner p)
  /\ danger_penalty_factor p' = danger_penalty_factor p
  /\ survival_bonus p' = survival_bonus p
  /\ eligibility_decay p' = eligibility_decay p.
Proof.
  cbv zeta.
  split; [reflexivity|]. split; [reflexivity|]. split; [reflexivity|].
  split; [reflexivity|]. split; [apply map_map_length|].
  split; [apply all_zero_reset|].
  repeat split; reflexivity.
Qed.

(** *** [initialize_eligibility_traces] *)

Lemma resize_length {A} n (x : A) l : length (resize n x l) = n.
Proof.
  unfold resize. rewrite length_app, length_firstn, repeat_length. lia.
Qed.

Lemma resize_same_length {A} (x : A) l : resize (length l) x l = l.
Proof.
  unfold resize. rewrite firstn_all, Nat.sub_diag. cbn [repeat]. apply app_nil_r.
Qed.

Lemma nth_set_nth {A} (i j : nat) (l : list A) (x d : A) :
  nth j (set_nth i l x) d = if (i =? j)%nat then (if (i <? length l)%nat then x else d)
                            else nth j l d.
Proof.
  destruct (Nat.eqb_spec i j) as [<- | Hne].
  - destruct (Nat.ltb_spec i (length l)) as [Hlt | Hge].
    + now apply nth_set_nth_same.
    + apply nth_overflow. rewrite set_nth_length. exact Hge.
  - now apply nth_set_nth_other.
Qed.

(** The loop of [initialize_eligibility_traces] over the rows [a .. a+m-1]. *)
Lemma resize_rows_nth (sizes : nat -> nat) m : forall a (traces : list (list Float32.t)) j,
  (a + m <= length traces)%nat ->
  let out :=
    fold_left
      (fun traces i => set_nth i traces (resize (sizes i) Float32.zero (nth i traces [])))
      (seq a m) traces in
  length out = length traces
  /\ nth j out []
     = if ((a <=? j) && (j <? a + m))%nat
       then resize (sizes j) Float32.zero (nth j traces [])
       else nth j traces [].
Proof.
  induction m as [|m IH]; intros a traces j Hlen; cbn [seq fold_left].
  - split; [reflexivity|].
    destruct (Nat.leb_spec a j), (Nat.ltb_spec j (a + 0)); cbn [andb]; try reflexivity; lia.
  - set (traces1 := set_nth a traces (resize (sizes a) Float32.zero (nth a traces []))).
    assert (Hlen1 : length traces1 = length traces) by apply set_nth_length.
    destruct (IH (S a) traces1 j ltac:(lia)) as (Hl & Hn). cbv zeta in *.
    split; [lia|]. rewrite Hn. subst traces1. rewrite nth_set_nth.
    destruct (Nat.eqb_spec a j) as [<- | Hne].
    + destruct (Nat.leb_spec (S a) a); [lia|]. cbn [andb].
      destruct (Nat.ltb_spec a (length traces)); [|lia].
      destruct (Nat.leb_spec a a); [|lia]. destruct (Nat.ltb_spec a (a + S m)); [|lia].
      reflexivity.
    + destruct (Nat.leb_spec (S a) j), (Nat.leb_spec a j),
        (Nat.ltb_spec j (S a + m)), (Nat.ltb_spec j (a + S m));
        cbn [andb]; try reflexivity; lia.
Qed.

Lemma initialize_rows ag j :
  net ag <> [] ->
  let traces := eligibility_traces (initialize_eligibility_traces ag) in
  length traces = length (net ag)
  /\ ((j < length (net ag))%nat ->
      nth j traces []
      = resize (length (nth j (net ag) [])) Float32.zero (nth j (eligibility_traces ag) [])).
Proof.
  intros Hne. cbv zeta. unfold initialize_eligibility_traces.
  destruct (net ag) as [|w ws] eqn:En; [contradiction|]. rewrite <- En.
  cbn [with_traces eligibility_traces].
  pose proof (resize_rows_nth (fun i => length (nth i (net ag) [])) (length (net ag)) 0
                (resize (length (net ag)) [] (eligibility_traces ag)) j) as H.
  rewrite resize_length in H. specialize (H ltac:(lia)). cbv zeta in H.
  destruct H as (Hl & Hn). split; [exact Hl|].
  intros Hj. rewrite Hn.
  destruct (Nat.leb_spec 0 j); [|lia]. destruct (Nat.ltb_spec j (0 + length (net ag))); [|lia].
  cbn [andb]. f_equal.
  unfold resize.
  destruct (Nat.lt_ge_cases j (length (eligibility_traces ag))) as [Hlt | Hge].
  - rewrite app_nth1 by (rewrite length_firstn; lia).
    rewrite nth_firstn. destruct (Nat.ltb_spec j (length (net ag))); [reflexivity | lia].
  - rewrite (nth_overflow (eligibility_traces ag)) by lia.
    rewrite app_nth2 by (rewrite length_firstn; lia).
    apply nth_repeat.
Qed.

Lemma with_traces_same ag : with_traces ag (eligibility_traces ag) = ag.
Proof. destruct ag. reflexivity. Qed.

Lemma initialize_frame ag :
  let ag' := initialize_eligibility_traces ag in
  net ag' = net ag /\ alpha ag' = alpha ag /\ lambda ag' = lambda ag
  /\ enable_learning ag' = enable_learning ag
  /\ current_episode ag' = current_episode ag.
Proof.
  cbv zeta. unfold initialize_eligibility_traces.
  destruct (net ag) eqn:E;
    cbn [with_traces net alpha lambda enable_learning current_episode];
    repeat split; first [reflexivity | exact E].
Qed.

Lemma initialize_shape ag :
  net ag <> [] ->
  traces_shape (initialize_eligibility_traces ag) = net_shape ag.
Proof.
  intros Hne. unfold traces_shape, net_shape.
  apply (nth_ext _ _ 0%nat 0%nat).
  - rewrite !length_map. apply (initialize_rows ag 0 Hne).
  - intros j Hj. rewrite length_map in Hj.
    destruct (initialize_rows ag j Hne) as (Hl & Hn). cbv zeta in *.
    change 0%nat with (length (@nil Float32.t)).
    rewrite !map_nth. rewrite Hn by lia. apply resize_length.
Qed.

Lemma initialize_fixed ag :
  traces_shape ag = net_shape ag -> initialize_eligibility_traces ag = ag.
Proof.
  intros Hs. destruct (net ag) as [|w ws] eqn:En.
  { unfold initialize_eligibility_traces. rewrite En. reflexivity. }
  assert (Hne : net ag <> []) by (rewrite En; discriminate).
  assert (Ht : eligibility_traces (initialize_eligibility_traces ag) = eligibility_traces ag).
  { assert (Hlen : length (eligibility_traces ag) = length (net ag)).
    { unfold traces_shape, net_shape in Hs.
      rewrite <- (length_map (@length Float32.t) (eligibility_traces ag)), Hs.
      apply length_map. }
    apply (nth_ext _ _ [] []).
    - rewrite Hlen. apply (initialize_rows ag 0 Hne).
    - intros j Hj. destruct (initialize_rows ag j Hne) as (Hl & Hn). cbv zeta in *.
      rewrite Hn by lia.
      assert (E : length (nth j (net ag) []) = length (nth j (eligibility_traces ag) []))
        by (symmetry; apply (nth_length_shape j _ _ Hs)).
      rewrite E. apply resize_same_length. }
  unfold initialize_eligibility_traces in *. rewrite En in *. rewrite <- En in *.
  cbn [with_traces eligibility_traces] in Ht. rewrite Ht. apply with_traces_same.
Qed.

(** X22. [initialize_eligibility_traces] touches nothing but the traces
    and does nothing without tables; with tables it gives every table a
    trace row of its length; from no traces at all, as in the constructor,
    every trace is 0; traces that already have the lengths of the tables
    are kept as they are, so that a second call changes nothing. *)
Theorem initialize_eligibility_traces_shape (ag : strategic_slider) :
  let ag' := initialize_eligibility_traces ag in
  (net ag' = net ag /\ alpha ag' = alpha ag /\ lambda ag' = lambda ag
   /\ enable_learning ag' = enable_learning ag
   /\ current_episode ag' = current_episode ag)
  /\ (net ag = [] -> ag' = ag)
  /\ (net ag <> [] -> traces_shape ag' = net_shape ag)
  /\ (net ag <> [] -> eligibility_traces ag = [] ->
      eligibility_traces ag' = map (fun w => repeat Float32.zero (length w)) (net ag))
  /\ (traces_shape ag = net_shape ag -> ag' = ag)
  /\ initialize_eligibility_traces ag' = ag'.
Proof.
  cbv zeta. split; [apply initialize_frame|].
  split; [intros E; unfold initialize_eligibility_traces; rewrite E; reflexivity|].
  split; [apply initialize_shape|].
  split; [|split; [apply initialize_fixed|]].
  - intros Hne Hnil.
    apply (nth_ext _ _ [] (repeat Float32.zero (length (@nil Float32.t)))).
    + rewrite length_map. apply (initialize_rows ag 0 Hne).
    + intros j Hj. destruct (initialize_rows ag j Hne) as (Hl & Hn). cbv zeta in *.
      rewrite Hn by lia.
      rewrite (map_nth (fun w => repeat Float32.zero (length w))).
      rewrite Hnil. unfold resize.
      destruct j; cbn [nth]; rewrite firstn_nil; cbn [length app];
        rewrite Nat.sub_0_r; reflexivity.
  - destruct (net ag) as [|w ws] eqn:En.
    + unfold initialize_eligibility_traces. rewrite En. cbn [net].
      unfold initialize_eligibility_traces. rewrite En. reflexivity.
    + apply initialize_fixed.
      destruct (initialize_frame ag) as (Hn & _). cbv zeta in Hn.
      unfold net_shape at 1. rewrite Hn. apply initialize_shape. rewrite En. discriminate.
Qed.

(** ** Features *)

Lemma clamped_range b i : cells_in_int b -> (i < 16)%nat -> 0 <= clamped b i <= 15.
Proof. intros Hb Hi. unfold clamped. specialize (Hb i Hi). lia. Qed.

Lemma encode_range b pattern :
  cells_in_int b -> Forall (fun pos => 0 <= pos < 16) pattern ->
  0 <= encode b pattern < 16 ^ Z.of_nat (length pattern).
Proof.
  intros Hb. induction 1 as [|pos rest Hpos Hrest IH]; cbn [encode fold_right length].
  - cbn. lia.
  - fold (encode b rest). rewrite Nat2Z.inj_succ, Z.pow_succ_r by lia.
    pose proof (clamped_range b (Z.to_nat pos) Hb ltac:(lia)). lia.
Qed.

(** One iteration of the index loops, without wrap-around. *)
Lemma index_step b pos index multiplier n :
  cells_in_int b -> 0 <= pos < 16 ->
  0 <= index < multiplier -> multiplier * 16 ^ Z.of_nat (S n) < 2 ^ 64 ->
  let tile_value := Z.min (wrap_i32 (at_pos b (Z.to_nat pos))) 15 in
  (0 <=? pos) && (pos <? 16) = true
  /\ wrap_u64 (index + wrap_u64 (wrap_u64 tile_value * multiplier))
     = index + clamped b (Z.to_nat pos) * multiplier
  /\ wrap_u64 (multiplier * 16) = multiplier * 16
  /\ 0 <= index + clamped b (Z.to_nat pos) * multiplier < multiplier * 16
  /\ multiplier * 16 * 16 ^ Z.of_nat n < 2 ^ 64.
Proof.
  intros Hb Hpos Hi Hm. cbv zeta.
  rewrite Nat2Z.inj_succ, Z.pow_succ_r in Hm by lia.
  assert (Hp : 1 <= 16 ^ Z.of_nat n) by (apply Z.pow_le_mono_r with (b := 0); lia).
  pose proof (Hb (Z.to_nat pos) ltac:(lia)) as Hc.
  pose proof (clamped_range b (Z.to_nat pos) Hb ltac:(lia)) as Hcl.
  unfold clamped in *.
  rewrite (wrap_i32_small (at_pos b (Z.to_nat pos))) by (unfold in_i32; lia).
  set (c := Z.min (at_pos b (Z.to_nat pos)) 15) in *.
  assert (Hcm : 0 <= c * multiplier <= 15 * multiplier) by nia.
  assert (H16 : 16 * multiplier < 2 ^ 64) by nia.
  rewrite (wrap_u64_small c) by lia.
  rewrite (wrap_u64_small (c * multiplier)) by lia.
  rewrite (wrap_u64_small (index + c * multiplier)) by lia.
  rewrite (wrap_u64_small (multiplier * 16)) by lia.
  split; [apply andb_true_iff; split; [apply Z.leb_le | apply Z.ltb_lt]; lia|].
  split; [reflexivity|]. split; [reflexivity|]. split; [lia|].
  replace (multiplier * 16 * 16 ^ Z.of_nat n)
    with (multiplier * (16 * 16 ^ Z.of_nat n)) by ring.
  exact Hm.
Qed.

Lemma feature_loop_encode b pattern :
  cells_in_int b -> Forall (fun pos => 0 <= pos < 16) pattern ->
  forall index multiplier,
    0 <= index < multiplier ->
    multiplier * 16 ^ Z.of_nat (length pattern) < 2 ^ 64 ->
    feature_loop b pattern index multiplier = index + multiplier * encode b pattern.
Proof.
  intros Hb. induction 1 as [|pos rest Hpos Hrest IH]; intros index multiplier Hi Hm;
    cbn [feature_loop encode fold_right length] in *.
  - lia.
  - fold (encode b rest).
    destruct (index_step b pos index multiplier (length rest) Hb Hpos Hi Hm)
      as (Hg & E1 & E2 & Hr & Hm').
    cbv zeta in *. rewrite Hg, E1, E2.
    rewrite (IH _ _ Hr Hm'). ring.
Qed.

Lemma pattern_index_loop_encode b pattern size :
  cells_in_int b -> Forall (fun pos => 0 <= pos < 16) pattern ->
  forall index multiplier,
    0 <= index < multiplier ->
    multiplier * 16 ^ Z.of_nat (length pattern) < 2 ^ 64 ->
    let full := index + multiplier * encode b pattern in
    let found := pattern_index_loop b pattern size index multiplier in
    (full < size -> found = full) /\ (size <= full -> size <= found \/ pattern = []).
Proof.
  intros Hb. induction 1 as [|pos rest Hpos Hrest IH]; intros index multiplier Hi Hm;
    cbn [pattern_index_loop encode fold_right length] in *.
  - cbv zeta. split; [lia | auto].
  - fold (encode b rest).
    destruct (index_step b pos index multiplier (length rest) Hb Hpos Hi Hm)
      as (Hg & E1 & E2 & Hr & Hm').
    cbv zeta in *. rewrite Hg, E1, E2.
    pose proof (encode_range b rest Hb Hrest) as He.
    set (c := clamped b (Z.to_nat pos)) in *.
    assert (Hfull : index + multiplier * (c + 16 * encode b rest)
                    = index + c * multiplier + multiplier * 16 * encode b rest) by ring.
    rewrite Hfull.
    assert (Hge : 0 <= multiplier * 16 * encode b rest) by nia.
    destruct (Z.leb_spec size (index + c * multiplier)) as [Hs | Hs].
    + split; [lia|]. intros _. left. exact Hs.
    + destruct (IH _ _ Hr Hm') as (IH1 & IH2).
      split; [exact IH1|]. intros Hle. left.
      destruct (IH2 Hle) as [Hf | ->]; [exact Hf|].
      cbn [pattern_index_loop encode fold_right] in *. lia.
Qed.

Lemma feature_nth b k :
  (k < 4)%nat -> feature b k = feature_loop b (nth k patterns []) 0 1.
Proof.
  intros Hk. unfold feature, extract_all_features.
  do 4 (destruct k as [|k]; [reflexivity|]). lia.
Qed.

Lemma feature_encode b k :
  cells_in_int b -> (k < 4)%nat -> feature b k = encode b (nth k patterns []).
Proof.
  intros Hb Hk. rewrite (feature_nth b k Hk).
  destruct (patterns_positions k) as (Hpos & Hlen).
  rewrite (feature_loop_encode b _ Hb Hpos 0 1); [lia | lia |].
  assert (16 ^ Z.of_nat (length (nth k patterns [])) <= 16 ^ 4)
    by (apply Z.pow_le_mono_r; lia).
  lia.
Qed.

(** X23. When every cell fits an [int], [extract_all_features] gives one
    number below 65536 for each of the four patterns, whose base-16 digits
    are the ranks, capped at 15, at the positions of the pattern: each
    capped rank is read back from the number.  The index loop of
    [evaluate_pattern], which can leave early, finds the same number when
    it lies within the table and a number outside the table otherwise, so
    that [evaluate_pattern] is the weight at the feature, or 0 when the
    table is too short. *)
Theorem features_encode_patterns (b : board) (k : nat) (weights : weight) :
  cells_in_int b -> (k < 4)%nat ->
  let pattern := nth k patterns [] in
  let size := Z.of_nat (length weights) in
  length (extract_all_features b) = 4%nat
  /\ feature b k = encode b pattern
  /\ 0 <= feature b k < 65536
  /\ (forall i, (i < 4)%nat ->
        clamped b (Z.to_nat (nth i pattern 0)) = (feature b k / 16 ^ Z.of_nat i) mod 16)
  /\ (feature b k < size -> pattern_index b pattern (length weights) = feature b k)
  /\ (size <= feature b k -> size <= pattern_index b pattern (length weights))
  /\ evaluate_pattern b pattern weights
     = if feature b k <? size then nth (Z.to_nat (feature b k)) weights Float32.zero
       else Float32.zero.
Proof.
  intros Hb Hk. cbv zeta.
  pose proof (feature_encode b k Hb Hk) as Hf.
  destruct (patterns_positions k) as (Hpos & Hlen).
  pose proof (encode_range b _ Hb Hpos) as Hr.
  assert (Hlen4 : length (nth k patterns []) = 4%nat)
    by (do 4 (destruct k as [|k]; [reflexivity|]); lia).
  rewrite Hlen4 in Hr. change (16 ^ Z.of_nat 4) with 65536 in Hr.
  assert (Hloop :
    (feature b k < Z.of_nat (length weights) ->
     pattern_index b (nth k patterns []) (length weights) = feature b k)
    /\ (Z.of_nat (length weights) <= feature b k ->
        Z.of_nat (length weights) <= pattern_index b (nth k patterns []) (length weights))).
  { unfold pattern_index.
    destruct (pattern_index_loop_encode b (nth k patterns []) (Z.of_nat (length weights))
                Hb Hpos 0 1 ltac:(lia)) as (H1 & H2).
    { rewrite Hlen4. change (16 ^ Z.of_nat 4) with 65536. lia. }
    cbv zeta in *. rewrite Z.add_0_l, Z.mul_1_l, <- Hf in H1, H2.
    split; [exact H1|]. intros Hle. destruct (H2 Hle) as [H | H]; [exact H|].
    rewrite H in Hlen4. discriminate Hlen4. }
  destruct Hloop as (Hin & Hout).
  split; [reflexivity|]. split; [exact Hf|]. split; [lia|].
  split; [|split; [exact Hin|split; [exact Hout|]]].
  - intros i Hi. rewrite Hf.
    assert (Hc : forall j, (j < 16)%nat -> 0 <= clamped b j <= 15)
      by (intros j Hj; now apply clamped_range).
    assert (Hi4 : (i = 0 \/ i = 1 \/ i = 2 \/ i = 3)%nat) by lia.
    do 4 (destruct k as [|k];
      [ destruct Hi4 as [-> | [-> | [-> | ->]]];
        cbn [nth patterns encode fold_right];
        repeat match goal with
        | |- context [clamped b (Z.to_nat ?z)] =>
            let n := eval vm_compute in (Z.to_nat z) in
            change (Z.to_nat z) with n;
            pose proof (Hc n ltac:(lia));
            generalize dependent (clamped b n); intros
        end;
        [ change (16 ^ Z.of_nat 0) with 1 | change (16 ^ Z.of_nat 1) with 16
        | change (16 ^ Z.of_nat 2) with 256 | change (16 ^ Z.of_nat 3) with 4096 ];
        Z.to_euclidean_division_equations; lia
      | ]).
    lia.
  - unfold evaluate_pattern.
    destruct (Z.ltb_spec (feature b k) (Z.of_nat (length weights))) as [Hlt | Hge].
    + rewrite (Hin Hlt). destruct (Z.ltb_spec (feature b k) (Z.of_nat (length weights)));
        [reflexivity | lia].
    + specialize (Hout Hge).
      destruct (Z.ltb_spec (pattern_index b (nth k patterns []) (length weights))
                  (Z.of_nat (length weights))); [lia | reflexivity].
Qed.

Lemma features_encode_patterns_witness :
  feature one_8192 0 = encode one_8192 (nth 0 patterns [])
  /\ 0 <= feature one_8192 0 < 65536.
Proof.
  destruct (features_encode_patterns one_8192 0 (repeat Float32.zero 16)
              cells_in_int_one_8192 ltac:(lia)) as (_ & He & Hr & _).
  split; [exact He | exact Hr].
Defined.

(** ** The tables that count *)

Lemma fold_left_in_range {A} (f g : A -> nat -> A) n :
  (forall a i, (i < n)%nat -> f a i = g a i) ->
  forall a, fold_left f (seq 0 n) a = fold_left g (seq 0 n) a.
Proof.
  intros H.
  assert (Hl : forall l, Forall (fun i => (i < n)%nat) l ->
                 forall a, fold_left f l a = fold_left g l a).
  { induction 1 as [|i l Hi Hl IH]; intros a; cbn [fold_left]; [reflexivity|].
    rewrite (H a i Hi). apply IH. }
  apply Hl. apply Forall_forall. intros i Hi. apply in_seq in Hi. lia.
Qed.

Lemma evaluate_tables_first (l l' : list weight) b v :
  firstn 4 l = firstn 4 l' ->
  fold_left
    (fun value i =>
       let weights := nth i l [] in
       let pattern := nth i patterns [] in
       match weights with
       | [] => value
       | _ =>
           let value := Float32.add value (evaluate_pattern b pattern weights) in
           Float32.add value (evaluate_isomorphic_patterns b pattern weights)
       end) (seq 0 (Nat.min (length patterns) (length l))) v
  = fold_left
    (fun value i =>
       let weights := nth i l' [] in
       let pattern := nth i patterns [] in
       match weights with
       | [] => value
       | _ =>
           let value := Float32.add value (evaluate_pattern b pattern weights) in
           Float32.add value (evaluate_isomorphic_patterns b pattern weights)
       end) (seq 0 (Nat.min (length patterns) (length l'))) v.
Proof.
  intros H.
  assert (Hnth : forall i, (i < 4)%nat -> nth i l [] = nth i l' []).
  { intros i Hi.
    pose proof (nth_firstn 4 l i []) as E1.
    pose proof (nth_firstn 4 l' i []) as E2.
    destruct (Nat.ltb_spec i 4); [|lia]. congruence. }
  assert (Hlen : Nat.min (length patterns) (length l)
                 = Nat.min (length patterns) (length l')).
  { change (length patterns) with 4%nat.
    rewrite <- (length_firstn 4 l), <- (length_firstn 4 l').
    now rewrite H. }
  rewrite Hlen. apply fold_left_in_range. intros a i Hi. cbv zeta.
  rewrite Hnth; [reflexivity|]. change (length patterns) with 4%nat in Hi. lia.
Qed.

Lemma evaluate_board_first_tables ag ag' b :
  firstn 4 (net ag) = firstn 4 (net ag') -> evaluate_board ag b = evaluate_board ag' b.
Proof.
  unfold evaluate_board. intros H.
  destruct (net ag) as [|w ws], (net ag') as [|w' ws']; try discriminate H; [reflexivity|].
  now apply evaluate_tables_first.
Qed.

Lemma apply_variants_later_tables vs : forall ag k i,
  Forall (fun v => (fst (fst v) < 4)%nat) vs ->
  (4 <= k)%nat ->
  weight_at (fold_left apply_variant vs ag) k i = weight_at ag k i
  /\ trace_at (fold_left apply_variant vs ag) k i = trace_at ag k i.
Proof.
  induction vs as [|v vs IH]; intros ag k i Hvs Hk; cbn [fold_left]; [split; reflexivity|].
  inversion_clear Hvs as [|? ? Hv Hrest].
  destruct (IH (apply_variant ag v) k i Hrest Hk) as (-> & ->).
  destruct v as [[kv x] err]. cbn [fst] in Hv.
  destruct (feature_in_range ag kv x) eqn:Er.
  - destruct (apply_variant_in_range ag kv x err Er) as (_ & _ & Hframe).
    cbv zeta in Hframe.
    destruct (Hframe k i) as (Ht & Hw); [|split; assumption].
    intros E. injection E as E1 E2. lia.
  - rewrite (apply_variant_out_of_range ag kv x err Er). split; reflexivity.
Qed.

Lemma update_schedule_tables ag st e :
  Forall (fun v => (fst (fst v) < 4)%nat) (update_schedule ag st e).
Proof.
  unfold update_schedule.
  destruct (net ag) as [|w ws] eqn:En; [constructor|].
  destruct (eligibility_traces ag); [constructor|].
  rewrite <- En. apply Forall_forall. intros v Hv. apply in_flat_map in Hv.
  destruct Hv as (k & Hk & Hv). apply in_seq in Hk.
  destruct (nth k (net ag) []); [destruct Hv|].
  cbn [In] in Hv. destruct Hv as [<- | [<- | [<- | []]]]; cbn [fst]; lia.
Qed.

(** X24. Only the first four tables count: two learners whose first four
    tables agree evaluate every board alike, a learner without tables
    evaluates to 0, an update without tables or without trace rows changes
    nothing, and no update touches a weight or a trace of a table from the
    fifth on. *)
Theorem only_four_tables_count (ag ag' : strategic_slider) (b st : board) (e : Float32.t)
    (k i : nat) :
  (firstn 4 (net ag) = firstn 4 (net ag') -> evaluate_board ag b = evaluate_board ag' b)
  /\ (net ag = [] -> evaluate_board ag b = Float32.zero)
  /\ (net ag = [] \/ eligibility_traces ag = [] -> update_weights_with_td_error ag st e = ag)
  /\ ((4 <= k)%nat ->
      weight_at (update_weights_with_td_error ag st e) k i = weight_at ag k i
      /\ trace_at (update_weights_with_td_error ag st e) k i = trace_at ag k i).
Proof.
  split; [apply evaluate_board_first_tables|].
  split; [intros E; unfold evaluate_board; rewrite E; reflexivity|].
  split.
  - intros [E | E]; unfold update_weights_with_td_error; rewrite E;
      [reflexivity | destruct (net ag); reflexivity].
  - intros Hk. rewrite update_weights_schedule.
    apply apply_variants_later_tables; [apply update_schedule_tables | exact Hk].
Qed.

(** ** The random agents *)

Lemma random_slider_result opcode before :
  (random_slider_take_action opcode before = NoAction
   /\ forall op, In op opcode -> ~ legal before op)
  \/ exists tried op rest,
       opcode = tried ++ op :: rest
       /\ random_slider_take_action opcode before = SlideAction op
       /\ legal before op
       /\ forall op', In op' tried -> ~ legal before op'.
Proof.
  induction opcode as [|o ops IH]; cbn [random_slider_take_action].
  - left. split; [reflexivity | intros op []].
  - destruct (Z.eqb_spec (snd (slide before o)) (-1)) as [E|E]; cbn [negb].
    + destruct IH as [(Hn & Hall) | (tried & op & rest & -> & Ha & Hl & Htried)].
      * left. split; [exact Hn|]. intros op [<- | Hin]; [|now apply Hall].
        intros Hl. apply Hl. exact E.
      * right. exists (o :: tried), op, rest. split; [reflexivity|].
        split; [exact Ha|]. split; [exact Hl|].
        intros op' [<- | Hin]; [|now apply Htried]. intros Hl'. apply Hl'. exact E.
    + right. exists [], o, ops. split; [reflexivity|]. split; [reflexivity|].
      split; [exact E | intros op' []].
Qed.

(** X25. In whatever order the shuffle leaves the four opcodes,
    [random_slider] returns the default action exactly when every slide is
    illegal (returns -1), and otherwise the first opcode in that order
    whose slide is legal; it never returns a placement, and it gives up on
    the same boards as [select_best_action]. *)
Theorem random_slider_plays_legal (action_type : action -> Z) (p : slider_state)
    (opcode : list N) (before : board) :
  (forall op, (op < 4)%N -> In op opcode) ->
  let a := random_slider_take_action opcode before in
  (a = NoAction <-> forall op, ~ legal before op)
  /\ (forall op, a = SlideAction op ->
        legal before op
        /\ exists tried rest,
             opcode = tried ++ op :: rest /\ forall op', In op' tried -> ~ legal before op')
  /\ (forall pos t, a <> PlaceAction pos t)
  /\ (a = NoAction <-> fst (select_best_action action_type p before) = NoAction).
Proof.
  intros Hall. cbv zeta.
  assert (Hnone : random_slider_take_action opcode before = NoAction
                  <-> forall op, ~ legal before op).
  { destruct (random_slider_result opcode before)
      as [(Hn & Hno) | (tried & op & rest & -> & Ha & Hl & Htried)].
    - split; [|intros _; exact Hn]. intros _ op Hl.
      destruct (legal_opcode before op Hl) as (op' & Hlt & Hl').
      exact (Hno op' (Hall op' Hlt) Hl').
    - rewrite Ha. split; [discriminate|]. intros Hno. exfalso. exact (Hno op Hl). }
  split; [exact Hnone|]. split; [|split].
  - intros op Ha.
    destruct (random_slider_result opcode before)
      as [(Hn & _) | (tried & op' & rest & E & Ha' & Hl & Htried)]; [congruence|].
    rewrite Ha' in Ha. injection Ha as ->.
    split; [exact Hl|]. exists tried, rest. split; assumption.
  - intros pos t Ha.
    destruct (random_slider_result opcode before)
      as [(Hn & _) | (tried & op' & rest & E & Ha' & _)]; congruence.
  - rewrite Hnone.
    destruct (select_best_action_outcome action_type p before)
      as [(-> & Hno) | (op & -> & _ & Hl)].
    + tauto.
    + split; [|discriminate]. intros Hno. exfalso. exact (Hno op Hl).
Qed.

Lemma count_range_all (q : nat -> bool) a n :
  fold_right (fun i s => Z.b2z (q i) + s) 0 (seq a n) = Z.of_nat n
  <-> forall i, (a <= i < a + n)%nat -> q i = true.
Proof.
  revert a. induction n as [|n IH]; intros a; cbn [seq fold_right].
  - split; [intros _ i Hi; lia | reflexivity].
  - specialize (IH (S a)). pose proof (count_range_bounds q (S a) n) as Hb.
    rewrite Nat2Z.inj_succ. destruct (q a) eqn:E; cbn [Z.b2z].
    + split.
      * intros H i Hi. destruct (Nat.eq_dec i a) as [-> | Hne]; [exact E|].
        apply IH; lia.
      * intros H. assert (Hs : forall i, (S a <= i < S a + n)%nat -> q i = true)
          by (intros i Hi; apply H; lia).
        apply IH in Hs. lia.
    + split; [lia|]. intros H. rewrite (H a) in E by lia. discriminate E.
Qed.

Lemma board_full b :
  nonzero_cells b = 16 <-> forall i, (i < 16)%nat -> at_pos b i <> 0.
Proof.
  unfold nonzero_cells. rewrite count_pos_sum.
  rewrite (count_range_all (fun i => nonzero (at_pos b i)) 0 16).
  unfold nonzero. split; intros H i Hi.
  - specialize (H i ltac:(lia)). apply negb_true_iff, Z.eqb_neq in H. exact H.
  - apply negb_true_iff, Z.eqb_neq. apply H. lia.
Qed.

Lemma random_placer_result space popup after :
  (random_placer_take_action space popup after = NoAction
   /\ forall pos, In pos space -> at_pos after (N.to_nat pos) <> 0)
  \/ exists pos,
       In pos space
       /\ random_placer_take_action space popup after
          = PlaceAction pos (if negb (popup =? 0) then 1 else 2)
       /\ at_pos after (N.to_nat pos) = 0.
Proof.
  induction space as [|s space IH]; cbn [random_placer_take_action].
  - left. split; [reflexivity | intros pos []].
  - destruct (Z.eqb_spec (at_pos after (N.to_nat s)) 0) as [E|E]; cbn [negb].
    + right. exists s. split; [left; reflexivity|]. split; [reflexivity | exact E].
    + destruct IH as [(Hn & Hall) | (pos & Hin & Ha & Hz)].
      * left. split; [exact Hn|]. intros pos [<- | Hin]; [exact E | now apply Hall].
      * right. exists pos. split; [right; exact Hin|]. split; assumption.
Qed.

(** X26. In whatever order the shuffle leaves the sixteen positions,
    [random_placer] returns the default action exactly when the board is
    full, and otherwise a placement that [place] accepts: an empty cell
    with tile 1 or 2, tile 2 exactly when the number drawn is 0, after
    which the board has one more tile; it never returns a slide. *)
Theorem random_placer_fills_empty_cell (space : list N) (popup : Z) (after : board) :
  Forall (fun pos => (pos < 16)%N) space ->
  (forall pos, (pos < 16)%N -> In pos space) ->
  let a := random_placer_take_action space popup after in
  (a = NoAction <-> nonzero_cells after = 16)
  /\ (forall pos t, a = PlaceAction pos t ->
        In pos space
        /\ at_pos after (N.to_nat pos) = 0
        /\ (t = 1 \/ t = 2) /\ (t = 2 <-> popup = 0)
        /\ snd (place after pos t) = 0
        /\ nonzero_cells (fst (place after pos t)) = nonzero_cells after + 1)
  /\ (forall op, a <> SlideAction op).
Proof.
  intros Hspace Hall. cbv zeta.
  destruct (random_placer_result space popup after)
    as [(Hn & Hno) | (pos & Hin & Ha & Hz)].
  - rewrite Hn. split; [|split; [discriminate | discriminate]].
    split; [|reflexivity]. intros _. apply board_full. intros i Hi.
    assert (Hlt : (N.of_nat i < 16)%N) by lia.
    specialize (Hno (N.of_nat i) (Hall _ Hlt)).
    now rewrite Nat2N.id in Hno.
  - rewrite Ha. split; [|split; [|discriminate]].
    + split; [discriminate|]. intros Hfull. exfalso.
      assert (Hlt : (pos < 16)%N) by (rewrite Forall_forall in Hspace; now apply Hspace).
      apply (proj1 (board_full after) Hfull (N.to_nat pos)); [lia | exact Hz].
    + intros pos' t E. injection E as <- <-.
      assert (Hlt : (pos < 16)%N) by (rewrite Forall_forall in Hspace; now apply Hspace).
      assert (Ht : (if negb (popup =? 0) then 1 else 2) = 1
                   \/ (if negb (popup =? 0) then 1 else 2) = 2)
        by (destruct (popup =? 0); cbn [negb]; auto).
      assert (Hp : (if negb (popup =? 0) then 1 else 2) = 2 <-> popup = 0)
        by (destruct (Z.eqb_spec popup 0); cbn [negb]; split; intros; congruence || lia).
      split; [exact Hin|]. split; [exact Hz|]. split; [exact Ht|]. split; [exact Hp|].
      match goal with
      | |- context [place after pos ?t] =>
          destruct (place_result after pos t) as [(_ & _ & _ & E) | (Hno & _)]
      end.
      * rewrite E. cbn [fst snd]. split; [reflexivity|].
        apply nonzero_cells_set_pos; [lia | exact Hz |].
        destruct (popup =? 0); cbn [negb]; lia.
      * exfalso. apply Hno. auto.
Qed.


Lemma random_slider_plays_legal_witness :
  random_slider_take_action [2; 0; 3; 1]%N two_ones = NoAction
  <-> forall op, ~ legal two_ones op.
Proof.
  apply (random_slider_plays_legal (fun _ => 1) (default_slider fresh_learner)
           [2; 0; 3; 1]%N two_ones).
  intros op Hop. cbn [In]. lia.
Defined.

Lemma random_placer_fills_empty_cell_witness :
  random_placer_take_action [5; 0; 1; 2; 3; 4; 6; 7; 8; 9; 10; 11; 12; 13; 14; 15]%N 0
    two_ones = NoAction
  <-> nonzero_cells two_ones = 16.
Proof.
  apply (random_placer_fills_empty_cell
           [5; 0; 1; 2; 3; 4; 6; 7; 8; 9; 10; 11; 12; 13; 14; 15]%N 0 two_ones).
  - repeat (constructor; [reflexivity|]). constructor.
  - intros pos Hpos. cbn [In]. lia.
Defined.

(** ** Options *)

Lemma at_key_set key value meta key' :
  Meta.at_key (Meta.set key value meta) key'
  = if String.eqb key key' then Some value else Meta.at_key meta key'.
Proof.
  unfold Meta.set. cbn [Meta.at_key].
  destruct (String.eqb_spec key key') as [<- | Hne]; [reflexivity|].
  induction meta as [|[k v] meta IH]; cbn [filter Meta.at_key fst]; [reflexivity|].
  destruct (String.eqb_spec k key) as [-> | Hk]; cbn [negb Meta.at_key].
  - destruct (String.eqb_spec key key'); [contradiction | exact IH].
  - destruct (String.eqb k key'); [reflexivity | exact IH].
Qed.

Lemma find_eq_append key rest :
  Meta.find_eq key = None -> Meta.find_eq rest = Some 0%nat ->
  Meta.find_eq (key ++ rest) = Some (String.length key).
Proof.
  intros Hkey Hrest. induction key as [|c key IH]; cbn [append String.length].
  - exact Hrest.
  - cbn [Meta.find_eq] in *.
    destruct (Ascii.eqb c (Ascii.ascii_of_nat 61)); [discriminate|].
    destruct (Meta.find_eq key); [discriminate|]. now rewrite IH.
Qed.

Lemma find_eq_option key value :
  Meta.find_eq key = None ->
  Meta.find_eq (option_text key value) = Some (String.length key).
Proof. intros H. unfold option_text. now apply find_eq_append. Qed.

Lemma append_assoc (s t u : string) : ((s ++ t) ++ u = s ++ (t ++ u))%string.
Proof. induction s as [|c s IH]; cbn [append]; [reflexivity | now rewrite IH]. Qed.

Lemma substring_prefix s t : substring 0 (String.length s) (s ++ t) = s.
Proof.
  induction s as [|c s IH]; cbn [String.length append substring].
  - destruct t; reflexivity.
  - now rewrite IH.
Qed.

Lemma substring_all s : substring 0 (String.length s) s = s.
Proof.
  induction s as [|c s IH]; cbn [String.length substring]; [reflexivity | now rewrite IH].
Qed.

Lemma substring_suffix s t :
  substring (String.length s) (String.length t) (s ++ t) = t.
Proof.
  induction s as [|c s IH]; cbn [String.length append substring].
  - apply substring_all.
  - exact IH.
Qed.

Lemma length_append s t : String.length (s ++ t) = (String.length s + String.length t)%nat.
Proof. induction s as [|c s IH]; cbn [String.length append]; [reflexivity | now rewrite IH]. Qed.

Lemma key_value_of_option key value :
  Meta.find_eq key = None ->
  Meta.key_of (option_text key value) = key
  /\ Meta.value_of (option_text key value) = value.
Proof.
  intros H. unfold Meta.key_of, Meta.value_of. rewrite (find_eq_option key value H).
  unfold option_text. split; [apply substring_prefix|].
  rewrite <- append_assoc.
  assert (E1 : (String.length key + 1)%nat = String.length (key ++ "="))
    by (rewrite length_append; reflexivity).
  rewrite E1.
  assert (E2 : (String.length ((key ++ "=") ++ value) - String.length (key ++ "="))%nat
               = String.length value)
    by (rewrite (length_append (key ++ "=") value); lia).
  rewrite E2. apply substring_suffix.
Qed.

(** X27. [notify] with [key=value], for a key without ['='], makes
    [property] of the key give the value and leaves every other key as it
    was; a message without ['='] is stored under itself, with itself as
    value; on an agent without options [property] has nothing to give. *)
Theorem notify_sets_one_option (meta : Meta.t) (key value msg other : string) :
  (Meta.find_eq key = None ->
   Meta.property (Meta.notify meta (option_text key value)) key = Some value
   /\ (other <> key ->
       Meta.property (Meta.notify meta (option_text key value)) other
       = Meta.property meta other))
  /\ (Meta.find_eq msg = None ->
      Meta.property (Meta.notify meta msg) msg = Some msg
      /\ (other <> msg ->
          Meta.property (Meta.notify meta msg) other = Meta.property meta other))
  /\ Meta.property [] other = None.
Proof.
  unfold Meta.property, Meta.notify. split; [|split; [|reflexivity]].
  - intros H. destruct (key_value_of_option key value H) as (-> & ->).
    rewrite !at_key_set, String.eqb_refl. split; [reflexivity|].
    intros Hne. destruct (String.eqb_spec key other); [congruence | reflexivity].
  - intros H. unfold Meta.key_of, Meta.value_of. rewrite H.
    rewrite !at_key_set, String.eqb_refl. split; [reflexivity|].
    intros Hne. destruct (String.eqb_spec msg other); [congruence | reflexivity].
Qed.

Lemma append_empty (s : string) : (s ++ "")%string = s.
Proof. induction s as [|c s IH]; cbn [append]; [reflexivity | now rewrite IH]. Qed.

Lemma words_from_token current token :
  no_space token -> (current ++ token)%string <> EmptyString ->
  Meta.words_from current token = [(current ++ token)%string].
Proof.
  revert current. induction token as [|c token IH]; intros current Hns Hne;
    cbn [Meta.words_from].
  - rewrite append_empty in *. destruct current; [contradiction | reflexivity].
  - destruct Hns as (Hc & Hns). rewrite Hc.
    rewrite (IH (current ++ String c "")%string Hns).
    + now rewrite append_assoc.
    + rewrite append_assoc. cbn [append]. destruct current; discriminate.
Qed.

Lemma words_from_last current s token :
  no_space token -> token <> EmptyString ->
  Meta.words_from current (s ++ " " ++ token)
  = Meta.words_from current s ++ [token].
Proof.
  intros Hns Hne. revert current.
  induction s as [|c s IH]; intros current; cbn [append Meta.words_from].
  - match goal with
    | |- context [Meta.isspace ?c] => change (Meta.isspace c) with true
    end.
    cbv iota.
    rewrite (words_from_token "" token Hns Hne). cbn [append].
    destruct current; reflexivity.
  - destruct (Meta.isspace c).
    + destruct current; rewrite IH; reflexivity.
    + apply IH.
Qed.

Lemma no_space_append s t : no_space s -> no_space t -> no_space (s ++ t).
Proof.
  induction s as [|c s IH]; cbn [append no_space]; [auto|].
  intros (Hc & Hs) Ht. split; [exact Hc | now apply IH].
Qed.

Lemma fold_set_keeps_key (tokens : list string) : forall meta key,
  Meta.at_key meta key <> None ->
  Meta.at_key
    (fold_left (fun meta pair => Meta.set (Meta.key_of pair) (Meta.value_of pair) meta)
       tokens meta) key <> None.
Proof.
  induction tokens as [|tok tokens IH]; intros meta key H; cbn [fold_left]; [exact H|].
  apply IH. rewrite at_key_set. destruct (String.eqb _ key); [discriminate | exact H].
Qed.

Lemma agent_words args :
  Meta.words ("name=unknown role=unknown " ++ args)
  = "name=unknown"%string :: "role=unknown"%string :: Meta.words args.
Proof. reflexivity. Qed.

(** X28. An agent always has a name and a role, both [unknown] when the
    arguments hold no word; and building an agent from arguments followed
    by one more option [key=value], without blanks, gives the agent built
    from the arguments after [notify] of that option: the option given
    last is the one kept. *)
Theorem agent_reads_options (args key value : string) :
  (Meta.name (Meta.agent args) <> None /\ Meta.role (Meta.agent args) <> None)
  /\ (Meta.find_eq key = None -> no_space key -> no_space value ->
      Meta.agent (args ++ " " ++ option_text key value)
      = Meta.notify (Meta.agent args) (option_text key value))
  /\ (Meta.words args = [] ->
      Meta.name (Meta.agent args) = Some "unknown"%string
      /\ Meta.role (Meta.agent args) = Some "unknown"%string).
Proof.
  split; [|split].
  - unfold Meta.name, Meta.role, Meta.property, Meta.agent. rewrite agent_words.
    cbn [fold_left]. split; apply fold_set_keeps_key; vm_compute; discriminate.
  - intros Hkey Hk Hv. unfold Meta.agent, Meta.notify, Meta.words.
    rewrite <- append_assoc.
    rewrite words_from_last.
    + rewrite fold_left_app. reflexivity.
    + unfold option_text. apply no_space_append; [exact Hk|].
      cbn [append no_space]. split; [reflexivity | exact Hv].
    + unfold option_text. destruct key; discriminate.
  - intros Hw. unfold Meta.name, Meta.role, Meta.property, Meta.agent.
    rewrite agent_words, Hw. split; reflexivity.
Qed.

(** ** Statistics *)

Section StatisticsFacts.

Variable episode : Type.
Variable new_episode : episode.
Variable episode_open : episode -> string -> episode.

Lemma open_all_last (s : Statistics.t episode) flags flag :
  open_all new_episode episode_open s (flags ++ [flag])
  = match open_all new_episode episode_open s flags with
    | Some s' => Statistics.open_episode new_episode episode_open s' flag
    | None => None
    end.
Proof. unfold open_all. rewrite fold_left_app. reflexivity. Qed.

Lemma tl_skipn {A} n (l : list A) : tl (skipn n l) = skipn (S n) l.
Proof.
  revert l. induction n as [|n IH]; intros [|x l]; cbn [skipn tl]; try reflexivity.
  - apply IH.
Qed.

Lemma open_all_window total block limit flags :
  0 < Statistics.limit (Statistics.make (episode := episode) total block limit) ->
  Z.of_nat (length flags) < 2 ^ 64 ->
  exists s,
    open_all new_episode episode_open (Statistics.make total block limit) flags = Some s
    /\ Statistics.count s = Z.of_nat (length flags)
    /\ Statistics.data s
       = last_n (Z.to_nat (Statistics.limit s)) (map (episode_open new_episode) flags)
    /\ Statistics.total s = total
    /\ Statistics.block s
       = Statistics.block (Statistics.make (episode := episode) total block limit)
    /\ Statistics.limit s
       = Statistics.limit (Statistics.make (episode := episode) total block limit).
Proof.
  set (s0 := Statistics.make (episode := episode) total block limit).
  intros Hlim. induction flags as [|flag flags IH] using rev_ind; intros Hlen.
  - exists s0. repeat split; reflexivity.
  - rewrite length_app in Hlen |- *. cbn [length] in Hlen |- *.
    destruct (IH ltac:(lia)) as (s & Hs & Hc & Hd & Ht & Hb & Hl).
    rewrite open_all_last, Hs. unfold Statistics.open_episode.
    rewrite Hc, Hl. 
    assert (Hw : wrap_u64 (Z.of_nat (length flags) + 1) = Z.of_nat (length flags + 1)).
    { rewrite wrap_u64_small; lia. }
    set (L := Z.to_nat (Statistics.limit s0)) in *.
    assert (HL : Statistics.limit s0 = Z.of_nat L) by (subst L; lia).
    rewrite map_app. cbn [map].
    destruct (Z.leb_spec (Statistics.limit s0) (Z.of_nat (length flags))) as [Hle | Hgt].
    + assert (Hdata : Statistics.data s
                      = skipn (length flags - L) (map (episode_open new_episode) flags)).
      { rewrite Hd, Hl. unfold last_n. now rewrite length_map. }
      destruct (Statistics.data s) as [|e kept] eqn:Ed.
      * exfalso.
        assert (Hz : length (skipn (length flags - L) (map (episode_open new_episode) flags)) = 0%nat)
          by (rewrite <- Hdata; reflexivity).
        rewrite length_skipn, length_map in Hz. lia.
      * eexists. split; [reflexivity|].
        cbn [Statistics.count Statistics.data Statistics.total Statistics.block
             Statistics.limit].
        split; [exact Hw|]. split; [|auto].
        assert (Hk : kept = skipn (S (length flags - L)) (map (episode_open new_episode) flags)).
        { rewrite <- tl_skipn, <- Hdata. reflexivity. }
        rewrite Hk, ?Hl. unfold last_n. rewrite length_app, length_map. cbn [length].
        fold L.
        replace (length flags + 1 - L)%nat with (S (length flags - L)) by lia.
        rewrite skipn_app, length_map.
        replace (S (length flags - L) - length flags)%nat with 0%nat by lia.
        reflexivity.
    + eexists. split; [reflexivity|].
      cbn [Statistics.count Statistics.data Statistics.total Statistics.block
           Statistics.limit].
      split; [exact Hw|]. split; [|auto].
      rewrite Hd, ?Hl. unfold last_n. rewrite length_app, !length_map. cbn [length].
      fold L.
      replace (length flags - L)%nat with 0%nat by lia.
      replace (length flags + 1 - L)%nat with 0%nat by lia.
      reflexivity.
Qed.

End StatisticsFacts.

Lemma last_n_length {A} n (l : list A) : length (last_n n l) = Nat.min (length l) n.
Proof. unfold last_n. rewrite length_skipn. lia. Qed.

Lemma open_all_none (episode : Type) (new_episode : episode)
    (episode_open : episode -> string -> episode) (flags : list string) :
  fold_left
    (fun opened flag =>
       match opened with
       | Some s => Statistics.open_episode new_episode episode_open s flag
       | None => None
       end) flags None = None.
Proof. induction flags as [|flag flags IH]; cbn [fold_left]; [reflexivity | exact IH]. Qed.

(** X29. Statistics keep the most recent records.  With [kept] the limit
    given to the constructor, or the total when the limit is given as 0:
    if [kept] is positive, every call of [open_episode] has a result, and
    after any number of calls [step] is the number of calls, the records
    kept are those of the last [kept] calls, or of all calls when there
    were fewer, the last one being that of the last call, and
    [is_finished] holds once the total is reached; if [kept] is 0, which
    takes a total of 0, the first call pops an empty deque and has no
    result. *)
Theorem statistics_keeps_last_episodes (episode : Type) (new_episode : episode)
    (episode_open : episode -> string -> episode)
    (total block limit : Z) (flags : list string) :
  0 <= total -> 0 <= limit -> Z.of_nat (length flags) < 2 ^ 64 ->
  let kept := Z.to_nat (if negb (limit =? 0) then limit else total) in
  let opened := open_all new_episode episode_open (Statistics.make total block limit) flags in
  ((0 < kept)%nat ->
   exists s,
     opened = Some s
     /\ Statistics.step s = Z.of_nat (length flags)
     /\ Statistics.data s = last_n kept (map (episode_open new_episode) flags)
     /\ length (Statistics.data s) = Nat.min (length flags) kept
     /\ Statistics.is_finished s = (total <=? Z.of_nat (length flags))
     /\ Statistics.back s = hd_error (rev (map (episode_open new_episode) flags)))
  /\ (kept = 0%nat -> flags <> [] -> total = 0 /\ opened = None).
Proof.
  intros Htotal Hlimit Hlen. cbv zeta. split.
  - intros Hkept.
    assert (Hpos : 0 < Statistics.limit (Statistics.make (episode := episode) total block limit)).
    { cbn [Statistics.make Statistics.limit]. lia. }
    destruct (open_all_window episode new_episode episode_open total block limit flags
                Hpos Hlen) as (s & Hs & Hc & Hd & Ht & Hb & Hl).
    rewrite Hl in Hd. cbn [Statistics.make Statistics.limit] in Hd, Hpos.
    exists s. split; [exact Hs|]. split; [exact Hc|]. split; [exact Hd|].
    split; [rewrite Hd, last_n_length, length_map; reflexivity|].
    split; [unfold Statistics.is_finished; now rewrite Ht, Hc|].
    unfold Statistics.back. rewrite Hd. unfold last_n.
    set (l := map (episode_open new_episode) flags).
    set (kept := Z.to_nat (if negb (limit =? 0) then limit else total)) in *.
    assert (Er : rev l = rev (skipn (length l - kept) l) ++ rev (firstn (length l - kept) l))
      by (rewrite <- rev_app_distr, firstn_skipn; reflexivity).
    rewrite Er.
    destruct (rev (skipn (length l - kept) l)) as [|x xs] eqn:E; [|reflexivity].
    destruct l as [|y l']; [reflexivity|].
    exfalso. apply (f_equal (@length _)) in E.
    rewrite length_rev, length_skipn in E. cbn [length] in E. lia.
  - intros Hkept Hne.
    assert (Hz : limit = 0 /\ total = 0)
      by (destruct (Z.eqb_spec limit 0); cbn [negb] in Hkept; lia).
    destruct Hz as (-> & ->). split; [reflexivity|].
    destruct flags as [|flag flags]; [contradiction|].
    unfold open_all. cbn [fold_left]. apply open_all_none.
Qed.

Lemma statistics_keeps_last_episodes_witness :
  exists s,
    open_all 0%nat (fun _ flag => String.length flag) (Statistics.make 5 0 2)
      ["win"; "lose"; "lose"]%string = Some s
    /\ Statistics.step s = 3
    /\ Statistics.data s
       = last_n 2 (map (fun flag => String.length flag) ["win"; "lose"; "lose"]%string)
    /\ length (Statistics.data s) = 2%nat
    /\ Statistics.is_finished s = false
    /\ Statistics.back s = Some 4%nat.
Proof.
  apply (statistics_keeps_last_episodes nat 0%nat (fun _ flag => String.length flag)
           5 0 2 ["win"; "lose"; "lose"]%string);
    [lia | lia | vm_compute; reflexivity | vm_compute; lia].
Defined.

(** ** Runs *)

(** On the board with two 2-tiles in the first row, sliding right and left
    both merge them and are valued alike; the first of them in the order of
    the opcodes is chosen, and its step recorded. *)
Example first_decision :
  let p := default_slider (initialize_eligibility_traces fresh_learner) in
  let chosen := take_action (fun _ => 1) p two_ones in
  fst chosen = SlideAction 1
  /\ map (fun op => evaluate_action p two_ones (fst (slide two_ones op)) (snd (slide two_ones op)))
       [1; 2; 3]%N
     = [Float32.of_int 15004; Float32.of_int 14000; Float32.of_int 15004]
  /\ map reward (current_episode (learner (snd chosen))) = [4]
  /\ move_count (snd chosen) = 1.
Proof. vm_compute. repeat split; reflexivity. Qed.

Example agent_options :
  let a := Meta.agent "init=16 alpha=0.1 name=strategic" in
  Meta.name a = Some "strategic"%string
  /\ Meta.role a = Some "unknown"%string
  /\ Meta.property a "alpha" = Some "0.1"%string
  /\ Meta.property a "lambda" = None.
Proof. vm_compute. repeat split; reflexivity. Qed.
